(** * speech2text: the capture-and-recognition loop of [audio_recorder.cpp]

    A shallow embedding of [src/ses/audio_recorder.cpp] (class
    [AudioRecorder] and [main]) together with the properties of the
    natural-language specification that concern it.

    Conventions of the embedding.
    - C++ integers are [Z] with the wrap-around of their width written
      out ([int32_t], [uint32_t], [size_t]); [int16_t] samples are [Z]
      constrained by [int16].
    - Raw bytes (the [char buffer[320]], the bytes of the WAV file) are
      [Byte.byte]; the target is the little-endian x86-64 Linux named by
      the Vosk include path.
    - [double] is modelled exactly: a finite value is a mantissa and a
      binary exponent, and every operation rounds the exact quotient to
      the nearest binary64 value, ties to even.
    - The outside world (files, the recognizer, the capture pipe, signals)
      is explicit: a trace of output events, a type class for the Vosk
      API, a list of read results and signal deliveries. *)

From Stdlib Require Import ZArith List Lia Bool Ascii String.
From Stdlib Require Import Permutation.
From Stdlib.Strings Require Import Byte.
From Stdlib Require Import SpecFloat.
Import ListNotations.
Open Scope Z_scope.

(* ================================================================== *)
(** * Part I: definitions *)
(* ================================================================== *)

(** ** Machine integers *)

Definition wrap_signed (bits x : Z) : Z :=
  (x + 2 ^ (bits - 1)) mod 2 ^ bits - 2 ^ (bits - 1).

Definition wrap_unsigned (bits x : Z) : Z := x mod 2 ^ bits.

Definition int32 (x : Z) : Z := wrap_signed 32 x.
Definition uint32 (x : Z) : Z := wrap_unsigned 32 x.
Definition uint16 (x : Z) : Z := wrap_unsigned 16 x.
Definition size_t (x : Z) : Z := wrap_unsigned 64 x.

Definition INT_MIN : Z := - 2 ^ 31.
Definition INT_MAX : Z := 2 ^ 31 - 1.

(** The values an [int16_t] can hold. *)
Definition int16 (s : Z) : Prop := - 32768 <= s <= 32767.

(** ** IEEE 754 binary64, as far as [calculateAudioLevel] uses it

    A finite double is [m * 2^e], the mantissa of any size.  Division
    rounds the exact quotient to 53 significant bits, nearest-even.  The
    exponent-range checks of the format (overflow to infinity, gradual
    underflow) are left out: every quotient formed by the program has an
    [int32_t] or a rounded mean as numerator and a [size_t] or the
    literal [3276.7] as denominator, and lies between 2^-80 and 2^32, far
    inside the normal range [2^-1022, 2^1024).  Zero has no sign: the
    conversion to [int] cannot tell the two zeros apart. *)

Module Binary64.

Inductive double : Type :=
| Finite (m e : Z)
| Infinite (negative : bool)
| NaN.

(** [pow2 k] is [2^k] for [k >= 0] and [1] otherwise, so that
    [2^k = pow2 k / pow2 (-k)] for every integer [k]. *)
Definition pow2 (k : Z) : Z := 2 ^ Z.max 0 k.

(** A non-negative rational is a pair (numerator, denominator). *)
Definition frac : Type := (Z * Z)%type.

Definition frac_le (x y : frac) : Prop := fst x * snd y <= fst y * snd x.

(** [scaled x k] is [x / 2^k]. *)
Definition scaled (x : frac) (k : Z) : frac :=
  (fst x * pow2 (- k), snd x * pow2 k).

(** Nearest integer to [n / d], ties to even ([0 <= n], [0 < d]). *)
Definition rne (n d : Z) : Z :=
  let q := n / d in
  match 2 * (n mod d) ?= d with
  | Lt => q
  | Gt => q + 1
  | Eq => if Z.even q then q else q + 1
  end.

(** The exponent [e] with [2^52 <= x / 2^e < 2^53], for [x > 0]. *)
Definition binade (x : frac) : Z :=
  let e0 := Z.log2 (fst x) - Z.log2 (snd x) - 53 in
  let s := scaled x e0 in
  if fst s / snd s <? 2 ^ 53 then e0 else e0 + 1.

(** Round a positive rational to the nearest double. *)
Definition round_pos (x : frac) : Z * Z :=
  let e := binade x in
  let s := scaled x e in
  (rne (fst s) (snd s), e).

(** Round the rational [a / b] ([b > 0], any sign of [a]). *)
Definition round (a b : Z) : double :=
  if a =? 0 then Finite 0 0
  else let '(m, e) := round_pos (Z.abs a, b) in Finite (Z.sgn a * m) e.

(** The exact value of a finite double, as numerator and denominator. *)
Definition num (m e : Z) : Z := m * pow2 e.
Definition den (e : Z) : Z := pow2 (- e).

(** Conversion of an integer: exact below 2^53, rounded above. *)
Definition of_Z (n : Z) : double :=
  if Z.abs n <? 2 ^ 53 then Finite n 0 else round n 1.

(** [x / y]. *)
Definition div (x y : double) : double :=
  match x, y with
  | NaN, _ | _, NaN => NaN
  | Infinite _, Infinite _ => NaN
  | Infinite s, Finite m _ => Infinite (xorb s (m <? 0))
  | Finite _ _, Infinite _ => Finite 0 0
  | Finite m1 e1, Finite m2 e2 =>
      if m2 =? 0 then (if m1 =? 0 then NaN else Infinite (m1 <? 0))
      else round (Z.sgn m2 * num m1 e1 * den e2) (Z.abs (num m2 e2) * den e1)
  end.

(** [(int) x]: truncation toward zero.  Outside the range of [int], and
    for infinities and NaN, the conversion instruction of x86-64 yields
    [INT_MIN]. *)
Definition to_int (x : double) : Z :=
  match x with
  | Finite m e =>
      let t := Z.quot (num m e) (den e) in
      if (INT_MIN <=? t) && (t <=? INT_MAX) then t else INT_MIN
  | _ => INT_MIN
  end.

(** Finite and not below zero. *)
Definition nonneg (x : double) : Prop :=
  match x with Finite m _ => 0 <= m | _ => False end.

(** Order on finite doubles (by value). *)
Definition le (x y : double) : Prop :=
  match x, y with
  | Finite m1 e1, Finite m2 e2 => num m1 e1 * den e2 <= num m2 e2 * den e1
  | _, _ => False
  end.

(** The same value in the representation of the Standard Library's
    specification of IEEE 754 (a mantissa of exactly 53 bits), to compare
    the two on examples. *)
Definition to_spec_float (x : double) : spec_float :=
  match x with
  | Finite m e =>
      let shift := Z.log2 (Z.abs m) - 52 in
      let m' := if 0 <=? shift then Z.abs m / 2 ^ shift
                else Z.abs m * 2 ^ (- shift) in
      match m' with
      | Zpos p => S754_finite (m <? 0) p (e + shift)
      | _ => S754_zero false
      end
  | Infinite s => S754_infinity s
  | NaN => S754_nan
  end.

End Binary64.

Import Binary64.

(** The literal [3276.7]: the double nearest to 32767/10. *)
Definition lit_3276_7 : double := Eval vm_compute in round 32767 10.

(** ** AudioRecorder::calculateAudioLevel

    [samples] is the view [samples[0 .. sampleCount)]. *)

Definition sum_abs (samples : list Z) : Z :=
  fold_left (fun sum s => int32 (sum + Z.abs s)) samples 0.

Definition calculateAudioLevel (samples : list Z) : Z :=
  let sampleCount := Z.of_nat (List.length samples) in
  if sampleCount =? 0 then 0
  else
    let sum := sum_abs samples in
    let avgLevel := div (of_Z sum) (of_Z sampleCount) in
    let level := to_int (div avgLevel lit_3276_7) in
    if level >? 10 then 10 else level.

(** The two divisions and the conversion above, as a function of the
    exact mean [a / b]. *)
Definition level_of_mean (a b : Z) : Z :=
  to_int (div (round a b) lit_3276_7).

(** The sum of the magnitudes, in unbounded arithmetic. *)
Definition total_abs (samples : list Z) : Z :=
  fold_right (fun s acc => Z.abs s + acc) 0 samples.

(** What the specification says of the estimator: the mean of the
    magnitudes, divided by 32767/10, truncated toward zero, at most 10.
    The quotient of the mean [total / N] by [32767 / 10] is
    [(total * 10) / (N * 32767)]. *)
Definition loudness_by_spec (samples : list Z) : Z :=
  let N := Z.of_nat (List.length samples) in
  if N =? 0 then 0
  else Z.min 10 (Z.quot (total_abs samples * 10) (N * 32767)).


(** ** Strings: the operations of [std::string] the program uses *)

(** [s.empty()]. *)
Definition empty (s : string) : bool :=
  match s with EmptyString => true | String _ _ => false end.

(** The suffix of [s] that starts at index [n]. *)
Fixpoint drop (n : nat) (s : string) : string :=
  match n, s with
  | O, _ => s
  | S n', String _ s' => drop n' s'
  | S _, EmptyString => EmptyString
  end.

(** Index of the first occurrence of [needle] in [s]. *)
Fixpoint find_first (needle s : string) : option nat :=
  if String.prefix needle s then Some O
  else match s with
       | EmptyString => None
       | String _ s' => option_map S (find_first needle s')
       end.

(** [s.find(needle, pos)]; [None] is [std::string::npos]. *)
Definition find (s needle : string) (pos : nat) : option nat :=
  if (pos <=? String.length s)%nat
  then option_map (Nat.add pos) (find_first needle (drop pos s))
  else None.

(** [s.substr(pos, len)]; [None] is the exception [std::out_of_range],
    thrown when [pos > s.size()]. *)
Definition substr (s : string) (pos len : nat) : option string :=
  if (pos <=? String.length s)%nat then Some (substring pos len s) else None.

(** [std::to_string(int)]. *)
Definition digit (d : Z) : ascii := ascii_of_nat (48 + Z.to_nat d).

Fixpoint digits (fuel : nat) (n : Z) (acc : string) : string :=
  match fuel with
  | O => acc
  | S fuel' =>
      let acc' := String (digit (n mod 10)) acc in
      if n / 10 =? 0 then acc' else digits fuel' (n / 10) acc'
  end.

Definition to_string (n : Z) : string :=
  if n <? 0 then ("-" ++ digits 10 (- n) "")%string else digits 10 n "".

(** [std::endl] on a text stream. *)
Definition endl : string := String (ascii_of_nat 10) "".

(** The character [c] occurs in [s]. *)
Fixpoint has_char (c : ascii) (s : string) : bool :=
  match s with
  | EmptyString => false
  | String a s' => Ascii.eqb a c || has_char c s'
  end.

(** [needle] occurs in [s] at index [i]. *)
Definition occurs_at (needle s : string) (i : nat) : Prop :=
  substring i (String.length needle) s = needle.

(** ** AudioRecorder::extractTextFromJson *)

Definition dquote : ascii := ascii_of_nat 34.
Definition quote : string := String dquote "".
Definition text_key : string := (quote ++ "text" ++ quote)%string.

Definition extractTextFromJson (jsonStr : string) : option string :=
  match find jsonStr text_key 0 with
  | None => Some ""%string
  | Some textPos =>
      match find jsonStr ":" textPos with
      | None => Some ""%string
      | Some colonPos =>
          match find jsonStr quote colonPos with
          | None => Some ""%string
          | Some startQuote =>
              match find jsonStr quote (startQuote + 1) with
              | None => Some ""%string
              | Some endQuote =>
                  substr jsonStr (startQuote + 1) (endQuote - startQuote - 1)
              end
          end
      end
  end.

(** ** Bytes and little-endian integers *)

Definition byte_val (b : byte) : Z := Z.of_N (Byte.to_N b).

Definition byte_of_Z (z : Z) : byte :=
  match Byte.of_N (Z.to_N (z mod 256)) with
  | Some b => b
  | None => x00
  end.

(** The [width] low-order bytes of [x], least significant first: the
    object representation of an unsigned integer on the target. *)
Fixpoint le_bytes (width : nat) (x : Z) : list byte :=
  match width with
  | O => []
  | S w => byte_of_Z x :: le_bytes w (x / 256)
  end.

(** The value of a little-endian byte sequence. *)
Fixpoint le_value (bs : list byte) : Z :=
  match bs with
  | [] => 0
  | b :: bs' => byte_val b + 256 * le_value bs'
  end.

(** The two bytes of an [int16_t] in memory, and the [int16_t] that two
    bytes in memory hold. *)
Definition sample_bytes (s : Z) : list byte := le_bytes 2 (uint16 s).

Definition int16_of_bytes (lo hi : byte) : Z :=
  wrap_signed 16 (le_value [lo; hi]).

Definition chars (s : string) : list byte :=
  map byte_of_ascii (list_ascii_of_string s).

(** ** The outside world *)

(** What the program does to the world, in order: files written through
    [std::ofstream], and calls made to the recognizer.  Console output is
    not modelled. *)
Inductive Event : Type :=
| FileWrite (filename content : string)
| FileWriteBinary (filename : string) (bytes : list byte)
| VoskPartialResult
| VoskAcceptWaveform (data : list byte)
| VoskResult
| VoskFinalResult.

(** The Vosk C API ([vosk_api.h]), over the recognizer's own state: the
    model type [M], the recognizer type [R].  [accept_waveform] returns an
    [int]; the three result functions return the payload text. *)
Class Vosk (M R : Type) : Type := {
  vosk_model_new : string -> option M;
  vosk_recognizer_new : M -> Z -> option R;
  vosk_recognizer_accept_waveform : R -> list byte -> R * Z;
  vosk_recognizer_partial_result : R -> R * string;
  vosk_recognizer_result : R -> R * string;
  vosk_recognizer_final_result : R -> R * string
}.

Inductive Signal : Type := SIGINT | SIGTERM.

(** What the capture pipe delivers while the loop runs: the result of one
    [fread], or a signal sent to the process. *)
Inductive SourceEvent : Type :=
| Fread (bytes : list byte)
| Deliver (sig : Signal).

(** Everything the program reads from its environment. *)
Record Env : Type := {
  openable : string -> bool;
  initial_files : string -> option string;
  config_line : option string;
  model_conf_exists : string -> bool;
  default_sink_line : option string;
  timestamp : string;
  popen : string -> option (list SourceEvent);
  stack_buffer : list byte;
  choice : Z
}.

Section Recorder.

Context {M R : Type} `{V : Vosk M R}.

(** ** class AudioRecorder *)

Record AudioRecorder : Type := mkAudioRecorder {
  running : bool;
  audioData : list Z;
  model : option M;
  rec : option R;
  accumulatedText : string
}.

Definition MODEL_PATH : string :=
  "/home/kaplan/Documents/vosk-model-small-en-us-0.15".
Definition OUTPUT_TEXT_FILE : string := "recognized_text.txt".
Definition AUDIO_LEVEL_FILE : string := "audio_level.txt".
Definition MODEL_CONFIG_FILE : string := "current_model.txt".

Definition new_AudioRecorder : AudioRecorder :=
  mkAudioRecorder true [] None None "".

(** How the process reacts to a signal: the default action (the process
    is terminated), or a handler, a function run on the recorder. *)
Inductive Disposition : Type :=
| SIG_DFL
| Handler (h : AudioRecorder -> AudioRecorder).

Record Process : Type := mkProcess {
  recorder : AudioRecorder;
  trace : list Event;
  on_sigint : Disposition;
  on_sigterm : Disposition
}.

Definition set_recorder (a : AudioRecorder) (p : Process) : Process :=
  mkProcess a (trace p) (on_sigint p) (on_sigterm p).

Definition emit (e : Event) (p : Process) : Process :=
  mkProcess (recorder p) (trace p ++ [e]) (on_sigint p) (on_sigterm p).

Definition set_running (b : bool) (a : AudioRecorder) : AudioRecorder :=
  mkAudioRecorder b (audioData a) (model a) (rec a) (accumulatedText a).

Definition set_audioData (d : list Z) (a : AudioRecorder) : AudioRecorder :=
  mkAudioRecorder (running a) d (model a) (rec a) (accumulatedText a).

Definition set_model (m : option M) (a : AudioRecorder) : AudioRecorder :=
  mkAudioRecorder (running a) (audioData a) m (rec a) (accumulatedText a).

Definition set_rec (r : option R) (a : AudioRecorder) : AudioRecorder :=
  mkAudioRecorder (running a) (audioData a) (model a) r (accumulatedText a).

Definition set_accumulatedText (t : string) (a : AudioRecorder)
  : AudioRecorder :=
  mkAudioRecorder (running a) (audioData a) (model a) (rec a) t.

Definition update (f : AudioRecorder -> AudioRecorder) (p : Process)
  : Process :=
  set_recorder (f (recorder p)) p.

(** The content of a file after the events of [t]: what the last write
    to it left, or what it held before the program started. *)
Fixpoint file_after (t : list Event) (before : option string)
  (filename : string) : option string :=
  match t with
  | [] => before
  | FileWrite f c :: t' =>
      file_after t' (if String.eqb f filename then Some c else before)
        filename
  | _ :: t' => file_after t' before filename
  end.

Definition file_content (env : Env) (p : Process) (filename : string)
  : option string :=
  file_after (trace p) (initial_files env filename) filename.

Variable env : Env.

(** ** The State Publisher *)

Definition writeToFile (filename content : string) (p : Process) : Process :=
  if openable env filename
  then emit (FileWrite filename (content ++ endl)) p
  else p.

Definition clearFiles (p : Process) : Process :=
  let p := update (set_accumulatedText "") p in
  let p := writeToFile OUTPUT_TEXT_FILE "" p in
  writeToFile AUDIO_LEVEL_FILE "0" p.

Definition writePartialText (text : string) (p : Process) : Process :=
  if empty text then p else writeToFile OUTPUT_TEXT_FILE text p.

Definition writeRecognizedText (text : string) (p : Process) : Process :=
  if empty text then p
  else
    let p :=
      if negb (empty (accumulatedText (recorder p)))
      then update (fun a =>
             set_accumulatedText (accumulatedText a ++ " ") a) p
      else p in
    let p := update (fun a =>
               set_accumulatedText (accumulatedText a ++ text) a) p in
    writeToFile OUTPUT_TEXT_FILE (accumulatedText (recorder p)) p.

Definition writeAudioLevel (level : Z) (p : Process) : Process :=
  writeToFile AUDIO_LEVEL_FILE (to_string level) p.

(** ** Model selection and AudioRecorder::initialize *)

Definition readCurrentModelPath : string :=
  match config_line env with
  | Some modelPath =>
      if negb (empty modelPath) && model_conf_exists env modelPath
      then modelPath
      else ""
  | None => ""
  end.

Definition initialize (p : Process) : bool * Process :=
  let modelPath := readCurrentModelPath in
  let modelPath := if empty modelPath then MODEL_PATH else modelPath in
  let model1 := vosk_model_new modelPath in
  let model2 :=
    match model1 with
    | Some _ => model1
    | None =>
        if negb (String.eqb modelPath MODEL_PATH)
        then vosk_model_new MODEL_PATH
        else None
    end in
  let p := update (set_model model2) p in
  match model2 with
  | None => (false, p)
  | Some m =>
      let r := vosk_recognizer_new m 16000 in
      let p := update (set_rec r) p in
      match r with
      | None => (false, p)
      | Some _ => (true, clearFiles p)
      end
  end.

(** ** AudioRecorder::getSystemAudioMonitor

    [default_sink_line] is the line [fgets] reads from the [pactl]
    pipeline, if the pipeline starts and prints one. *)

Fixpoint pop_newline (s : string) : string :=
  match s with
  | EmptyString => EmptyString
  | String c EmptyString =>
      if Ascii.eqb c (ascii_of_nat 10) then EmptyString else s
  | String c s' => String c (pop_newline s')
  end.

Definition getSystemAudioMonitor : string :=
  match default_sink_line env with
  | None => ""
  | Some line => pop_newline line ++ ".monitor"
  end.

(** ** AudioRecorder::saveWAVFile *)

Record WAVHeader : Type := mkWAVHeader {
  chunkID : string;
  chunkSize : Z;
  format : string;
  subchunk1ID : string;
  subchunk1Size : Z;
  audioFormat : Z;
  numChannels : Z;
  sampleRate : Z;
  byteRate : Z;
  blockAlign : Z;
  bitsPerSample : Z;
  subchunk2ID : string;
  subchunk2Size : Z
}.

(** The header [saveWAVFile] fills in for a buffer of [size] samples:
    [subchunk2Size = audioData.size() * sizeof(int16_t)], converted to
    [uint32_t], and [chunkSize = 36 + subchunk2Size] in [uint32_t]. *)
Definition wav_header (size : Z) : WAVHeader :=
  let subchunk2Size := uint32 (size_t (size * 2)) in
  mkWAVHeader "RIFF" (uint32 (36 + subchunk2Size)) "WAVE" "fmt " 16 1 1
    16000 32000 2 16 "data" subchunk2Size.

(** The object representation of the header: the fields in declaration
    order; every field is naturally aligned, so there is no padding. *)
Definition header_bytes (h : WAVHeader) : list byte :=
  chars (chunkID h) ++ le_bytes 4 (chunkSize h) ++ chars (format h)
  ++ chars (subchunk1ID h) ++ le_bytes 4 (subchunk1Size h)
  ++ le_bytes 2 (audioFormat h) ++ le_bytes 2 (numChannels h)
  ++ le_bytes 4 (sampleRate h) ++ le_bytes 4 (byteRate h)
  ++ le_bytes 2 (blockAlign h) ++ le_bytes 2 (bitsPerSample h)
  ++ chars (subchunk2ID h) ++ le_bytes 4 (subchunk2Size h).

(** The bytes of [audioData.data()]. *)
Definition data_bytes (samples : list Z) : list byte :=
  flat_map sample_bytes samples.

(** The two [file.write] calls. *)
Definition wav_file (samples : list Z) : list byte :=
  let header := wav_header (Z.of_nat (List.length samples)) in
  header_bytes header
  ++ firstn (Z.to_nat (subchunk2Size header)) (data_bytes samples).

Definition saveWAVFile (filename : string) (p : Process) : Process :=
  if openable env filename
  then emit (FileWriteBinary filename (wav_file (audioData (recorder p)))) p
  else p.

(** A reader of canonical WAV files, to state what the encoder produces:
    the little-endian field at an offset, and the samples of the data
    section. *)
Definition field (bs : list byte) (offset width : nat) : Z :=
  le_value (firstn width (skipn offset bs)).

Fixpoint decode_samples (bs : list byte) : list Z :=
  match bs with
  | lo :: hi :: bs' => int16_of_bytes lo hi :: decode_samples bs'
  | _ => []
  end.

(** ** Signals *)

(** The body of both lambdas of [setSignalHandler]: [instance] is a
    static local initialised to [nullptr] and assigned nowhere. *)
Definition signal_lambda (a : AudioRecorder) : AudioRecorder :=
  let instance : option AudioRecorder := None in
  match instance with
  | Some _ => set_running false a
  | None => a
  end.

Definition setSignalHandler (p : Process) : Process :=
  mkProcess (recorder p) (trace p) (Handler signal_lambda)
    (Handler signal_lambda).

(** Delivery of a signal: [None] when the default action terminates the
    process. *)
Definition deliver (sig : Signal) (p : Process) : option Process :=
  match (match sig with SIGINT => on_sigint p | SIGTERM => on_sigterm p end)
  with
  | SIG_DFL => None
  | Handler h => Some (update h p)
  end.

(** ** AudioRecorder::record *)

(** The locals of [record] that live across iterations. *)
Record Locals : Type := mkLocals {
  buffer : list byte;
  totalBytes : Z;
  updateCounter : Z;
  chunkBuffer : list Z
}.

(** [fread] stores the bytes it read at the start of [buffer]. *)
Definition fread_into (buffer bytes : list byte) : list byte :=
  bytes ++ skipn (List.length bytes) buffer.

(** [((int16_t* )buffer)[i]]. *)
Definition sample_at (buffer : list byte) (i : nat) : Z :=
  int16_of_bytes (nth (2 * i) buffer x00) (nth (2 * i + 1) buffer x00).

(** [samples[0 .. sampleCount)]. *)
Definition samples_view (buffer : list byte) (sampleCount : nat) : list Z :=
  map (sample_at buffer) (seq 0 sampleCount).

(** How a run of the program, or of a part of it, ends. *)
Inductive Outcome (A : Type) : Type :=
| Returned (a : A) (p : Process)
| Killed (sig : Signal) (p : Process)
| Terminated (p : Process).

Arguments Returned {A} a p.
Arguments Killed {A} sig p.
Arguments Terminated {A} p.

(** The recognition step of one iteration, [if (rec) { ... }];
    [None] when [extractTextFromJson] throws. *)
Definition recognize (data : list byte) (p : Process) : option Process :=
  match rec (recorder p) with
  | None => Some p
  | Some r =>
      let '(r, partialResult) := vosk_recognizer_partial_result r in
      let p := emit VoskPartialResult (update (set_rec (Some r)) p) in
      match extractTextFromJson partialResult with
      | None => None
      | Some partialText =>
          let p :=
            if negb (empty partialText) then writePartialText partialText p
            else p in
          let '(r, accepted) := vosk_recognizer_accept_waveform r data in
          let p := emit (VoskAcceptWaveform data)
                     (update (set_rec (Some r)) p) in
          if negb (accepted =? 0) then
            let '(r, result) := vosk_recognizer_result r in
            let p := emit VoskResult (update (set_rec (Some r)) p) in
            match extractTextFromJson result with
            | None => None
            | Some text =>
                Some (if negb (empty text) then writeRecognizedText text p
                      else p)
            end
          else Some p
      end
  end.

(** One iteration of the [while] loop after an [fread] that returned the
    non-empty [bytes].  The progress line of every 25th iteration goes to
    the console only. *)
Definition iteration (bytes : list byte) (p : Process) (l : Locals)
  : option (Process * Locals) :=
  let buffer := fread_into (buffer l) bytes in
  let bytesRead := Z.of_nat (List.length bytes) in
  let bytesRead :=
    if negb (bytesRead mod 2 =? 0) then bytesRead - 1 else bytesRead in
  let totalBytes := size_t (totalBytes l + bytesRead) in
  let sampleCount := bytesRead / 2 in
  let samples := samples_view buffer (Z.to_nat sampleCount) in
  let chunkBuffer := chunkBuffer l ++ samples in
  let p := update (fun a => set_audioData (audioData a ++ samples) a) p in
  let updateCounter := int32 (updateCounter l + 1) in
  let p :=
    if Z.rem updateCounter 2 =? 0
    then writeAudioLevel (calculateAudioLevel samples) p
    else p in
  match recognize (firstn (Z.to_nat bytesRead) buffer) p with
  | None => None
  | Some p => Some (p, mkLocals buffer totalBytes updateCounter chunkBuffer)
  end.

(** The [while (running)] loop.  [in_read] is true while the loop is
    blocked in [fread], the condition of this iteration already
    evaluated: a signal handled there returns into the read, and
    [running] is looked at again only at the top of the next iteration.
    The source exhausted, [fread] returns 0. *)
Fixpoint capture (src : list SourceEvent) (in_read : bool) (p : Process)
  (l : Locals) : Outcome Locals :=
  if negb in_read && negb (running (recorder p)) then Returned l p
  else
    match src with
    | [] => Returned l p
    | Deliver sig :: src' =>
        match deliver sig p with
        | None => Killed sig p
        | Some p' => capture src' true p' l
        end
    | Fread bytes :: src' =>
        if (List.length bytes =? 0)%nat then Returned l p
        else
          match iteration bytes p l with
          | None => Terminated p
          | Some (p', l') => capture src' false p' l'
          end
    end.

(** After the loop: the final result of the recognizer, the WAV file,
    the level reset. *)
Definition finish (outputFilename : string) (p : Process) : Outcome bool :=
  let after_final :=
    match rec (recorder p) with
    | None => Some p
    | Some r =>
        let '(r, finalResult) := vosk_recognizer_final_result r in
        let p := emit VoskFinalResult (update (set_rec (Some r)) p) in
        match extractTextFromJson finalResult with
        | None => None
        | Some text =>
            Some (if negb (empty text) then writeRecognizedText text p else p)
        end
    end in
  match after_final with
  | None => Terminated p
  | Some p =>
      let p :=
        match audioData (recorder p) with
        | [] => p
        | _ :: _ => saveWAVFile outputFilename p
        end in
      Returned true (writeAudioLevel 0 p)
  end.

Definition parec : string :=
  "parec --format=s16le --rate=16000 --channels=1 --latency-msec=50".

Definition record (mode : Z) (p : Process) : Outcome bool :=
  let selected :=
    if mode =? 1 then
      Some (parec, ("mikrofon_" ++ timestamp env ++ ".wav")%string)
    else if mode =? 2 then
      let monitor := getSystemAudioMonitor in
      if empty monitor then None
      else Some ((parec ++ " --device=" ++ monitor)%string,
                 ("sistem_sesi_" ++ timestamp env ++ ".wav")%string)
    else None in
  match selected with
  | None => Returned false p
  | Some (command, outputFilename) =>
      match popen env command with
      | None => Returned false p
      | Some src =>
          match capture src false p (mkLocals (stack_buffer env) 0 0 []) with
          | Returned _ p => finish outputFilename p
          | Killed sig p => Killed sig p
          | Terminated p => Terminated p
          end
      end
  end.

(** ** main *)

Definition main : Outcome Z :=
  let p := mkProcess new_AudioRecorder [] SIG_DFL SIG_DFL in
  let '(_, p) := initialize p in
  match record (choice env) p with
  | Returned ok p => Returned (if ok then 0 else 1) p
  | Killed sig p => Killed sig p
  | Terminated p => Terminated p
  end.

(** ** Vocabulary of the properties *)

(** The process an outcome leaves behind. *)
Definition outcome_process {A : Type} (o : Outcome A) : Process :=
  match o with
  | Returned _ p => p
  | Killed _ p => p
  | Terminated p => p
  end.

(** The calls to the recognizer in a trace. *)
Definition is_vosk_call (e : Event) : bool :=
  match e with
  | VoskPartialResult | VoskAcceptWaveform _ | VoskResult | VoskFinalResult =>
      true
  | _ => false
  end.

Definition vosk_calls (t : list Event) : list Event := filter is_vosk_call t.

(** What a write to the loudness level file may be: the decimal text of
    an integer from 0 to 10, ended by [std::endl]; never binary data. *)
Definition level_event_ok (e : Event) : Prop :=
  match e with
  | FileWrite filename content =>
      filename = AUDIO_LEVEL_FILE ->
      exists level,
        0 <= level <= 10 /\ content = (to_string level ++ endl)%string
  | FileWriteBinary filename _ => filename <> AUDIO_LEVEL_FILE
  | _ => True
  end.

(** Every write to the loudness level file so far was of that kind. *)
Definition levels_ok (p : Process) : Prop :=
  Forall level_event_ok (trace p).

(** The dispositions the program can be in: the default one, in which it
    starts, and the handler [setSignalHandler] installs. *)
Definition installed_by_program (d : Disposition) : Prop :=
  d = SIG_DFL \/ d = Handler signal_lambda.

(** [p'] differs from [p] at most in the recognizer, the transcript and
    the trace. *)
Definition same_session (p p' : Process) : Prop :=
  running (recorder p') = running (recorder p)
  /\ audioData (recorder p') = audioData (recorder p)
  /\ on_sigint p' = on_sigint p
  /\ on_sigterm p' = on_sigterm p.

End Recorder.

Arguments mkAudioRecorder {M R} running audioData model rec accumulatedText.
Arguments mkProcess {M R} recorder trace on_sigint on_sigterm.
Arguments SIG_DFL {M R}.
Arguments Handler {M R} h.
Arguments Returned {M R A} a p.
Arguments Killed {M R A} sig p.
Arguments Terminated {M R A} p.

(** The text the extractor returns. *)
Definition text_of (jsonStr : string) : string :=
  match extractTextFromJson jsonStr with
  | Some text => text
  | None => ""%string
  end.

(** The byte lists of the reads in a source. *)
Fixpoint freads (src : list SourceEvent) : list (list byte) :=
  match src with
  | [] => []
  | Fread bytes :: src' => bytes :: freads src'
  | Deliver _ :: src' => freads src'
  end.

(** A source that delivers audio and nothing else: no signal, and no
    empty read before its end. *)
Definition uninterrupted (src : list SourceEvent) : Prop :=
  Forall (fun e => match e with
                   | Fread bytes => bytes <> []
                   | Deliver _ => False
                   end) src.

(** No [fread] returns more than the 320 bytes of [buffer]. *)
Definition fits_buffer (src : list SourceEvent) : Prop :=
  Forall (fun bytes => Z.of_nat (List.length bytes) <= 320) (freads src).

(** A sequence of reads as [fread] on a pipe produces it: every read
    fills the buffer but the last, which may be short. *)
Fixpoint fread_shaped (reads : list (list byte)) : Prop :=
  match reads with
  | [] => True
  | [_] => True
  | bytes :: rest => List.length bytes = 320%nat /\ fread_shaped rest
  end.

(** The number of reads of odd size. *)
Definition odd_reads (reads : list (list byte)) : Z :=
  Z.of_nat
    (List.length (filter (fun bytes => Nat.odd (List.length bytes)) reads)).

(** The bytes read in all. *)
Definition bytes_read (reads : list (list byte)) : Z :=
  fold_right (fun bytes acc => Z.of_nat (List.length bytes) + acc) 0 reads.

(** ** Two recognizers to run the program on concrete inputs *)

Definition payload (key value : string) : string :=
  ("{ " ++ quote ++ key ++ quote ++ " : " ++ quote ++ value ++ quote ++ " }")
  %string.

(** A recognizer whose state counts the chunks accepted; every second
    chunk completes a segment. *)
Definition scripted : Vosk unit nat := {|
  vosk_model_new := fun _ => Some tt;
  vosk_recognizer_new := fun _ _ => Some O;
  vosk_recognizer_accept_waveform :=
    fun r _ => (S r, if Nat.even (S r) then 1 else 0);
  vosk_recognizer_partial_result := fun r => (r, payload "text" "hel");
  vosk_recognizer_result := fun r => (r, payload "text" "hello");
  vosk_recognizer_final_result := fun r => (r, payload "text" "bye")
|}.

(** An installation where no model can be loaded. *)
Definition no_model : Vosk unit unit := {|
  vosk_model_new := fun _ => None;
  vosk_recognizer_new := fun _ _ => None;
  vosk_recognizer_accept_waveform := fun r _ => (r, 0);
  vosk_recognizer_partial_result := fun r => (r, ""%string);
  vosk_recognizer_result := fun r => (r, ""%string);
  vosk_recognizer_final_result := fun r => (r, ""%string)
|}.

(** ** Concrete sessions *)

(** A machine on which every file opens, the files of an earlier session
    are still there, and the capture pipe delivers what [src] says. *)
Definition session (src : list SourceEvent) : Env := {|
  openable := fun _ => true;
  initial_files := fun filename =>
    if String.eqb filename "recognized_text.txt"
    then Some ("words of an earlier session" ++ endl)%string
    else if String.eqb filename "audio_level.txt"
    then Some ("7" ++ endl)%string
    else None;
  config_line := None;
  model_conf_exists := fun _ => false;
  default_sink_line := None;
  timestamp := "20240101_120000";
  popen := fun _ => Some src;
  stack_buffer := repeat x00 320;
  choice := 1
|}.

(** Two reads of two samples each: 1, 2 and 3, 4. *)
Definition two_chunks : list SourceEvent :=
  [Fread [x01; x00; x02; x00]; Fread [x03; x00; x04; x00]].

(** A read of five bytes, the last one dangling, then a read of two. *)
Definition odd_chunk : list SourceEvent :=
  [Fread [x01; x00; x02; x00; xff]; Fread [x03; x00]].

(** One chunk, then Ctrl+C, then more audio. *)
Definition interrupted : list SourceEvent :=
  [Fread [x01; x00; x02; x00]; Deliver SIGINT; Fread [x03; x00; x04; x00]].

(** The process and the locals with which a session of the scripted
    recognizer enters the loop. *)
Definition fresh_process : @Process unit nat :=
  mkProcess (mkAudioRecorder true [] (Some tt) (Some O) "") [] SIG_DFL SIG_DFL.

Definition fresh_locals : Locals := mkLocals (repeat x00 320) 0 0 [].

(** 2^31 samples of silence: some 37 hours of audio, 4 GiB. *)
Definition long_silence : list Z := repeat 0 (Z.to_nat 2147483648).

(** ** Releasing the recognizer and the model *)

Section Release.

Context {M R : Type} `{V : Vosk M R}.

(** The calls to [vosk_recognizer_free] and [vosk_model_free], with the
    handle they are given. *)
Inductive Release : Type :=
| FreeRecognizer (r : R)
| FreeModel (m : M).

(** AudioRecorder::cleanup, which is also the destructor. *)
Definition cleanup (a : AudioRecorder) : list Release * AudioRecorder :=
  let '(freed_rec, a) :=
    match rec a with
    | Some r => ([FreeRecognizer r], set_rec None a)
    | None => ([], a)
    end in
  let '(freed_model, a) :=
    match model a with
    | Some m => ([FreeModel m], set_model None a)
    | None => ([], a)
    end in
  (freed_rec ++ freed_model, a).

Variable env : Env.

(** The model [initialize] ends up with: the configured one if it is
    valid and loads, else the default one. *)
Definition loaded_model : option M :=
  let modelPath := readCurrentModelPath env in
  let modelPath := if empty modelPath then MODEL_PATH else modelPath in
  match vosk_model_new modelPath with
  | Some m => Some m
  | None =>
      if negb (String.eqb modelPath MODEL_PATH)
      then vosk_model_new MODEL_PATH
      else None
  end.

(** The [vosk_model_free(model)] of [initialize], on the path where the
    recognizer could not be created. *)
Definition initialize_frees : list Release :=
  match loaded_model with
  | None => []
  | Some m =>
      match vosk_recognizer_new m 16000 with
      | None => [FreeModel m]
      | Some _ => []
      end
  end.

(** Every release of a run of [main]: those of [initialize], then those
    of the destructor of [recorder] when [main] returns.  A process that
    a signal ends runs no destructor. *)
Definition main_frees : list Release :=
  initialize_frees
  ++ match main env with
     | Returned _ p => fst (cleanup (recorder p))
     | _ => []
     end.

End Release.

Arguments FreeRecognizer {M R} r.
Arguments FreeModel {M R} m.

(** ** More vocabulary *)

(** The chunks given to [vosk_recognizer_accept_waveform], in order. *)
Definition accept_args (t : list Event) : list (list byte) :=
  flat_map (fun e => match e with
                     | VoskAcceptWaveform data => [data]
                     | _ => []
                     end) t.

(** The binary files written, in order. *)
Definition binary_writes (t : list Event) : list (string * list byte) :=
  flat_map (fun e => match e with
                     | FileWriteBinary filename bytes => [(filename, bytes)]
                     | _ => []
                     end) t.

(** What was written to the loudness level file, in order. *)
Definition level_writes (t : list Event) : list string :=
  flat_map (fun e => match e with
                     | FileWrite filename content =>
                         if String.eqb filename AUDIO_LEVEL_FILE
                         then [content] else []
                     | _ => []
                     end) t.

(** Events that involve neither the recognizer nor the text file:
    writes to the level file and binary files. *)
Definition quiet (e : Event) : Prop :=
  match e with
  | FileWrite filename _ => filename = AUDIO_LEVEL_FILE
  | FileWriteBinary _ _ => True
  | _ => False
  end.

(** Events of the capture loop: anything but a binary file and the final
    result of the recognizer. *)
Definition in_loop (e : Event) : Prop :=
  match e with
  | FileWriteBinary _ _ | VoskFinalResult => False
  | _ => True
  end.

Section Continuation.

Context {M R : Type}.

(** What [p'] has more than [p]: events and samples. *)
Definition events_since (p p' : @Process M R) : list Event :=
  skipn (List.length (trace p)) (trace p').

Definition samples_since (p p' : @Process M R) : list Z :=
  skipn (List.length (audioData (recorder p))) (audioData (recorder p')).

(** [p'] continues [p]: the trace, the sample buffer and the transcript
    have only grown, the new events being [allowed] ones; the model, the
    stop flag and the signal dispositions are the same; a recognizer is
    there after if and only if it was there before; with a recognizer,
    the chunks given to it make up the bytes of the new samples; without
    one, the transcript is the same and the new events are quiet. *)
Definition continues (allowed : Event -> Prop) (p p' : @Process M R)
  : Prop :=
  trace p' = trace p ++ events_since p p'
  /\ Forall allowed (events_since p p')
  /\ audioData (recorder p')
     = audioData (recorder p) ++ samples_since p p'
  /\ (exists text,
        accumulatedText (recorder p')
        = (accumulatedText (recorder p) ++ text)%string)
  /\ model (recorder p') = model (recorder p)
  /\ running (recorder p') = running (recorder p)
  /\ on_sigint p' = on_sigint p
  /\ on_sigterm p' = on_sigterm p
  /\ (rec (recorder p) = None <-> rec (recorder p') = None)
  /\ List.concat (accept_args (events_since p p'))
     = match rec (recorder p) with
       | Some _ => data_bytes (samples_since p p')
       | None => []
       end
  /\ (rec (recorder p) = None ->
      accumulatedText (recorder p') = accumulatedText (recorder p)
      /\ Forall quiet (events_since p p')).

End Continuation.

(** The bytes of a read that an iteration keeps: all of them, or all but
    the last one when their number is odd. *)
Definition kept (bytes : list byte) : list byte :=
  firstn (2 * (List.length bytes / 2)) bytes.

(** Every second element of a list, starting with the first one if
    [take] and with the second one otherwise. *)
Fixpoint alternate {A : Type} (take : bool) (l : list A) : list A :=
  match l with
  | [] => []
  | x :: l' => if take then x :: alternate false l' else alternate true l'
  end.

(** The line [writeAudioLevel] leaves for the chunk of a read. *)
Definition level_line (bytes : list byte) : string :=
  (to_string (calculateAudioLevel (decode_samples bytes)) ++ endl)%string.

(** An installation where the model loads and no recognizer can be
    created. *)
Definition no_recognizer : Vosk unit unit := {|
  vosk_model_new := fun _ => Some tt;
  vosk_recognizer_new := fun _ _ => None;
  vosk_recognizer_accept_waveform := fun r _ => (r, 0);
  vosk_recognizer_partial_result := fun r => (r, ""%string);
  vosk_recognizer_result := fun r => (r, ""%string);
  vosk_recognizer_final_result := fun r => (r, ""%string)
|}.

(** The machine of [session] with system audio chosen and [line] the
    output of the [pactl] pipeline. *)
Definition system_session (line : option string)
  (src : list SourceEvent) : Env := {|
  openable := fun _ => true;
  initial_files := fun _ => None;
  config_line := None;
  model_conf_exists := fun _ => false;
  default_sink_line := line;
  timestamp := "20240101_120000";
  popen := fun _ => Some src;
  stack_buffer := repeat x00 320;
  choice := 2
|}.




(* ================================================================== *)
(** * Part II: properties *)
(* ================================================================== *)

(** ** Rounding to nearest: arithmetic *)

Lemma pow2_pos k : 0 < pow2 k.
Proof. unfold pow2. apply Z.pow_pos_nonneg; lia. Qed.

Lemma pow2_shift k j :
  0 <= j -> pow2 (k + j) * pow2 (- k) = 2 ^ j * (pow2 (- (k + j)) * pow2 k).
Proof.
  intros Hj. unfold pow2.
  destruct (Z.le_gt_cases 0 k) as [Hk | Hk].
  - replace (Z.max 0 (k + j)) with (k + j) by lia.
    replace (Z.max 0 (- k)) with 0 by lia.
    replace (Z.max 0 (- (k + j))) with 0 by lia.
    replace (Z.max 0 k) with k by lia.
    rewrite Z.pow_add_r by lia. rewrite Z.pow_0_r. lia.
  - destruct (Z.le_gt_cases 0 (k + j)) as [Hkj | Hkj].
    + replace (Z.max 0 (k + j)) with (k + j) by lia.
      replace (Z.max 0 (- k)) with (- k) by lia.
      replace (Z.max 0 (- (k + j))) with 0 by lia.
      replace (Z.max 0 k) with 0 by lia.
      rewrite <- Z.pow_add_r by lia. rewrite Z.pow_0_r.
      replace (k + j + - k) with j by lia. lia.
    + replace (Z.max 0 (k + j)) with 0 by lia.
      replace (Z.max 0 (- k)) with (- k) by lia.
      replace (Z.max 0 (- (k + j))) with (- (k + j)) by lia.
      replace (Z.max 0 k) with 0 by lia.
      rewrite Z.pow_0_r. rewrite Z.mul_1_r, Z.mul_1_l.
      rewrite <- Z.pow_add_r by lia. f_equal. lia.
Qed.

(** Cancellation of a positive factor. *)
Lemma mul_le_cancel c a b : 0 < c -> a * c <= b * c -> a <= b.
Proof. intros Hc H. apply Z.mul_le_mono_pos_r in H; assumption. Qed.

Lemma mul_lt_cancel c a b : 0 < c -> a * c < b * c -> a < b.
Proof. intros Hc H. apply Z.mul_lt_mono_pos_r in H; assumption. Qed.

Lemma frac_le_trans (x y z : frac) :
  0 < snd x -> 0 < snd y -> 0 < snd z ->
  frac_le x y -> frac_le y z -> frac_le x z.
Proof.
  destruct x as [a b], y as [c d], z as [e f]; unfold frac_le; simpl.
  intros Hb Hd Hf H1 H2.
  apply (mul_le_cancel d); [assumption|].
  assert (a * d * f <= c * b * f) by (apply Z.mul_le_mono_nonneg_r; lia).
  assert (c * f * b <= e * d * b) by (apply Z.mul_le_mono_nonneg_r; lia).
  lia.
Qed.

Lemma rne_ge n d lo : 0 < d -> lo * d <= n -> lo <= rne n d.
Proof.
  intros Hd H. unfold rne.
  assert (lo <= n / d) by (apply Z.div_le_lower_bound; lia).
  destruct (2 * (n mod d) ?= d); [destruct (Z.even (n / d))| |]; lia.
Qed.

Lemma rne_le n d hi : 0 < d -> n <= hi * d -> rne n d <= hi.
Proof.
  intros Hd H. unfold rne.
  pose proof (Z.div_mod n d ltac:(lia)) as E.
  pose proof (Z.mod_pos_bound n d Hd) as B.
  assert (n / d <= hi) by (apply Z.div_le_upper_bound; lia).
  destruct (Z.eq_dec (n / d) hi) as [Q | Q].
  - assert (n mod d = 0) by nia.
    replace (2 * (n mod d) ?= d) with Lt; [lia|].
    symmetry. apply Z.compare_lt_iff. lia.
  - destruct (2 * (n mod d) ?= d); [destruct (Z.even (n / d))| |]; lia.
Qed.

Lemma rne_mono n1 d1 n2 d2 :
  0 < d1 -> 0 < d2 -> n1 * d2 <= n2 * d1 -> rne n1 d1 <= rne n2 d2.
Proof.
  intros H1 H2 H.
  pose proof (Z.div_mod n1 d1 ltac:(lia)) as E1.
  pose proof (Z.mod_pos_bound n1 d1 H1) as B1.
  pose proof (Z.div_mod n2 d2 ltac:(lia)) as E2.
  pose proof (Z.mod_pos_bound n2 d2 H2) as B2.
  assert (Hq : n1 / d1 <= n2 / d2).
  { apply Z.div_le_lower_bound; [lia|].
    apply (mul_le_cancel d1); [lia|].
    assert (n1 / d1 * d1 <= n1) by lia.
    assert (n1 / d1 * d1 * d2 <= n1 * d2)
      by (apply Z.mul_le_mono_nonneg_r; lia).
    lia. }
  unfold rne.
  set (q1 := n1 / d1) in *. set (q2 := n2 / d2) in *.
  set (r1 := n1 mod d1) in *. set (r2 := n2 mod d2) in *.
  destruct (Z.eq_dec q1 q2) as [Q | Q].
  - assert (Hr : r1 * d2 <= r2 * d1) by nia.
    rewrite <- Q.
    destruct (Z.compare_spec (2 * r1) d1) as [C1 | C1 | C1];
      destruct (Z.compare_spec (2 * r2) d2) as [C2 | C2 | C2];
      try (destruct (Z.even q1)); try lia; exfalso; nia.
  - destruct (2 * r1 ?= d1); destruct (2 * r2 ?= d2);
      try (destruct (Z.even q1)); try (destruct (Z.even q2)); lia.
Qed.

Lemma div_lt_bound n d k : 0 < d -> n / d < k -> n < k * d.
Proof.
  intros Hd H.
  pose proof (Z.div_mod n d ltac:(lia)).
  pose proof (Z.mod_pos_bound n d Hd). nia.
Qed.

Lemma div_ge_bound n d k : 0 < d -> k <= n / d -> k * d <= n.
Proof.
  intros Hd H.
  pose proof (Z.div_mod n d ltac:(lia)).
  pose proof (Z.mod_pos_bound n d Hd). nia.
Qed.

Lemma pow2_log2_balance a b :
  0 < a -> 0 < b ->
  let e0 := Z.log2 a - Z.log2 b - 53 in
  2 ^ (53 + Z.log2 b) * pow2 e0 = 2 ^ Z.log2 a * pow2 (- e0).
Proof.
  intros Ha Hb e0.
  pose proof (Z.log2_nonneg a). pose proof (Z.log2_nonneg b).
  unfold pow2. destruct (Z.le_gt_cases 0 e0).
  - replace (Z.max 0 e0) with e0 by lia.
    replace (Z.max 0 (- e0)) with 0 by lia.
    change (2 ^ 0) with 1. rewrite Z.mul_1_r.
    rewrite <- Z.pow_add_r by lia.
    f_equal. unfold e0. lia.
  - replace (Z.max 0 e0) with 0 by lia.
    replace (Z.max 0 (- e0)) with (- e0) by lia.
    change (2 ^ 0) with 1. rewrite Z.mul_1_r.
    rewrite <- Z.pow_add_r by lia.
    f_equal. unfold e0. lia.
Qed.

Lemma binade_first a b :
  0 < a -> 0 < b ->
  let s := scaled (a, b) (Z.log2 a - Z.log2 b - 53) in
  2 ^ 52 * snd s <= fst s < 2 ^ 54 * snd s.
Proof.
  intros Ha Hb. cbv zeta. unfold scaled; simpl fst; simpl snd.
  pose proof (pow2_log2_balance a b Ha Hb) as E. cbv zeta in E.
  set (e0 := Z.log2 a - Z.log2 b - 53) in *.
  pose proof (Z.log2_spec a Ha) as [La Ua].
  pose proof (Z.log2_spec b Hb) as [Lb Ub].
  pose proof (Z.log2_nonneg a). pose proof (Z.log2_nonneg b).
  pose proof (pow2_pos e0) as P. pose proof (pow2_pos (- e0)) as P'.
  rewrite Z.pow_add_r in E by lia.
  replace (Z.succ (Z.log2 a)) with (Z.log2 a + 1) in Ua by lia.
  replace (Z.succ (Z.log2 b)) with (Z.log2 b + 1) in Ub by lia.
  rewrite Z.pow_add_r in Ua, Ub by lia.
  change (2 ^ 1) with 2 in *.
  set (A := 2 ^ Z.log2 a) in *. set (B := 2 ^ Z.log2 b) in *.
  set (Q := pow2 e0) in *. set (Q' := pow2 (- e0)) in *.
  change (2 ^ 54) with (2 * 2 ^ 53). change (2 ^ 52) with (2 ^ 53 / 2).
  change (2 ^ 53 / 2) with 4503599627370496.
  change (2 ^ 53) with 9007199254740992 in *.
  split.
  - assert (A * Q' <= a * Q') by (apply Z.mul_le_mono_nonneg_r; lia).
    assert (b * Q <= 2 * B * Q) by (apply Z.mul_le_mono_nonneg_r; lia).
    nia.
  - assert (a * Q' < A * 2 * Q') by (apply Z.mul_lt_mono_pos_r; lia).
    assert (B * Q <= b * Q) by (apply Z.mul_le_mono_nonneg_r; lia).
    nia.
Qed.

Lemma binade_cases a b :
  let e0 := Z.log2 a - Z.log2 b - 53 in
  let s := scaled (a, b) e0 in
  (binade (a, b) = e0 /\ fst s / snd s < 2 ^ 53)
  \/ (binade (a, b) = e0 + 1 /\ 2 ^ 53 <= fst s / snd s).
Proof.
  cbv zeta. unfold binade. cbv zeta.
  change (fst (a, b)) with a. change (snd (a, b)) with b.
  destruct (Z.ltb_spec
    (fst (scaled (a, b) (Z.log2 a - Z.log2 b - 53))
     / snd (scaled (a, b) (Z.log2 a - Z.log2 b - 53))) (2 ^ 53));
    [left | right]; split; auto.
Qed.

Lemma binade_spec a b :
  0 < a -> 0 < b ->
  let s := scaled (a, b) (binade (a, b)) in
  2 ^ 52 * snd s <= fst s < 2 ^ 53 * snd s.
Proof.
  intros Ha Hb. cbv zeta.
  pose proof (binade_first a b Ha Hb) as F. cbv zeta in F.
  pose proof (binade_cases a b) as C. cbv zeta in C.
  set (e0 := Z.log2 a - Z.log2 b - 53) in *.
  pose proof (pow2_pos e0) as P. pose proof (pow2_pos (- e0)) as P'.
  assert (D0 : 0 < snd (scaled (a, b) e0)) by (unfold scaled; simpl; nia).
  destruct C as [[-> L] | [-> L]].
  - split; [apply F|]. apply div_lt_bound; assumption.
  - apply div_ge_bound in L; [|assumption].
    pose proof (pow2_shift e0 1 ltac:(lia)) as S.
    pose proof (pow2_pos (e0 + 1)) as P1.
    pose proof (pow2_pos (- (e0 + 1))) as P1'.
    unfold scaled in *; simpl fst in *; simpl snd in *.
    change (2 ^ 1) with 2 in S.
    set (Q := pow2 e0) in *. set (Q' := pow2 (- e0)) in *.
    set (T := pow2 (e0 + 1)) in *. set (T' := pow2 (- (e0 + 1))) in *.
    change (2 ^ 54) with (2 * 2 ^ 53) in F.
    change (2 ^ 52) with 4503599627370496.
    change (2 ^ 53) with 9007199254740992 in *.
    assert (E : a * Q' * T = 2 * (a * T') * Q) by nia.
    split.
    + apply (mul_le_cancel (2 * Q)); [lia|].
      assert (9007199254740992 * (b * Q) * T <= a * Q' * T)
        by (apply Z.mul_le_mono_nonneg_r; lia).
      nia.
    + apply (mul_lt_cancel (2 * Q)); [lia|].
      assert (a * Q' * T < 2 * 9007199254740992 * (b * Q) * T)
        by (apply Z.mul_lt_mono_pos_r; lia).
      nia.
Qed.

Lemma scaled_den_pos a b k : 0 < b -> 0 < snd (scaled (a, b) k).
Proof.
  intros Hb. unfold scaled. cbn [fst snd].
  apply Z.mul_pos_pos; [assumption | apply pow2_pos].
Qed.

Lemma round_pos_mantissa a b :
  0 < a -> 0 < b -> 2 ^ 52 <= fst (round_pos (a, b)) <= 2 ^ 53.
Proof.
  intros Ha Hb. pose proof (binade_spec a b Ha Hb) as B. cbv zeta in B.
  unfold round_pos. cbv zeta. cbn [fst].
  set (s := scaled (a, b) (binade (a, b))) in *.
  assert (0 < snd s) by (apply scaled_den_pos; assumption).
  split.
  - apply rne_ge; lia.
  - apply rne_le; lia.
Qed.

(** The exponent of a rounded quotient stays within 54 of the difference
    of the operands' sizes: quotients of [int32_t], [size_t] and 53-bit
    operands are far from the limits, -1074 and 971, of the format. *)
Lemma binade_bounds a b :
  Z.log2 a - Z.log2 b - 53 <= binade (a, b) <= Z.log2 a - Z.log2 b - 52.
Proof.
  destruct (binade_cases a b) as [[-> _] | [-> _]]; lia.
Qed.

Lemma round_pos_mono a1 b1 a2 b2 :
  0 < a1 -> 0 < b1 -> 0 < a2 -> 0 < b2 -> a1 * b2 <= a2 * b1 ->
  let r1 := round_pos (a1, b1) in
  let r2 := round_pos (a2, b2) in
  num (fst r1) (snd r1) * den (snd r2) <= num (fst r2) (snd r2) * den (snd r1).
Proof.
  intros Ha1 Hb1 Ha2 Hb2 H. cbv zeta.
  pose proof (round_pos_mantissa a1 b1 Ha1 Hb1) as M1.
  pose proof (round_pos_mantissa a2 b2 Ha2 Hb2) as M2.
  pose proof (binade_spec a1 b1 Ha1 Hb1) as B1.
  pose proof (binade_spec a2 b2 Ha2 Hb2) as B2.
  cbv zeta in B1, B2.
  unfold round_pos in *. cbv zeta in *. cbn [fst snd] in *.
  unfold num, den.
  set (e1 := binade (a1, b1)) in *. set (e2 := binade (a2, b2)) in *.
  unfold scaled in *. cbn [fst snd] in *.
  pose proof (pow2_pos e1) as P1. pose proof (pow2_pos (- e1)) as P1'.
  pose proof (pow2_pos e2) as P2. pose proof (pow2_pos (- e2)) as P2'.
  destruct (Z.lt_trichotomy e1 e2) as [L | [E | G]].
  - (* the first in a lower binade *)
    pose proof (pow2_shift e1 (e2 - e1) ltac:(lia)) as S.
    replace (e1 + (e2 - e1)) with e2 in S by lia.
    assert (J : 2 ^ 1 <= 2 ^ (e2 - e1)) by (apply Z.pow_le_mono_r; lia).
    change (2 ^ 1) with 2 in J.
    set (m1 := rne (a1 * pow2 (- e1)) (b1 * pow2 e1)) in *.
    set (m2 := rne (a2 * pow2 (- e2)) (b2 * pow2 e2)) in *.
    set (T := pow2 (- e2) * pow2 e1) in *.
    assert (0 < T) by (unfold T; nia).
    replace (m1 * pow2 e1 * pow2 (- e2)) with (m1 * T) by (unfold T; ring).
    replace (m2 * pow2 e2 * pow2 (- e1)) with (m2 * (pow2 e2 * pow2 (- e1)))
      by ring.
    rewrite S. rewrite Z.mul_assoc.
    apply Z.mul_le_mono_nonneg_r; [lia|].
    change (2 ^ 53) with (2 ^ 52 * 2) in M1. nia.
  - (* the same binade *)
    rewrite <- E in *. clear E.
    assert (rne (a1 * pow2 (- e1)) (b1 * pow2 e1)
            <= rne (a2 * pow2 (- e1)) (b2 * pow2 e1)).
    { apply rne_mono;
        [apply Z.mul_pos_pos; assumption | apply Z.mul_pos_pos; assumption |].
      replace (a1 * pow2 (- e1) * (b2 * pow2 e1))
        with (a1 * b2 * (pow2 (- e1) * pow2 e1)) by ring.
      replace (a2 * pow2 (- e1) * (b1 * pow2 e1))
        with (a2 * b1 * (pow2 (- e1) * pow2 e1)) by ring.
      apply Z.mul_le_mono_nonneg_r; [|assumption].
      apply Z.lt_le_incl, Z.mul_pos_pos; assumption. }
    rewrite <- !Z.mul_assoc. apply Z.mul_le_mono_nonneg_r; [|assumption].
    apply Z.lt_le_incl, Z.mul_pos_pos; assumption.
  - (* impossible: the smaller value in a higher binade *)
    exfalso.
    pose proof (pow2_shift e2 (e1 - e2) ltac:(lia)) as S.
    replace (e2 + (e1 - e2)) with e1 in S by lia.
    assert (J : 2 ^ 1 <= 2 ^ (e1 - e2)) by (apply Z.pow_le_mono_r; lia).
    change (2 ^ 1) with 2 in J.
    destruct B1 as [B1 _]. destruct B2 as [_ B2].
    change (2 ^ 53) with (2 ^ 52 * 2) in B2.
    set (Q1 := pow2 e1) in *. set (Q1' := pow2 (- e1)) in *.
    set (Q2 := pow2 e2) in *. set (Q2' := pow2 (- e2)) in *.
    set (K := 2 ^ (e1 - e2)) in *. set (c := 2 ^ 52) in *.
    assert (0 < c) by (unfold c; lia).
    (* c b1 Q1 <= a1 Q1', times b2 Q2' *)
    assert (S1 : c * (b1 * Q1) * (b2 * Q2') <= a1 * Q1' * (b2 * Q2'))
      by (apply Z.mul_le_mono_nonneg_r; nia).
    assert (S2 : a1 * b2 * (Q1' * Q2') <= a2 * b1 * (Q1' * Q2'))
      by (apply Z.mul_le_mono_nonneg_r; nia).
    assert (S3 : a2 * Q2' * (b1 * Q1') < c * 2 * (b2 * Q2) * (b1 * Q1'))
      by (apply Z.mul_lt_mono_pos_r; nia).
    assert (S4 : c * (b1 * Q1) * (b2 * Q2') = c * K * (b1 * b2 * (Q1' * Q2))).
    { replace (c * (b1 * Q1) * (b2 * Q2')) with (c * b1 * b2 * (Q1 * Q2'))
        by ring.
      rewrite S. ring. }
    assert (0 < b1 * b2 * (Q1' * Q2)) by nia.
    assert (S5 : c * 2 * (b1 * b2 * (Q1' * Q2))
                 <= c * K * (b1 * b2 * (Q1' * Q2)))
      by (apply Z.mul_le_mono_nonneg_r; nia).
    nia.
Qed.

(** ** Rounding, division and conversion are monotone *)

Lemma round_nonneg a b : 0 <= a -> 0 < b -> nonneg (round a b).
Proof.
  intros Ha Hb. unfold round.
  destruct (Z.eqb_spec a 0) as [-> | Na]; [simpl; lia|].
  pose proof (round_pos_mantissa (Z.abs a) b ltac:(lia) Hb) as Hm.
  destruct (round_pos (Z.abs a, b)) as [m e]. cbn [fst] in Hm.
  simpl. rewrite Z.sgn_pos by lia. lia.
Qed.

Lemma round_mono a1 b1 a2 b2 :
  0 <= a1 -> 0 < b1 -> 0 <= a2 -> 0 < b2 -> a1 * b2 <= a2 * b1 ->
  le (round a1 b1) (round a2 b2).
Proof.
  intros Ha1 Hb1 Ha2 Hb2 H.
  pose proof (round_nonneg a2 b2 Ha2 Hb2) as N2.
  unfold round in *.
  destruct (Z.eqb_spec a1 0) as [-> | Na1].
  - destruct (a2 =? 0); [simpl; lia|].
    destruct (round_pos (Z.abs a2, b2)) as [m2 e2].
    unfold nonneg in N2. unfold le, num, den.
    pose proof (pow2_pos e2). pose proof (pow2_pos (- e2)).
    change (pow2 (- 0)) with 1. change (pow2 0) with 1.
    assert (0 <= Z.sgn a2 * m2 * pow2 e2)
      by (apply Z.mul_nonneg_nonneg; lia).
    lia.
  - destruct (Z.eqb_spec a2 0) as [-> | Na2]; [exfalso; nia|].
    pose proof (round_pos_mono (Z.abs a1) b1 (Z.abs a2) b2
                  ltac:(lia) Hb1 ltac:(lia) Hb2) as R.
    rewrite !Z.abs_eq in R by lia. specialize (R H). cbv zeta in R.
    rewrite !Z.abs_eq by lia.
    destruct (round_pos (a1, b1)) as [m1 e1].
    destruct (round_pos (a2, b2)) as [m2 e2].
    cbn [fst snd] in R. simpl.
    rewrite !Z.sgn_pos by lia. rewrite !Z.mul_1_l. exact R.
Qed.

Lemma div_of_Z a b :
  0 <= a < 2 ^ 53 -> 0 < b < 2 ^ 53 -> div (of_Z a) (of_Z b) = round a b.
Proof.
  intros Ha Hb. unfold of_Z.
  destruct (Z.ltb_spec (Z.abs a) (2 ^ 53)); [|lia].
  destruct (Z.ltb_spec (Z.abs b) (2 ^ 53)); [|lia].
  unfold div. destruct (Z.eqb_spec b 0); [lia|].
  unfold num, den. change (pow2 (- 0)) with 1. change (pow2 0) with 1.
  rewrite Z.sgn_pos by lia. f_equal; lia.
Qed.

Lemma div_nonneg x mc ec :
  nonneg x -> 0 < mc -> nonneg (div x (Finite mc ec)).
Proof.
  destruct x as [m e | |]; simpl; try contradiction. intros Hm Hc.
  destruct (Z.eqb_spec mc 0); [lia|].
  pose proof (pow2_pos e). pose proof (pow2_pos (- e)).
  pose proof (pow2_pos ec). pose proof (pow2_pos (- ec)).
  apply round_nonneg; unfold num, den; rewrite ?Z.sgn_pos by lia; nia.
Qed.

Lemma div_mono x y mc ec :
  nonneg x -> nonneg y -> le x y -> 0 < mc ->
  le (div x (Finite mc ec)) (div y (Finite mc ec)).
Proof.
  destruct x as [m1 e1 | |], y as [m2 e2 | |]; simpl; try contradiction.
  intros H1 H2 H Hc.
  destruct (Z.eqb_spec mc 0); [lia|].
  unfold num, den in *.
  pose proof (pow2_pos e1). pose proof (pow2_pos (- e1)).
  pose proof (pow2_pos e2). pose proof (pow2_pos (- e2)).
  pose proof (pow2_pos ec). pose proof (pow2_pos (- ec)).
  rewrite Z.sgn_pos by lia. rewrite !Z.mul_1_l.
  rewrite Z.abs_eq by nia.
  set (K := pow2 (- ec) * (mc * pow2 ec)).
  assert (0 < K) by (unfold K; nia).
  apply round_mono; [nia | nia | nia | nia |].
  replace (m1 * pow2 e1 * pow2 (- ec) * (mc * pow2 ec * pow2 (- e2)))
    with (m1 * pow2 e1 * pow2 (- e2) * K) by (unfold K; ring).
  replace (m2 * pow2 e2 * pow2 (- ec) * (mc * pow2 ec * pow2 (- e1)))
    with (m2 * pow2 e2 * pow2 (- e1) * K) by (unfold K; ring).
  apply Z.mul_le_mono_nonneg_r; lia.
Qed.

Lemma quot_mono x y :
  nonneg x -> nonneg y -> le x y ->
  match x, y with
  | Finite m1 e1, Finite m2 e2 =>
      0 <= Z.quot (num m1 e1) (den e1) <= Z.quot (num m2 e2) (den e2)
  | _, _ => False
  end.
Proof.
  destruct x as [m1 e1 | |], y as [m2 e2 | |]; simpl; try contradiction.
  intros H1 H2 H. unfold num, den in *.
  pose proof (pow2_pos e1). pose proof (pow2_pos (- e1)).
  pose proof (pow2_pos e2). pose proof (pow2_pos (- e2)).
  rewrite !Z.quot_div_nonneg by nia.
  split.
  - apply Z.div_pos; nia.
  - apply Z.div_le_lower_bound; [lia|].
    apply (mul_le_cancel (pow2 (- e1))); [lia|].
    pose proof (Z.mul_div_le (m1 * pow2 e1) (pow2 (- e1)) ltac:(lia)).
    set (q := m1 * pow2 e1 / pow2 (- e1)) in *.
    assert (pow2 (- e1) * q * pow2 (- e2) <= m1 * pow2 e1 * pow2 (- e2))
      by (apply Z.mul_le_mono_nonneg_r; lia).
    lia.
Qed.

(** ** The level as a function of the exact mean *)

Lemma to_int_mono x y :
  nonneg x -> nonneg y -> le x y -> 0 <= to_int y ->
  0 <= to_int x <= to_int y.
Proof.
  intros Hx Hy H Hr. pose proof (quot_mono x y Hx Hy H) as Q.
  destruct x as [m1 e1 | |], y as [m2 e2 | |]; try contradiction.
  unfold to_int in *. cbv zeta in *.
  set (t1 := Z.quot (num m1 e1) (den e1)) in *.
  set (t2 := Z.quot (num m2 e2) (den e2)) in *.
  unfold INT_MIN, INT_MAX in *.
  destruct (Z.leb_spec (- 2 ^ 31) t2); destruct (Z.leb_spec t2 (2 ^ 31 - 1));
    simpl in Hr; try lia.
  destruct (Z.leb_spec (- 2 ^ 31) t1); destruct (Z.leb_spec t1 (2 ^ 31 - 1));
    simpl; lia.
Qed.

Lemma level_of_mean_mono a1 b1 a2 b2 :
  0 <= a1 -> 0 < b1 -> 0 <= a2 -> 0 < b2 -> a1 * b2 <= a2 * b1 ->
  0 <= level_of_mean a2 b2 ->
  0 <= level_of_mean a1 b1 <= level_of_mean a2 b2.
Proof.
  intros Ha1 Hb1 Ha2 Hb2 H Hr. unfold level_of_mean in *.
  unfold lit_3276_7 in *.
  apply to_int_mono; try assumption.
  - apply div_nonneg; [apply round_nonneg; assumption | lia].
  - apply div_nonneg; [apply round_nonneg; assumption | lia].
  - apply div_mono; try (apply round_nonneg; assumption); [|lia].
    apply round_mono; assumption.
Qed.

(** The thresholds of the ten levels: the mean [k * 3276.7] is the
    least one of level [k], and a mean that falls short of
    [(k+1) * 3276.7] by [1/655350] or more is still of level [k]. *)
Lemma level_thresholds :
  forallb (fun k =>
    (level_of_mean (k * 32767) 10 =? k)
    && (level_of_mean ((k + 1) * 32767 * 65535 - 1) 655350 =? k))
    [0; 1; 2; 3; 4; 5; 6; 7; 8; 9] = true.
Proof. vm_compute. reflexivity. Qed.

Lemma level_at_full_scale : level_of_mean 32768 1 = 10.
Proof. vm_compute. reflexivity. Qed.

Lemma level_at_32767 : level_of_mean 32767 1 = 10.
Proof. vm_compute. reflexivity. Qed.

Lemma level_of_mean_range a b :
  0 <= a -> 0 < b -> a <= 32768 * b -> 0 <= level_of_mean a b <= 10.
Proof.
  intros Ha Hb H. rewrite <- level_at_full_scale.
  apply level_of_mean_mono; try lia. rewrite level_at_full_scale. lia.
Qed.

Lemma level_of_mean_exact a b :
  0 <= a -> 0 < b <= 65535 -> a <= 32768 * b ->
  level_of_mean a b = Z.min 10 (a * 10 / (b * 32767)).
Proof.
  intros Ha Hb H.
  pose proof (level_of_mean_range a b Ha ltac:(lia) H) as R.
  set (q := a * 10 / (b * 32767)).
  assert (Hq : q * (b * 32767) <= a * 10 < (q + 1) * (b * 32767)).
  { pose proof (Z.div_mod (a * 10) (b * 32767) ltac:(lia)).
    pose proof (Z.mod_pos_bound (a * 10) (b * 32767) ltac:(lia)).
    fold q in H0. lia. }
  assert (0 <= q) by (apply Z.div_pos; lia).
  assert (q < 11) by (apply Z.div_lt_upper_bound; lia).
  destruct (Z.eq_dec q 10) as [Q | Q].
  - rewrite Q in *. rewrite Z.min_id.
    assert (10 <= level_of_mean a b); [|lia].
    rewrite <- level_at_32767 at 1.
    apply level_of_mean_mono; lia.
  - rewrite Z.min_r by lia.
    pose proof level_thresholds as T. rewrite forallb_forall in T.
    assert (I : In q [0; 1; 2; 3; 4; 5; 6; 7; 8; 9]) by (simpl; lia).
    specialize (T q I). apply andb_prop in T. destruct T as [T1 T2].
    apply Z.eqb_eq in T1, T2.
    assert (q <= level_of_mean a b).
    { rewrite <- T1 at 1. apply level_of_mean_mono; lia. }
    assert (level_of_mean a b <= q); [|lia].
    rewrite <- T2 at 1. apply level_of_mean_mono; first [lia | nia].
Qed.

(** ** The Loudness Estimator *)

Lemma int32_small x : - 2 ^ 31 <= x < 2 ^ 31 -> int32 x = x.
Proof.
  intros H. unfold int32, wrap_signed.
  change (2 ^ (32 - 1)) with (2 ^ 31). rewrite Z.mod_small; lia.
Qed.

Lemma total_abs_bounds samples :
  Forall int16 samples ->
  0 <= total_abs samples <= 32768 * Z.of_nat (List.length samples).
Proof.
  induction 1 as [| s l Hs _ IH]; [simpl; lia|].
  unfold int16 in Hs. cbn [total_abs fold_right List.length].
  fold (total_abs l). lia.
Qed.

Lemma fold_abs_no_wrap samples : forall acc,
  Forall int16 samples ->
  0 <= acc -> acc + 32768 * Z.of_nat (List.length samples) < 2 ^ 31 ->
  fold_left (fun sum s => int32 (sum + Z.abs s)) samples acc
  = acc + total_abs samples.
Proof.
  induction samples as [| s l IH]; intros acc HF H0 H.
  - simpl. lia.
  - inversion HF as [| ? ? Hs HF']; subst. unfold int16 in Hs.
    cbn [fold_left total_abs fold_right List.length] in *.
    fold (total_abs l).
    rewrite int32_small by lia. rewrite IH; [lia | assumption | lia | lia].
Qed.

Lemma sum_abs_exact samples :
  Forall int16 samples -> Z.of_nat (List.length samples) <= 65535 ->
  sum_abs samples = total_abs samples.
Proof.
  intros HF HN. unfold sum_abs.
  rewrite fold_abs_no_wrap; [lia | assumption | lia | lia].
Qed.

Lemma calculateAudioLevel_eq samples :
  Forall int16 samples -> Z.of_nat (List.length samples) <= 65535 ->
  samples <> [] ->
  calculateAudioLevel samples
  = level_of_mean (total_abs samples) (Z.of_nat (List.length samples)).
Proof.
  intros HF HN HE. unfold calculateAudioLevel. cbv zeta.
  assert (0 < Z.of_nat (List.length samples)).
  { destruct samples; [contradiction | simpl; lia]. }
  destruct (Z.eqb_spec (Z.of_nat (List.length samples)) 0); [lia|].
  rewrite sum_abs_exact by assumption.
  pose proof (total_abs_bounds samples HF) as B.
  rewrite div_of_Z by lia.
  fold (level_of_mean (total_abs samples) (Z.of_nat (List.length samples))).
  pose proof (level_of_mean_range (total_abs samples)
                (Z.of_nat (List.length samples))
                ltac:(lia) ltac:(lia) ltac:(lia)).
  destruct (Z.gtb_spec (level_of_mean (total_abs samples)
                          (Z.of_nat (List.length samples))) 10); lia.
Qed.

Lemma total_abs_zero samples :
  Forall (fun s => s = 0) samples -> total_abs samples = 0.
Proof.
  induction 1 as [| s l Hs _ IH]; [reflexivity|].
  cbn [total_abs fold_right]. fold (total_abs l). subst. simpl. lia.
Qed.

Lemma total_abs_loud samples :
  Forall (fun s => 32767 <= Z.abs s) samples ->
  32767 * Z.of_nat (List.length samples) <= total_abs samples.
Proof.
  induction 1 as [| s l Hs _ IH]; [simpl; lia|].
  cbn [total_abs fold_right List.length]. fold (total_abs l). lia.
Qed.

Lemma Forall_zero_int16 samples :
  Forall (fun s => s = 0) samples -> Forall int16 samples.
Proof. apply Forall_impl. intros s ->. unfold int16. lia. Qed.

Lemma calculateAudioLevel_range (samples : list Z) :
  Forall int16 samples -> Z.of_nat (List.length samples) <= 65535 ->
  0 <= calculateAudioLevel samples <= 10.
Proof.
  intros HF HN. pose proof (total_abs_bounds samples HF) as B.
  destruct samples as [| s l]; [vm_compute; split; discriminate|].
  rewrite calculateAudioLevel_eq by (assumption || discriminate).
  apply level_of_mean_range; simpl List.length in *; lia.
Qed.

(** C4 (Loudness Estimator).  For every chunk of signed 16-bit samples
    (a chunk of the program has at most 160 samples; up to 65535 the
    [int32_t] sum cannot overflow) [calculateAudioLevel] returns an
    integer between 0 and 10; it is what the specification describes: 0
    for no sample, otherwise the mean magnitude divided by 32767/10,
    truncated and capped at 10; it is 0 for a chunk of zeros, 10 for a
    chunk of samples of maximal magnitude, and a chunk of larger mean
    magnitude never gets a smaller level. *)
Theorem calculateAudioLevel_contract (samples : list Z) :
  Forall int16 samples ->
  Z.of_nat (List.length samples) <= 65535 ->
  0 <= calculateAudioLevel samples <= 10
  /\ calculateAudioLevel samples = loudness_by_spec samples
  /\ (samples = [] -> calculateAudioLevel samples = 0)
  /\ (Forall (fun s => s = 0) samples -> calculateAudioLevel samples = 0)
  /\ (samples <> [] -> Forall (fun s => 32767 <= Z.abs s) samples ->
      calculateAudioLevel samples = 10)
  /\ (forall louder : list Z,
        Forall int16 louder -> Z.of_nat (List.length louder) <= 65535 ->
        samples <> [] -> louder <> [] ->
        total_abs samples * Z.of_nat (List.length louder)
        <= total_abs louder * Z.of_nat (List.length samples) ->
        calculateAudioLevel samples <= calculateAudioLevel louder).
Proof.
  intros HF HN.
  pose proof (total_abs_bounds samples HF) as B.
  assert (Spec : calculateAudioLevel samples = loudness_by_spec samples).
  { destruct samples as [| s l]; [reflexivity|].
    rewrite calculateAudioLevel_eq by (assumption || discriminate).
    unfold loudness_by_spec. cbv zeta.
    set (N := Z.of_nat (List.length (s :: l))) in *.
    assert (0 < N <= 65535) by (unfold N; simpl List.length in *; lia).
    destruct (Z.eqb_spec N 0); [lia|].
    rewrite Z.quot_div_nonneg by lia.
    apply level_of_mean_exact; lia. }
  pose proof (calculateAudioLevel_range samples HF HN) as Range.
  split; [exact Range|]. split; [exact Spec|].
  split; [intros ->; reflexivity|].
  split.
  - intros HZ. rewrite Spec. unfold loudness_by_spec. cbv zeta.
    rewrite (total_abs_zero samples HZ).
    destruct (Z.eqb_spec (Z.of_nat (List.length samples)) 0); [reflexivity|].
    rewrite Z.mul_0_l. rewrite Z.quot_0_l; [reflexivity | lia].
  - split.
    + intros HE HL. pose proof (total_abs_loud samples HL) as L.
      rewrite calculateAudioLevel_eq by assumption.
      assert (0 < Z.of_nat (List.length samples))
        by (destruct samples; [contradiction | simpl; lia]).
      rewrite calculateAudioLevel_eq in Range by assumption.
      assert (10 <= level_of_mean (total_abs samples)
                      (Z.of_nat (List.length samples))); [|lia].
      rewrite <- level_at_32767 at 1.
      apply level_of_mean_mono; lia.
    + intros louder HF' HN' HE HE' Hmean.
      pose proof (total_abs_bounds louder HF') as B'.
      rewrite !calculateAudioLevel_eq by assumption.
      assert (0 < Z.of_nat (List.length samples))
        by (destruct samples; [contradiction | simpl; lia]).
      assert (0 < Z.of_nat (List.length louder))
        by (destruct louder; [contradiction | simpl; lia]).
      apply level_of_mean_mono; try lia.
      apply level_of_mean_range; lia.
Qed.

(** ** Strings *)

Section Strings.

Local Open Scope string_scope.
Local Open Scope nat_scope.

Lemma append_assoc (a b c : string) : (a ++ b) ++ c = a ++ (b ++ c).
Proof. induction a as [| x a IH]; simpl; [reflexivity | now rewrite IH]. Qed.

Lemma length_append (a b : string) :
  String.length (a ++ b) = String.length a + String.length b.
Proof. induction a as [| x a IH]; simpl; [reflexivity | now rewrite IH]. Qed.

Lemma drop_append (a b : string) (n : nat) :
  drop (String.length a + n) (a ++ b) = drop n b.
Proof. induction a as [| x a IH]; simpl; [reflexivity | exact IH]. Qed.

Lemma drop_length_append (a b : string) : drop (String.length a) (a ++ b) = b.
Proof.
  rewrite <- (Nat.add_0_r (String.length a)). rewrite drop_append.
  reflexivity.
Qed.

Lemma drop_beyond (s : string) (n : nat) :
  String.length s <= n -> drop n s = "".
Proof.
  revert n. induction s as [| x s IH]; intros [| n] H; simpl in *;
    try reflexivity; try lia.
  apply IH. lia.
Qed.

Lemma length_drop (s : string) (n : nat) :
  String.length (drop n s) = String.length s - n.
Proof.
  revert n. induction s as [| x s IH]; intros [| n]; simpl; auto.
Qed.

Lemma substring_drop (s : string) (i n : nat) :
  substring i n s = substring 0 n (drop i s).
Proof.
  revert i. induction s as [| x s IH]; intros [| i]; simpl; auto.
  destruct n; reflexivity.
Qed.

Lemma substring_append (v b : string) :
  substring 0 (String.length v) (v ++ b) = v.
Proof.
  induction v as [| x v IH]; simpl.
  - destruct b; reflexivity.
  - now rewrite IH.
Qed.

Lemma prefix_append (n r : string) : String.prefix n (n ++ r) = true.
Proof.
  induction n as [| x n IH]; simpl; [destruct r; reflexivity|].
  destruct (ascii_dec x x); [exact IH | congruence].
Qed.

(** An occurrence, in the terms of [find_first]. *)
Lemma prefix_occurs (needle s : string) (i : nat) :
  String.prefix needle (drop i s) = true <-> occurs_at needle s i.
Proof.
  unfold occurs_at. rewrite substring_drop. apply prefix_correct.
Qed.

Lemma prefix_empty_false (needle : string) :
  needle <> "" -> String.prefix needle "" = false.
Proof. destruct needle; [congruence | reflexivity]. Qed.

Lemma find_first_bound (needle s : string) (i : nat) :
  needle <> "" -> find_first needle s = Some i -> i < String.length s.
Proof.
  intros Hn. revert i. induction s as [| x s IH]; intros i H.
  - cbn [find_first] in H.
    rewrite prefix_empty_false in H by assumption. discriminate.
  - cbn [find_first] in H. destruct (String.prefix needle (String x s)).
    + injection H as <-. simpl. lia.
    + destruct (find_first needle s) as [j |]; [|discriminate].
      injection H as <-. specialize (IH j eq_refl). simpl. lia.
Qed.


Lemma find_first_complete (needle s : string) (i : nat) :
  String.prefix needle (drop i s) = true ->
  i <= String.length s ->
  (forall j, j < i -> String.prefix needle (drop j s) = false) ->
  find_first needle s = Some i.
Proof.
  revert s. induction i as [| i IH]; intros s P B L.
  - simpl in P. destruct s; cbn [find_first]; rewrite P; reflexivity.
  - destruct s as [| x s]; [simpl in B; lia|].
    cbn [find_first].
    pose proof (L 0 ltac:(lia)) as L0. cbn [drop] in L0. rewrite L0.
    rewrite (IH s); [reflexivity | exact P | simpl in B; lia |].
    intros j Hj. apply (L (S j)). lia.
Qed.


Lemma has_char_append (c : ascii) (a b : string) :
  has_char c (a ++ b) = has_char c a || has_char c b.
Proof.
  induction a as [| x a IH]; simpl; [reflexivity|].
  rewrite IH. now rewrite orb_assoc.
Qed.

Lemma find_first_char (c : ascii) (a b : string) :
  has_char c a = false ->
  find_first (String c "") (a ++ String c b) = Some (String.length a).
Proof.
  induction a as [| x a IH]; intros H.
  - simpl. destruct (ascii_dec c c); [|congruence].
    destruct b; reflexivity.
  - simpl in H. apply orb_false_elim in H. destruct H as [Hx Ha].
    apply Ascii.eqb_neq in Hx.
    change ((String x a ++ String c b)%string)
      with (String x (a ++ String c b)).
    cbn [find_first String.prefix].
    destruct (ascii_dec c x); [congruence|].
    rewrite IH by assumption. reflexivity.
Qed.


(** [find] from a position inside a concatenation. *)
Lemma find_in_suffix (a b needle : string) :
  find (a ++ b) needle (String.length a)
  = option_map (Nat.add (String.length a)) (find_first needle b).
Proof.
  unfold find. rewrite length_append.
  destruct (Nat.leb_spec (String.length a)
              (String.length a + String.length b)); [|lia].
  now rewrite drop_length_append.
Qed.

Lemma find_bound (s needle : string) (pos p : nat) :
  needle <> "" -> find s needle pos = Some p -> pos <= p < String.length s.
Proof.
  intros Hn. unfold find.
  destruct (Nat.leb_spec pos (String.length s)); [|discriminate].
  destruct (find_first needle (drop pos s)) as [i |] eqn:F; [|discriminate].
  simpl. intros [= <-]. apply find_first_bound in F; [|assumption].
  rewrite length_drop in F. lia.
Qed.

End Strings.

(** Append chains, associated to the right. *)
Ltac right_assoc := repeat rewrite append_assoc; cbn [append].

(** ** The Result Extractor *)

Section Extractor.

Local Open Scope string_scope.
Local Open Scope nat_scope.

Lemma find_char_at (a b rest : string) (c : ascii) (p : nat) :
  p = String.length a -> has_char c b = false ->
  find (a ++ b ++ String c rest) (String c "") p
  = Some (p + String.length b).
Proof.
  intros -> H. rewrite find_in_suffix. rewrite find_first_char by assumption.
  reflexivity.
Qed.


(** The key is found where it first occurs. *)
Lemma find_text_key (pre rest : string) :
  (forall j, j < String.length pre ->
     ~ occurs_at text_key (pre ++ text_key ++ rest) j) ->
  find (pre ++ text_key ++ rest) text_key 0 = Some (String.length pre).
Proof.
  intros First. unfold find. cbn [Nat.leb drop].
  rewrite (find_first_complete _ _ (String.length pre)); [reflexivity | | |].
  - rewrite drop_length_append. apply prefix_append.
  - rewrite length_append. lia.
  - intros j Hj. specialize (First j Hj).
    destruct (String.prefix text_key (drop j (pre ++ text_key ++ rest))) eqn:P;
      [|reflexivity].
    apply prefix_occurs in P. contradiction.
Qed.


Lemma substr_in_range (s : string) (pos len : nat) :
  pos <= String.length s -> substr s pos len = Some (substring pos len s).
Proof.
  intros H. unfold substr.
  destruct (Nat.leb_spec pos (String.length s)); [reflexivity | lia].
Qed.

Lemma extract_total (jsonStr : string) :
  exists text, extractTextFromJson jsonStr = Some text.
Proof.
  unfold extractTextFromJson.
  destruct (find jsonStr text_key 0) as [textPos |]; [|eauto].
  destruct (find jsonStr ":" textPos) as [colonPos |]; [|eauto].
  destruct (find jsonStr quote colonPos) as [startQuote |] eqn:F; [|eauto].
  destruct (find jsonStr quote (startQuote + 1)) as [endQuote |]; [|eauto].
  apply find_bound in F; [|discriminate].
  rewrite substr_in_range by lia. eauto.
Qed.

(** The payloads the program is written for: anything, the key, anything
    without a colon, a colon, anything without a quotation mark, and the
    value between two quotation marks. *)
Lemma extract_value (pre mid ws value post : string) :
  let jsonStr :=
    pre ++ text_key ++ mid ++ ":" ++ ws ++ quote ++ value ++ quote ++ post in
  (forall j, j < String.length pre -> ~ occurs_at text_key jsonStr j) ->
  has_char ":" mid = false ->
  has_char dquote ws = false ->
  has_char dquote value = false ->
  extractTextFromJson jsonStr = Some value.
Proof.
  intros jsonStr First Hmid Hws Hvalue. unfold extractTextFromJson.
  unfold jsonStr in First |- * at 1. rewrite (find_text_key _ _ First).
  fold jsonStr.
  set (colonPos := String.length pre + String.length (text_key ++ mid)).
  assert (E1 : jsonStr
               = pre ++ (text_key ++ mid)
                 ++ String ":" (ws ++ quote ++ value ++ quote ++ post))
    by (unfold jsonStr; right_assoc; reflexivity).
  assert (F1 : find jsonStr ":" (String.length pre) = Some colonPos).
  { rewrite E1. apply find_char_at; [reflexivity|].
    rewrite has_char_append, Hmid. reflexivity. }
  rewrite F1.
  set (startQuote := colonPos + String.length (String ":" ws)).
  assert (E2 : jsonStr
               = (pre ++ text_key ++ mid) ++ String ":" ws
                 ++ String dquote (value ++ quote ++ post))
    by (unfold jsonStr, quote; right_assoc; reflexivity).
  assert (F2 : find jsonStr quote colonPos = Some startQuote).
  { rewrite E2. apply find_char_at.
    - unfold colonPos. now rewrite !length_append.
    - cbn [has_char]. rewrite Hws. reflexivity. }
  rewrite F2.
  set (endQuote := startQuote + 1 + String.length value).
  assert (E3 : jsonStr
               = (pre ++ text_key ++ mid ++ ":" ++ ws ++ quote) ++ value
                 ++ String dquote post)
    by (unfold jsonStr, quote; right_assoc; reflexivity).
  assert (L3 : String.length (pre ++ text_key ++ mid ++ ":" ++ ws ++ quote)
               = startQuote + 1).
  { unfold startQuote, colonPos. rewrite !length_append. simpl. lia. }
  assert (F3 : find jsonStr quote (startQuote + 1) = Some endQuote).
  { rewrite E3. apply find_char_at; [now rewrite L3 | assumption]. }
  rewrite F3.
  rewrite substr_in_range.
  - f_equal. replace (endQuote - startQuote - 1) with (String.length value)
      by (unfold endQuote; lia).
    rewrite substring_drop. rewrite E3, <- L3, drop_length_append.
    apply substring_append.
  - rewrite E3, length_append, L3. lia.
Qed.





Lemma find_first_char_split (c : ascii) (s : string) (i : nat) :
  find_first (String c "") s = Some i ->
  exists a b, s = a ++ String c b
              /\ String.length a = i /\ has_char c a = false.
Proof.
  revert i. induction s as [| x s IH]; intros i H.
  - cbn in H. discriminate.
  - cbn [find_first String.prefix] in H.
    destruct (ascii_dec c x) as [-> | N].
    + assert (P : String.prefix "" s = true) by (destruct s; reflexivity).
      rewrite P in H. injection H as <-.
      exists "", s. repeat split.
    + destruct (find_first (String c "") s) as [j |] eqn:F; [|discriminate].
      cbn in H. injection H as <-.
      destruct (IH j eq_refl) as (a & b & -> & L & Hc).
      exists (String x a), b. repeat split.
      * cbn. now rewrite L.
      * cbn. rewrite Hc. apply Ascii.eqb_neq in N.
        rewrite Ascii.eqb_sym in N. now rewrite N.
Qed.

Lemma take_drop (s : string) (n : nat) : substring 0 n s ++ drop n s = s.
Proof.
  revert n. induction s as [| x s IH]; intros [| n]; try reflexivity.
  cbn [substring drop append]. now rewrite IH.
Qed.







End Extractor.




(** ** Bytes, little-endian integers and samples *)

Lemma byte_val_range (b : byte) : 0 <= byte_val b < 256.
Proof.
  unfold byte_val. pose proof (Byte.to_N_bounded b). lia.
Qed.

Lemma byte_val_of_Z (z : Z) : byte_val (byte_of_Z z) = z mod 256.
Proof.
  unfold byte_val, byte_of_Z.
  pose proof (Z.mod_pos_bound z 256 ltac:(lia)) as B.
  destruct (Byte.of_N (Z.to_N (z mod 256))) as [b |] eqn:E.
  - apply Byte.to_of_N in E. rewrite E. lia.
  - apply Byte.of_N_None_iff in E. lia.
Qed.

Lemma byte_of_Z_val (b : byte) : byte_of_Z (byte_val b) = b.
Proof.
  unfold byte_of_Z. pose proof (byte_val_range b) as B.
  rewrite Z.mod_small by assumption. unfold byte_val.
  rewrite N2Z.id. now rewrite Byte.of_to_N.
Qed.

Lemma length_le_bytes (n : nat) (x : Z) : List.length (le_bytes n x) = n.
Proof.
  revert x. induction n; intros x; simpl; [reflexivity | now rewrite IHn].
Qed.

Lemma le_value_le_bytes (n : nat) (x : Z) :
  le_value (le_bytes n x) = x mod 256 ^ Z.of_nat n.
Proof.
  revert x. induction n as [| n IH]; intros x.
  - simpl. now rewrite Z.mod_1_r.
  - cbn [le_bytes le_value]. rewrite IH, byte_val_of_Z.
    rewrite Nat2Z.inj_succ, Z.pow_succ_r by lia.
    rewrite Z.rem_mul_r by (try apply Z.pow_nonzero; lia). reflexivity.
Qed.

Lemma wrap_signed_16 (s : Z) : int16 s -> wrap_signed 16 (uint16 s) = s.
Proof.
  unfold int16, wrap_signed, uint16, wrap_unsigned. intros H.
  change (2 ^ (16 - 1)) with 32768. change (2 ^ 16) with 65536.
  destruct (Z.lt_ge_cases s 0).
  - replace (s mod 65536) with (s + 65536).
    + replace (s + 65536 + 32768) with (s + 32768 + 1 * 65536) by lia.
      rewrite Z.mod_add by lia. rewrite Z.mod_small; lia.
    + symmetry. replace s with (s + 65536 + (- 1) * 65536) at 1 by lia.
      rewrite Z.mod_add by lia. apply Z.mod_small. lia.
  - rewrite (Z.mod_small s) by lia. rewrite Z.mod_small; lia.
Qed.

Lemma int16_of_sample_bytes (s : Z) (rest : list byte) :
  int16 s ->
  decode_samples (sample_bytes s ++ rest) = s :: decode_samples rest.
Proof.
  intros H. unfold sample_bytes. cbn [le_bytes app decode_samples].
  f_equal. unfold int16_of_bytes.
  change [byte_of_Z (uint16 s); byte_of_Z (uint16 s / 256)]
    with (le_bytes 2 (uint16 s)).
  rewrite le_value_le_bytes. change (256 ^ Z.of_nat 2) with 65536.
  unfold uint16, wrap_unsigned. change (2 ^ 16) with 65536.
  rewrite Z.mod_mod by lia. apply (wrap_signed_16 s H).
Qed.

Lemma int16_of_bytes_range (lo hi : byte) : int16 (int16_of_bytes lo hi).
Proof.
  unfold int16, int16_of_bytes, wrap_signed.
  change (2 ^ (16 - 1)) with 32768. change (2 ^ 16) with 65536.
  pose proof (Z.mod_pos_bound (le_value [lo; hi] + 32768) 65536 ltac:(lia)).
  lia.
Qed.

Lemma decode_data_bytes (samples : list Z) :
  Forall int16 samples -> decode_samples (data_bytes samples) = samples.
Proof.
  induction 1 as [| s l Hs _ IH]; [reflexivity|].
  unfold data_bytes in *. cbn [flat_map].
  rewrite int16_of_sample_bytes by assumption. now rewrite IH.
Qed.

Lemma length_data_bytes (samples : list Z) :
  List.length (data_bytes samples) = (2 * List.length samples)%nat.
Proof.
  induction samples as [| s l IH]; [reflexivity|].
  unfold data_bytes in *. cbn [flat_map]. rewrite length_app, IH.
  unfold sample_bytes. rewrite length_le_bytes. simpl. lia.
Qed.

Lemma length_header_bytes (h : WAVHeader) :
  (String.length (chunkID h) = 4)%nat -> (String.length (format h) = 4)%nat ->
  (String.length (subchunk1ID h) = 4)%nat ->
  (String.length (subchunk2ID h) = 4)%nat ->
  List.length (header_bytes h) = 44%nat.
Proof.
  intros H1 H2 H3 H4. unfold header_bytes, chars.
  rewrite !length_app, !length_map, !length_le_bytes.
  assert (L : forall s, List.length (list_ascii_of_string s) = String.length s).
  { induction s; simpl; congruence. }
  rewrite !L, H1, H2, H3, H4. reflexivity.
Qed.

Lemma field_app (h rest : list byte) (offset width : nat) :
  (offset + width <= List.length h)%nat ->
  field (h ++ rest) offset width = field h offset width.
Proof.
  intros H. unfold field. f_equal.
  rewrite skipn_app. rewrite firstn_app.
  replace (width - List.length (skipn offset h))%nat with 0%nat
    by (rewrite length_skipn; lia).
  rewrite firstn_O, app_nil_r. reflexivity.
Qed.

(** ** The WAV Encoder *)

(** The header as the list of its 44 bytes. *)
Lemma header_bytes_explicit (h : WAVHeader) (a b c d : string) :
  chunkID h = a -> format h = b -> subchunk1ID h = c -> subchunk2ID h = d ->
  header_bytes h
  = chars a ++ le_bytes 4 (chunkSize h) ++ chars b ++ chars c
    ++ le_bytes 4 (subchunk1Size h) ++ le_bytes 2 (audioFormat h)
    ++ le_bytes 2 (numChannels h) ++ le_bytes 4 (sampleRate h)
    ++ le_bytes 4 (byteRate h) ++ le_bytes 2 (blockAlign h)
    ++ le_bytes 2 (bitsPerSample h) ++ chars d ++ le_bytes 4 (subchunk2Size h).
Proof. intros <- <- <- <-. reflexivity. Qed.

Lemma field_4 (b0 b1 b2 b3 : byte) (x : Z) :
  [b0; b1; b2; b3] = le_bytes 4 x -> 0 <= x < 2 ^ 32 ->
  le_value [b0; b1; b2; b3] = x.
Proof.
  intros -> H. rewrite le_value_le_bytes.
  change (256 ^ Z.of_nat 4) with (2 ^ 32). apply Z.mod_small. assumption.
Qed.

Lemma field_2 (b0 b1 : byte) (x : Z) :
  [b0; b1] = le_bytes 2 x -> 0 <= x < 2 ^ 16 ->
  le_value [b0; b1] = x.
Proof.
  intros -> H. rewrite le_value_le_bytes.
  change (256 ^ Z.of_nat 2) with (2 ^ 16). apply Z.mod_small. assumption.
Qed.

Lemma wav_header_sizes (N : Z) :
  0 <= N <= 2147483629 ->
  subchunk2Size (wav_header N) = 2 * N
  /\ chunkSize (wav_header N) = 36 + 2 * N.
Proof.
  intros H. unfold wav_header. cbn [subchunk2Size chunkSize].
  unfold uint32, size_t, wrap_unsigned.
  rewrite (Z.mod_small (N * 2) (2 ^ 64)) by lia.
  rewrite (Z.mod_small (N * 2) (2 ^ 32)) by lia.
  rewrite Z.mod_small by lia. lia.
Qed.

Lemma wav_file_split (samples : list Z) :
  Z.of_nat (List.length samples) <= 2147483629 ->
  wav_file samples
  = header_bytes (wav_header (Z.of_nat (List.length samples)))
    ++ data_bytes samples.
Proof.
  intros H. unfold wav_file. cbv zeta. f_equal.
  destruct (wav_header_sizes (Z.of_nat (List.length samples)) ltac:(lia))
    as [S2 _].
  rewrite S2. apply firstn_all2. rewrite length_data_bytes. lia.
Qed.

Ltac header_field S1 S2 :=
  rewrite field_app by (rewrite length_header_bytes; [lia | reflexivity ..]);
  unfold field, header_bytes; rewrite S1, S2;
  cbn [wav_header chunkID format subchunk1ID subchunk1Size
       audioFormat numChannels sampleRate byteRate blockAlign bitsPerSample
       subchunk2ID chars list_ascii_of_string map app skipn
       firstn le_bytes];
  first [ apply field_4; [reflexivity | lia]
        | apply field_2; [reflexivity | lia] ].

Lemma skipn_firstn_header (h rest : list byte) (offset width : nat) :
  (offset + width <= List.length h)%nat ->
  firstn width (skipn offset (h ++ rest)) = firstn width (skipn offset h).
Proof.
  intros H. rewrite skipn_app, firstn_app.
  replace (width - List.length (skipn offset h))%nat with 0%nat
    by (rewrite length_skipn; lia).
  now rewrite firstn_O, app_nil_r.
Qed.

(** C7 (WAV Encoder), for buffers whose sizes fit the 32-bit fields of
    the header ([36 + 2 * N < 2^32]).  The file starts with a 44-byte
    header: "RIFF", the chunk size [36 + 2 * N], "WAVE", "fmt ", the
    sub-chunk size 16, format 1 (PCM), 1 channel, sample rate 16000, byte
    rate 32000, block align 2, 16 bits per sample, "data" and the data
    size [2 * N]; the [2 * N] bytes after it are the samples in
    little-endian order, and decoding them gives back the buffer. *)
Theorem wav_file_contract (samples : list Z) :
  Forall int16 samples ->
  Z.of_nat (List.length samples) <= 2147483629 ->
  let N := Z.of_nat (List.length samples) in
  let file := wav_file samples in
  firstn 44 file = header_bytes (wav_header N)
  /\ List.length (header_bytes (wav_header N)) = 44%nat
  /\ firstn 4 file = chars "RIFF"
  /\ field file 4 4 = 36 + 2 * N
  /\ firstn 4 (skipn 8 file) = chars "WAVE"
  /\ firstn 4 (skipn 12 file) = chars "fmt "
  /\ field file 16 4 = 16
  /\ field file 20 2 = 1
  /\ field file 22 2 = 1
  /\ field file 24 4 = 16000
  /\ field file 28 4 = 32000
  /\ field file 32 2 = 2
  /\ field file 34 2 = 16
  /\ firstn 4 (skipn 36 file) = chars "data"
  /\ field file 40 4 = 2 * N
  /\ skipn 44 file = data_bytes samples
  /\ Z.of_nat (List.length (skipn 44 file)) = 2 * N
  /\ decode_samples (skipn 44 file) = samples.
Proof.
  intros HF HN N file.
  assert (HL : List.length (header_bytes (wav_header N)) = 44%nat)
    by (apply length_header_bytes; reflexivity).
  assert (Hfile : file = header_bytes (wav_header N) ++ data_bytes samples)
    by (apply wav_file_split; assumption).
  destruct (wav_header_sizes N ltac:(lia)) as [S2 S1].
  assert (Hdata : skipn 44 file = data_bytes samples).
  { rewrite Hfile. rewrite skipn_app, HL. rewrite skipn_all2 by lia.
    reflexivity. }
  assert (Tag : forall offset,
             (offset + 4 <= 44)%nat ->
             firstn 4 (skipn offset file)
             = firstn 4 (skipn offset (header_bytes (wav_header N)))).
  { intros offset Ho. rewrite Hfile. apply skipn_firstn_header. lia. }
  rewrite Hfile.
  split. { rewrite firstn_app, HL. rewrite Nat.sub_diag, firstn_O, app_nil_r.
           apply firstn_all2. lia. }
  split; [exact HL|].
  split. { rewrite <- Hfile. apply (Tag 0%nat). lia. }
  split. { header_field S1 S2. }
  split. { rewrite <- Hfile. rewrite Tag by lia. reflexivity. }
  split. { rewrite <- Hfile. rewrite Tag by lia. reflexivity. }
  split. { header_field S1 S2. }
  split. { header_field S1 S2. }
  split. { header_field S1 S2. }
  split. { header_field S1 S2. }
  split. { header_field S1 S2. }
  split. { header_field S1 S2. }
  split. { header_field S1 S2. }
  split. { rewrite <- Hfile. rewrite Tag by lia. reflexivity. }
  split. { header_field S1 S2. }
  rewrite <- Hfile. rewrite Hdata.
  split; [reflexivity|].
  split; [rewrite length_data_bytes; lia|].
  apply decode_data_bytes. assumption.
Qed.

(** ** The State Publisher *)

Section Publisher.

Context {M R : Type}.
Variable env : Env.

Local Abbreviation Process := (@Process M R).

Lemma file_after_app (t t' : list Event) (before : option string)
  (filename : string) :
  file_after (t ++ t') before filename
  = file_after t' (file_after t before filename) filename.
Proof.
  revert before. induction t as [| e t IH]; intros before; [reflexivity|].
  destruct e; simpl; apply IH.
Qed.

Lemma file_content_emit_write (p : Process) (filename content : string) :
  file_content env (emit (FileWrite filename content) p) filename
  = Some content.
Proof.
  unfold file_content, emit. cbn [trace]. rewrite file_after_app.
  cbn [file_after]. now rewrite String.eqb_refl.
Qed.

Lemma writeToFile_recorder (filename content : string) (p : Process) :
  recorder (writeToFile env filename content p) = recorder p.
Proof. unfold writeToFile. destruct (openable env filename); reflexivity. Qed.

Lemma writeToFile_content (filename content : string) (p : Process) :
  openable env filename = true ->
  file_content env (writeToFile env filename content p) filename
  = Some (content ++ endl)%string.
Proof.
  intros H. unfold writeToFile. rewrite H. apply file_content_emit_write.
Qed.

Lemma empty_iff (s : string) : empty s = true <-> s = ""%string.
Proof. destruct s; simpl; split; congruence. Qed.

Lemma writeRecognizedText_recorder (text : string) (p : Process) :
  text <> ""%string ->
  recorder (writeRecognizedText env text p)
  = set_accumulatedText
      (if empty (accumulatedText (recorder p)) then text
       else accumulatedText (recorder p) ++ " " ++ text)%string
      (recorder p).
Proof.
  intros H. unfold writeRecognizedText.
  destruct (empty text) eqn:E; [apply empty_iff in E; contradiction|].
  rewrite writeToFile_recorder.
  destruct p as [[run data m r acc] t i1 i2]. cbn.
  destruct acc as [| a acc]; cbn; [reflexivity|].
  now rewrite append_assoc.
Qed.

Lemma writeRecognizedText_file (text : string) (p : Process) :
  text <> ""%string -> openable env OUTPUT_TEXT_FILE = true ->
  file_content env (writeRecognizedText env text p) OUTPUT_TEXT_FILE
  = Some (accumulatedText (recorder (writeRecognizedText env text p))
          ++ endl)%string.
Proof.
  intros Ht Hopen. rewrite (writeRecognizedText_recorder text p Ht).
  unfold writeRecognizedText.
  destruct (empty text) eqn:E; [apply empty_iff in E; contradiction|].
  rewrite writeToFile_content by assumption. f_equal. f_equal.
  destruct p as [[run data m r acc] t i1 i2]. cbn.
  destruct acc as [| a acc]; cbn; [reflexivity|].
  now rewrite append_assoc.
Qed.

(** C6 (publish-final-text).  [writeRecognizedText] with the empty
    string changes nothing.  With a non-empty text it appends the text to
    the transcript, after a single space when the transcript was not
    empty, and, when the text file can be opened, leaves in it the whole
    new transcript as one line; the capture state is untouched.  From an
    empty transcript, publishing "hello" and then "world" leaves the
    transcript [hello world] in memory and in the file. *)
Theorem writeRecognizedText_contract (p : Process) :
  writeRecognizedText env "" p = p
  /\ (forall text, text <> ""%string ->
        let p' := writeRecognizedText env text p in
        accumulatedText (recorder p')
        = (if empty (accumulatedText (recorder p)) then text
           else accumulatedText (recorder p) ++ " " ++ text)%string
        /\ (openable env OUTPUT_TEXT_FILE = true ->
            file_content env p' OUTPUT_TEXT_FILE
            = Some (accumulatedText (recorder p') ++ endl)%string)
        /\ running (recorder p') = running (recorder p)
        /\ audioData (recorder p') = audioData (recorder p))
  /\ (accumulatedText (recorder p) = ""%string ->
      openable env OUTPUT_TEXT_FILE = true ->
      let p' := writeRecognizedText env "world"
                  (writeRecognizedText env "hello" p) in
      accumulatedText (recorder p') = "hello world"%string
      /\ file_content env p' OUTPUT_TEXT_FILE
         = Some ("hello world" ++ endl)%string).
Proof.
  split; [reflexivity|]. split.
  - intros text Ht p'. unfold p'.
    split; [|split; [|split]].
    + now rewrite (writeRecognizedText_recorder text p Ht).
    + intros Hopen. now apply writeRecognizedText_file.
    + now rewrite (writeRecognizedText_recorder text p Ht).
    + now rewrite (writeRecognizedText_recorder text p Ht).
  - intros Hacc Hopen p'. unfold p'.
    assert (H1 : accumulatedText
                   (recorder (writeRecognizedText env "world"
                                (writeRecognizedText env "hello" p)))
                 = "hello world"%string).
    { rewrite !writeRecognizedText_recorder by discriminate.
      cbn. rewrite Hacc. reflexivity. }
    split; [exact H1|].
    rewrite writeRecognizedText_file by (discriminate || assumption).
    now rewrite H1.
Qed.

End Publisher.

Lemma writeRecognizedText_contract_witness :
  accumulatedText
    (recorder (writeRecognizedText (session []) "world"
                 (writeRecognizedText (session []) "hello" fresh_process)))
  = "hello world"%string
  /\ file_content (session [])
       (writeRecognizedText (session []) "world"
          (writeRecognizedText (session []) "hello" fresh_process))
       OUTPUT_TEXT_FILE
     = Some ("hello world" ++ endl)%string.
Proof.
  destruct (writeRecognizedText_contract (session []) fresh_process)
    as (_ & _ & Twice).
  apply Twice; reflexivity.
Defined.

(** ** What an iteration takes from a read *)

Lemma sample_at_cons2 (lo hi : byte) (rest : list byte) (i : nat) :
  sample_at (lo :: hi :: rest) (S i) = sample_at rest i.
Proof.
  unfold sample_at.
  replace (2 * S i)%nat with (S (S (2 * i))) by lia.
  replace (S (S (2 * i)) + 1)%nat with (S (S (2 * i + 1))) by lia.
  reflexivity.
Qed.

Lemma decode_samples_view : forall (n : nat) (bytes : list byte),
  (List.length bytes <= n)%nat ->
  decode_samples bytes
  = map (sample_at bytes) (seq 0 (List.length bytes / 2)).
Proof.
  induction n as [| n IH]; intros bytes H.
  - destruct bytes; [reflexivity | simpl in H; lia].
  - destruct bytes as [| lo [| hi rest]]; [reflexivity | reflexivity |].
    cbn [decode_samples List.length].
    replace (S (S (List.length rest)) / 2)%nat
      with (S (List.length rest / 2)).
    + cbn [seq map]. f_equal. rewrite <- seq_shift, map_map.
      rewrite (IH rest) by (simpl in H; lia).
      apply map_ext. intros i. symmetry. apply sample_at_cons2.
    + change (S (S (List.length rest))) with (1 * 2 + List.length rest)%nat.
      rewrite Nat.div_add_l by lia. reflexivity.
Qed.

Lemma sample_at_app (bytes tail : list byte) (i : nat) :
  (2 * i + 1 < List.length bytes)%nat ->
  sample_at (bytes ++ tail) i = sample_at bytes i.
Proof.
  intros H. unfold sample_at. rewrite !app_nth1 by lia. reflexivity.
Qed.

Lemma samples_view_fread (buffer bytes : list byte) :
  samples_view (fread_into buffer bytes) (List.length bytes / 2)
  = decode_samples bytes.
Proof.
  rewrite (decode_samples_view (List.length bytes) bytes (le_n _)).
  unfold samples_view, fread_into. apply map_ext_in.
  intros i Hi. apply in_seq in Hi. apply sample_at_app.
  pose proof (Nat.div_mod_eq (List.length bytes) 2).
  pose proof (Nat.mod_upper_bound (List.length bytes) 2 ltac:(lia)). lia.
Qed.

(** The number of bytes an iteration keeps, and of samples it stores. *)
Lemma kept_bytes (n : nat) :
  let bytesRead := Z.of_nat n in
  let kept := if negb (bytesRead mod 2 =? 0) then bytesRead - 1
              else bytesRead in
  kept = 2 * Z.of_nat (n / 2) /\ Z.to_nat (kept / 2) = (n / 2)%nat.
Proof.
  cbv zeta.
  pose proof (Nat.div_mod_eq n 2) as E.
  pose proof (Nat.mod_upper_bound n 2 ltac:(lia)) as B.
  assert (Hm : Z.of_nat n mod 2 = Z.of_nat (n mod 2)).
  { rewrite Nat2Z.inj_mod. reflexivity. }
  assert (K : (if negb (Z.of_nat n mod 2 =? 0) then Z.of_nat n - 1
               else Z.of_nat n) = 2 * Z.of_nat (n / 2)).
  { destruct (Z.eqb_spec (Z.of_nat n mod 2) 0); cbn [negb]; lia. }
  rewrite K. split; [reflexivity|].
  rewrite Z.mul_comm, Z.div_mul by lia. apply Nat2Z.id.
Qed.

Lemma length_decode_samples : forall (n : nat) (bytes : list byte),
  (List.length bytes <= n)%nat ->
  List.length (decode_samples bytes) = (List.length bytes / 2)%nat.
Proof.
  intros n bytes H. rewrite (decode_samples_view n bytes H).
  now rewrite length_map, length_seq.
Qed.

Lemma firstn_fread (buffer bytes : list byte) (k : nat) :
  (k <= List.length bytes)%nat ->
  firstn k (fread_into buffer bytes) = firstn k bytes.
Proof.
  intros H. unfold fread_into. rewrite firstn_app.
  replace (k - List.length bytes)%nat with 0%nat by lia.
  now rewrite firstn_O, app_nil_r.
Qed.

Lemma decode_samples_dangling : forall (n : nat) (bytes : list byte) (b : byte),
  (List.length bytes <= n)%nat ->
  Nat.even (List.length bytes) = true ->
  decode_samples (bytes ++ [b]) = decode_samples bytes.
Proof.
  induction n as [| n IH]; intros bytes b H E.
  - destruct bytes; [reflexivity | simpl in H; lia].
  - destruct bytes as [| lo [| hi rest]]; [reflexivity | discriminate |].
    cbn [app decode_samples]. f_equal. apply IH.
    + simpl in H. lia.
    + exact E.
Qed.

Lemma Forall_int16_decode : forall (n : nat) (bytes : list byte),
  (List.length bytes <= n)%nat -> Forall int16 (decode_samples bytes).
Proof.
  induction n as [| n IH]; intros bytes H.
  - destruct bytes; [constructor | simpl in H; lia].
  - destruct bytes as [| lo [| hi rest]]; try constructor.
    + apply int16_of_bytes_range.
    + apply IH. simpl in H. lia.
Qed.

Section Loop.

Context {M R : Type} `{V : Vosk M R}.
Variable env : Env.

Local Abbreviation Process := (@Process M R).

(** ** Frames of the publisher *)

Lemma same_session_refl (p : Process) : same_session p p.
Proof. repeat split. Qed.

Lemma same_session_trans (p q r : Process) :
  same_session p q -> same_session q r -> same_session p r.
Proof.
  unfold same_session. intros (A1 & A2 & A3 & A4) (B1 & B2 & B3 & B4).
  repeat split; congruence.
Qed.

Lemma writeToFile_same (filename content : string) (p : Process) :
  same_session p (writeToFile env filename content p).
Proof.
  unfold writeToFile. destruct (openable env filename); repeat split.
Qed.

Lemma writeToFile_trace (filename content : string) (p : Process) :
  trace (writeToFile env filename content p)
  = trace p ++ (if openable env filename
                then [FileWrite filename (content ++ endl)] else []).
Proof.
  unfold writeToFile. destruct (openable env filename); cbn;
    [reflexivity | now rewrite app_nil_r].
Qed.

Lemma levels_ok_emit (e : Event) (p : Process) :
  levels_ok p -> level_event_ok e -> levels_ok (emit e p).
Proof.
  unfold levels_ok, emit. cbn [trace]. intros H He.
  apply Forall_app. split; [assumption | repeat constructor; assumption].
Qed.

Lemma writeToFile_levels (filename content : string) (p : Process) :
  levels_ok p ->
  (filename = AUDIO_LEVEL_FILE ->
   exists level, 0 <= level <= 10 /\ content = to_string level) ->
  levels_ok (writeToFile env filename content p).
Proof.
  intros H Hc. unfold writeToFile.
  destruct (openable env filename); [|assumption].
  apply levels_ok_emit; [assumption|].
  cbn. intros E. destruct (Hc E) as (level & Hl & ->). eauto.
Qed.

Lemma text_file_is_not_level_file : OUTPUT_TEXT_FILE <> AUDIO_LEVEL_FILE.
Proof. discriminate. Qed.

Lemma writeText_levels (content : string) (p : Process) :
  levels_ok p -> levels_ok (writeToFile env OUTPUT_TEXT_FILE content p).
Proof.
  intros H. apply writeToFile_levels; [assumption|].
  intros E. now apply text_file_is_not_level_file in E.
Qed.

Lemma writeAudioLevel_levels (level : Z) (p : Process) :
  0 <= level <= 10 -> levels_ok p -> levels_ok (writeAudioLevel env level p).
Proof.
  intros Hl H. apply writeToFile_levels; [assumption|]. eauto.
Qed.

Lemma levels_ok_update (f : AudioRecorder -> AudioRecorder) (p : Process) :
  levels_ok p -> levels_ok (update f p).
Proof. exact (fun H => H). Qed.

Lemma writePartialText_same (text : string) (p : Process) :
  same_session p (writePartialText env text p).
Proof.
  unfold writePartialText. destruct (empty text);
    [apply same_session_refl | apply writeToFile_same].
Qed.

Lemma writePartialText_levels (text : string) (p : Process) :
  levels_ok p -> levels_ok (writePartialText env text p).
Proof.
  intros H. unfold writePartialText. destruct (empty text);
    [assumption | now apply writeText_levels].
Qed.

Lemma writeRecognizedText_same (text : string) (p : Process) :
  same_session p (writeRecognizedText env text p).
Proof.
  unfold writeRecognizedText. destruct (empty text);
    [apply same_session_refl|].
  eapply same_session_trans; [|apply writeToFile_same].
  destruct (negb (empty (accumulatedText (recorder p)))); repeat split.
Qed.

Lemma writeRecognizedText_levels (text : string) (p : Process) :
  levels_ok p -> levels_ok (writeRecognizedText env text p).
Proof.
  intros H. unfold writeRecognizedText. destruct (empty text); [assumption|].
  apply writeText_levels.
  destruct (negb (empty (accumulatedText (recorder p)))); exact H.
Qed.

(** Publishing an empty text does nothing, so the guards at the call
    sites change nothing. *)
Lemma guarded_partial (text : string) (p : Process) :
  (if negb (empty text) then writePartialText env text p else p)
  = writePartialText env text p.
Proof. unfold writePartialText. destruct (empty text); reflexivity. Qed.

Lemma guarded_final (text : string) (p : Process) :
  (if negb (empty text) then writeRecognizedText env text p else p)
  = writeRecognizedText env text p.
Proof. unfold writeRecognizedText. destruct (empty text); reflexivity. Qed.

Lemma extract_text_of (jsonStr : string) :
  extractTextFromJson jsonStr = Some (text_of jsonStr).
Proof.
  unfold text_of. destruct (extract_total jsonStr) as [t ->]. reflexivity.
Qed.

(** ** The recognition step *)

Lemma recognize_unfold (data : list byte) (p : Process) (r : R) :
  rec (recorder p) = Some r ->
  let '(r1, partialResult) := vosk_recognizer_partial_result r in
  let '(r2, accepted) := vosk_recognizer_accept_waveform r1 data in
  let '(r3, result) := vosk_recognizer_result r2 in
  let p1 := writePartialText env (text_of partialResult)
              (emit VoskPartialResult (update (set_rec (Some r1)) p)) in
  let p2 := emit (VoskAcceptWaveform data) (update (set_rec (Some r2)) p1) in
  recognize env data p
  = Some (if accepted =? 0 then p2
          else writeRecognizedText env (text_of result)
                 (emit VoskResult (update (set_rec (Some r3)) p2))).
Proof.
  intros Hr. unfold recognize. rewrite Hr.
  destruct (vosk_recognizer_partial_result r) as [r1 partialResult].
  rewrite extract_text_of, guarded_partial.
  destruct (vosk_recognizer_accept_waveform r1 data) as [r2 accepted].
  destruct (vosk_recognizer_result r2) as [r3 result].
  cbv zeta. destruct (accepted =? 0); cbn [negb]; [reflexivity|].
  now rewrite extract_text_of, guarded_final.
Qed.

Lemma recognize_total (data : list byte) (p : Process) :
  exists p', recognize env data p = Some p'
             /\ same_session p p'
             /\ (levels_ok p -> levels_ok p').
Proof.
  destruct (rec (recorder p)) as [r |] eqn:Hr.
  - pose proof (recognize_unfold data p r Hr) as U.
    destruct (vosk_recognizer_partial_result r) as [r1 partialResult].
    destruct (vosk_recognizer_accept_waveform r1 data) as [r2 accepted].
    destruct (vosk_recognizer_result r2) as [r3 result].
    cbv zeta in U. rewrite U. eexists. split; [reflexivity|].
    set (p1 := writePartialText env (text_of partialResult)
                 (emit VoskPartialResult (update (set_rec (Some r1)) p))).
    assert (S1 : same_session p p1).
    { eapply same_session_trans; [|apply writePartialText_same].
      repeat split. }
    assert (L1 : levels_ok p -> levels_ok p1).
    { intros H. apply writePartialText_levels.
      apply levels_ok_emit; [exact H | exact I]. }
    destruct (accepted =? 0).
    + split.
      * eapply same_session_trans; [exact S1 | repeat split].
      * intros H. apply levels_ok_emit; [apply (L1 H) | exact I].
    + split.
      * eapply same_session_trans; [|apply writeRecognizedText_same].
        eapply same_session_trans; [exact S1 | repeat split].
      * intros H. apply writeRecognizedText_levels.
        apply levels_ok_emit; [|exact I].
        apply levels_ok_emit; [apply (L1 H) | exact I].
  - unfold recognize. rewrite Hr. eexists. split; [reflexivity|].
    split; [apply same_session_refl | auto].
Qed.

End Loop.

Section Capture.

Context {M R : Type} `{V : Vosk M R}.
Variable env : Env.

Local Abbreviation Process := (@Process M R).

(** ** One iteration *)

Lemma iteration_unfold (bytes : list byte) (p : Process) (l : Locals) :
  let samples := decode_samples bytes in
  let chunk := firstn (2 * (List.length bytes / 2)) bytes in
  let updateCounter := int32 (updateCounter l + 1) in
  let p1 := update (fun a => set_audioData (audioData a ++ samples) a) p in
  let p2 := if Z.rem updateCounter 2 =? 0
            then writeAudioLevel env (calculateAudioLevel samples) p1
            else p1 in
  iteration env bytes p l
  = match recognize env chunk p2 with
    | None => None
    | Some p' =>
        Some (p', mkLocals (fread_into (buffer l) bytes)
                    (size_t (totalBytes l
                             + 2 * Z.of_nat (List.length bytes / 2)))
                    updateCounter (chunkBuffer l ++ samples))
    end.
Proof.
  cbv zeta. unfold iteration. cbv zeta.
  destruct (kept_bytes (List.length bytes)) as [K1 _]. cbv zeta in K1.
  rewrite K1.
  replace (2 * Z.of_nat (List.length bytes / 2) / 2)
    with (Z.of_nat (List.length bytes / 2))
    by (rewrite Z.mul_comm, Z.div_mul by lia; reflexivity).
  rewrite Nat2Z.id. rewrite samples_view_fread.
  rewrite Z2Nat.inj_mul by lia. rewrite Nat2Z.id.
  change (Z.to_nat 2) with 2%nat.
  rewrite firstn_fread; [reflexivity|].
  pose proof (Nat.div_mod_eq (List.length bytes) 2). lia.
Qed.

Lemma calculateAudioLevel_of_read (bytes : list byte) :
  Z.of_nat (List.length bytes) <= 320 ->
  0 <= calculateAudioLevel (decode_samples bytes) <= 10.
Proof.
  intros H.
  apply calculateAudioLevel_range.
  - apply (Forall_int16_decode (List.length bytes)). lia.
  - rewrite (length_decode_samples (List.length bytes)) by lia.
    pose proof (Nat.div_mod_eq (List.length bytes) 2). lia.
Qed.

Lemma iteration_spec (bytes : list byte) (p : Process) (l : Locals) :
  exists p',
    iteration env bytes p l
    = Some (p', mkLocals (fread_into (buffer l) bytes)
                  (size_t (totalBytes l
                           + 2 * Z.of_nat (List.length bytes / 2)))
                  (int32 (updateCounter l + 1))
                  (chunkBuffer l ++ decode_samples bytes))
    /\ audioData (recorder p')
       = audioData (recorder p) ++ decode_samples bytes
    /\ running (recorder p') = running (recorder p)
    /\ on_sigint p' = on_sigint p
    /\ on_sigterm p' = on_sigterm p
    /\ (Z.of_nat (List.length bytes) <= 320 -> levels_ok p -> levels_ok p').
Proof.
  pose proof (iteration_unfold bytes p l) as U. cbv zeta in U. rewrite U.
  set (p1 := update (fun a => set_audioData
                                (audioData a ++ decode_samples bytes) a) p).
  set (p2 := if Z.rem (int32 (updateCounter l + 1)) 2 =? 0
             then writeAudioLevel env
                    (calculateAudioLevel (decode_samples bytes)) p1
             else p1).
  assert (S2 : same_session p1 p2).
  { unfold p2. destruct (Z.rem (int32 (updateCounter l + 1)) 2 =? 0);
      [apply writeToFile_same | apply same_session_refl]. }
  assert (L2 : Z.of_nat (List.length bytes) <= 320 ->
               levels_ok p -> levels_ok p2).
  { intros Hn H. unfold p2.
    destruct (Z.rem (int32 (updateCounter l + 1)) 2 =? 0); [|exact H].
    apply writeAudioLevel_levels; [|exact H].
    apply calculateAudioLevel_of_read. exact Hn. }
  destruct (recognize_total env (firstn (2 * (List.length bytes / 2)) bytes) p2)
    as (p' & -> & S3 & L3).
  exists p'. split; [reflexivity|].
  destruct S2 as (A1 & A2 & A3 & A4). destruct S3 as (B1 & B2 & B3 & B4).
  split; [rewrite B2, A2; reflexivity|].
  split; [rewrite B1, A1; reflexivity|].
  split; [rewrite B3, A3; reflexivity|].
  split; [rewrite B4, A4; reflexivity|].
  intros Hn H. apply L3, L2; assumption.
Qed.

(** ** The loop *)

Lemma signal_lambda_id (a : @AudioRecorder M R) : signal_lambda a = a.
Proof. reflexivity. Qed.

Lemma deliver_cases (sig : Signal) (p : Process) :
  installed_by_program (on_sigint p) ->
  installed_by_program (on_sigterm p) ->
  deliver sig p = None \/ deliver sig p = Some p.
Proof.
  intros [H1 | H1] [H2 | H2]; unfold deliver; destruct sig;
    rewrite ?H1, ?H2; auto; right; destruct p; reflexivity.
Qed.

Lemma size_t_add (a b c : Z) :
  size_t (size_t (a + b) + c) = size_t (a + (b + c)).
Proof.
  unfold size_t, wrap_unsigned. rewrite Zplus_mod_idemp_l. f_equal. lia.
Qed.

Lemma capture_invariant (src : list SourceEvent) :
  forall (in_read : bool) (p : Process) (l : Locals),
  installed_by_program (on_sigint p) ->
  installed_by_program (on_sigterm p) ->
  0 <= totalBytes l < 2 ^ 64 ->
  exists k : nat,
    let reads := firstn k (freads src) in
    let stored := flat_map decode_samples reads in
    let o := capture env src in_read p l in
    audioData (recorder (outcome_process o))
    = audioData (recorder p) ++ stored
    /\ (forall l' p', o = Returned l' p' ->
          chunkBuffer l' = chunkBuffer l ++ stored
          /\ totalBytes l'
             = size_t (totalBytes l + 2 * Z.of_nat (List.length stored)))
    /\ (forall p', o <> Terminated p')
    /\ (fits_buffer src -> levels_ok p -> levels_ok (outcome_process o))
    /\ on_sigint (outcome_process o) = on_sigint p
    /\ on_sigterm (outcome_process o) = on_sigterm p
    /\ (uninterrupted src -> running (recorder p) = true ->
        reads = freads src).
Proof.
  assert (Stop : forall (src0 : list SourceEvent) (p : Process) (l : Locals),
    0 <= totalBytes l < 2 ^ 64 ->
    (uninterrupted src0 -> running (recorder p) = true ->
     @nil (list byte) = freads src0) ->
    exists k : nat,
      let reads := firstn k (freads src0) in
      let stored := flat_map decode_samples reads in
      let o : Outcome Locals := Returned l p in
      audioData (recorder (outcome_process o))
      = audioData (recorder p) ++ stored
      /\ (forall l' p', o = Returned l' p' ->
            chunkBuffer l' = chunkBuffer l ++ stored
            /\ totalBytes l'
               = size_t (totalBytes l + 2 * Z.of_nat (List.length stored)))
      /\ (forall p', o <> Terminated p')
      /\ (fits_buffer src0 -> levels_ok p -> levels_ok (outcome_process o))
      /\ on_sigint (outcome_process o) = on_sigint p
      /\ on_sigterm (outcome_process o) = on_sigterm p
      /\ (uninterrupted src0 -> running (recorder p) = true ->
          reads = freads src0)).
  { intros src0 p l Htotal Hall. exists 0%nat. cbn.
    rewrite !app_nil_r. split; [reflexivity|]. split.
    - intros l' p' [= <- <-]. split; [reflexivity|].
      unfold size_t, wrap_unsigned. rewrite Z.add_0_r.
      symmetry. apply Z.mod_small. assumption.
    - split; [discriminate|]. split; [auto|]. split; [reflexivity|].
      split; [reflexivity | exact Hall]. }
  induction src as [| e src IH]; intros in_read p l Hint Hterm Htotal.
  - cbn [capture].
    destruct (negb in_read && negb (running (recorder p)));
      apply Stop; auto.
  - cbn [capture].
    destruct (negb in_read && negb (running (recorder p))) eqn:Hrun.
    { apply Stop; [assumption|]. intros _ Hr. rewrite Hr in Hrun.
      rewrite andb_false_r in Hrun. discriminate. }
    destruct e as [bytes | sig].
    + destruct (Nat.eqb_spec (List.length bytes) 0) as [E | E].
      { apply Stop; [assumption|]. intros Hu _. inversion Hu as [| ? ? Hb _].
        destruct bytes; [contradiction | discriminate]. }
      destruct (iteration_spec bytes p l)
        as (p1 & -> & A1 & A2 & A3 & A4 & A5).
      set (l1 := mkLocals (fread_into (buffer l) bytes)
                   (size_t (totalBytes l
                            + 2 * Z.of_nat (List.length bytes / 2)))
                   (int32 (updateCounter l + 1))
                   (chunkBuffer l ++ decode_samples bytes)).
      destruct (IH false p1 l1) as (k & B1 & B2 & B3 & B4 & B5 & B6 & B7).
      * now rewrite A3.
      * now rewrite A4.
      * unfold l1. cbn [totalBytes]. unfold size_t, wrap_unsigned.
        apply Z.mod_pos_bound. lia.
      * exists (S k). cbn [freads firstn flat_map]. cbv zeta in *.
        set (o := capture env src false p1 l1) in *.
        split; [rewrite B1, A1; now rewrite app_assoc|].
        split.
        { intros l' p' Ho. destruct (B2 l' p' Ho) as [C1 C2].
          unfold l1 in C1, C2. cbn [chunkBuffer totalBytes] in C1, C2.
          split; [rewrite C1; now rewrite app_assoc|].
          rewrite C2, size_t_add. f_equal.
          rewrite length_app, Nat2Z.inj_add.
          rewrite (length_decode_samples (List.length bytes)) by lia. lia. }
        split; [exact B3|].
        split.
        { intros Hfit H. apply B4.
          - unfold fits_buffer in *. cbn [freads] in Hfit.
            now inversion Hfit.
          - apply A5; [|exact H]. unfold fits_buffer in Hfit.
            cbn [freads] in Hfit. now inversion Hfit. }
        split; [congruence|]. split; [congruence|].
        intros Hu Hr. f_equal. apply B7; [now inversion Hu | congruence].
    + destruct (deliver_cases sig p Hint Hterm) as [-> | ->].
      * exists 0%nat. cbn. rewrite !app_nil_r.
        split; [reflexivity|]. split; [discriminate|].
        split; [discriminate|]. split; [auto|]. split; [reflexivity|].
        split; [reflexivity|]. intros Hu _. now inversion Hu.
      * destruct (IH true p l Hint Hterm Htotal)
          as (k & B1 & B2 & B3 & B4 & B5 & B6 & B7).
        exists k. cbn [freads]. cbv zeta in *.
        split; [exact B1|]. split; [exact B2|]. split; [exact B3|].
        split; [exact B4|]. split; [assumption|]. split; [assumption|].
        intros Hu _. now inversion Hu.
Qed.

End Capture.

(** ** The Sample Buffer *)

Lemma fread_shaped_tail (bytes : list byte) (rest : list (list byte)) :
  fread_shaped (bytes :: rest) -> fread_shaped rest.
Proof. destruct rest; [trivial | intros [_ H]; exact H]. Qed.

Lemma fread_shaped_length (reads : list (list byte)) :
  fread_shaped reads ->
  Z.of_nat (List.length (flat_map decode_samples reads))
  = bytes_read reads / 2.
Proof.
  induction reads as [| bytes rest IH]; intros H; [reflexivity|].
  cbn [flat_map bytes_read fold_right]. fold (bytes_read rest).
  rewrite length_app, Nat2Z.inj_add.
  rewrite (length_decode_samples (List.length bytes)) by lia.
  rewrite Nat2Z.inj_div. change (Z.of_nat 2) with 2.
  destruct rest as [| next rest].
  - cbn. now rewrite !Z.add_0_r.
  - destruct H as [H320 H]. rewrite (IH H). rewrite H320.
    change (Z.of_nat 320) with (160 * 2).
    rewrite Z.div_add_l by lia. rewrite Z.div_mul by lia. reflexivity.
Qed.

Lemma dropped_bytes (reads : list (list byte)) :
  2 * Z.of_nat (List.length (flat_map decode_samples reads)) + odd_reads reads
  = bytes_read reads.
Proof.
  unfold odd_reads.
  induction reads as [| bytes rest IH]; [reflexivity|].
  cbn [flat_map bytes_read fold_right filter]. fold (bytes_read rest).
  rewrite length_app, Nat2Z.inj_add.
  rewrite (length_decode_samples (List.length bytes)) by lia.
  pose proof (Nat.div_mod_eq (List.length bytes) 2) as E.
  destruct (Nat.odd (List.length bytes)) eqn:O.
  - assert (List.length bytes mod 2 = 1)%nat.
    { rewrite <- Nat.bit0_mod. unfold Nat.odd in O. rewrite Nat.bit0_odd.
      unfold Nat.odd. now rewrite O. }
    cbn [List.length]. lia.
  - assert (List.length bytes mod 2 = 0)%nat.
    { rewrite <- Nat.bit0_mod. rewrite Nat.bit0_odd. now rewrite O. }
    lia.
Qed.

Section Session.

Context {M R : Type} `{V : Vosk M R}.
Variable env : Env.

Local Abbreviation Process := (@Process M R).

(** C1 (Sample Buffer invariant).  Entered as [record] enters it, with
    an empty buffer and the byte counter at 0, the capture loop leaves a
    Sample Buffer that is the concatenation, read by read, of the samples
    decoded from the reads it performed, which are all the reads of a
    source that is not interrupted.  The loop's byte counter is
    twice the length of the buffer; the bytes read are those, and one
    more for every read of odd size; when the reads are those [fread]
    delivers on a pipe (every one full but the last) the length is the
    number of bytes read divided by two.  A read of odd size stores one
    sample fewer than ceil(bytes/2): its last byte is dropped, enters no
    stored sample and is not joined to the next read. *)
Theorem sample_buffer_invariant (src : list SourceEvent) (p : Process)
  (l : Locals) :
  installed_by_program (on_sigint p) ->
  installed_by_program (on_sigterm p) ->
  audioData (recorder p) = [] ->
  totalBytes l = 0 ->
  exists reads : list (list byte),
    (exists k, reads = firstn k (freads src))
    /\ (uninterrupted src -> running (recorder p) = true ->
        reads = freads src)
    /\ let o := capture env src false p l in
       let sampleBuffer := audioData (recorder (outcome_process o)) in
       sampleBuffer = flat_map decode_samples reads
       /\ (forall l' p', o = Returned l' p' ->
             totalBytes l' = size_t (2 * Z.of_nat (List.length sampleBuffer)))
       /\ 2 * Z.of_nat (List.length sampleBuffer) + odd_reads reads
          = bytes_read reads
       /\ (fread_shaped reads ->
           Z.of_nat (List.length sampleBuffer) = bytes_read reads / 2)
       /\ Forall (fun bytes =>
            Z.of_nat (List.length (decode_samples bytes))
            = Z.of_nat (List.length bytes) / 2
            /\ (Nat.odd (List.length bytes) = true ->
                Z.of_nat (List.length (decode_samples bytes))
                = (Z.of_nat (List.length bytes) + 1) / 2 - 1
                /\ decode_samples bytes
                   = decode_samples (removelast bytes))) reads.
Proof.
  intros Hint Hterm Hdata Htotal.
  destruct (capture_invariant env src false p l Hint Hterm)
    as (k & B1 & B2 & _ & _ & _ & _ & B7); [rewrite Htotal; lia|].
  cbv zeta in B1, B2, B7. rewrite Hdata in B1. cbn [app] in B1.
  exists (firstn k (freads src)). split; [eauto|]. split; [exact B7|].
  cbv zeta.
  split; [exact B1|]. split.
  - intros l' p' Ho. destruct (B2 l' p' Ho) as [_ T].
    rewrite T, Htotal, B1. reflexivity.
  - split; [rewrite B1; apply dropped_bytes|]. split.
    + intros Hs. rewrite B1. now apply fread_shaped_length.
    + apply Forall_forall. intros bytes _.
      assert (L : Z.of_nat (List.length (decode_samples bytes))
                  = Z.of_nat (List.length bytes) / 2).
      { rewrite (length_decode_samples (List.length bytes)) by lia.
        now rewrite Nat2Z.inj_div. }
      split; [exact L|]. intros Hodd. split.
      * rewrite L. apply Nat.odd_spec in Hodd. destruct Hodd as [m Hm].
        rewrite Hm. rewrite Nat2Z.inj_add, Nat2Z.inj_mul.
        change (Z.of_nat 2) with 2. change (Z.of_nat 1) with 1.
        replace (2 * Z.of_nat m + 1 + 1) with ((Z.of_nat m + 1) * 2) by lia.
        rewrite Z.div_mul by lia.
        replace (2 * Z.of_nat m + 1) with (1 + Z.of_nat m * 2) by lia.
        rewrite Z.div_add by lia. change (1 / 2) with 0. lia.
      * destruct (exists_last (l := bytes)) as (front & b & ->).
        { intros ->. discriminate. }
        rewrite removelast_last.
        apply (decode_samples_dangling (List.length front)); [lia|].
        rewrite length_app in Hodd. cbn [List.length] in Hodd.
        rewrite Nat.add_1_r, Nat.odd_succ in Hodd. exact Hodd.
Qed.

End Session.

Lemma sample_buffer_invariant_witness :
  exists reads,
    audioData (recorder (outcome_process
      (@capture unit nat scripted (session odd_chunk) odd_chunk false
         fresh_process fresh_locals)))
    = flat_map decode_samples reads
    /\ [1; 2; 3] = flat_map decode_samples reads.
Proof.
  destruct (@sample_buffer_invariant unit nat scripted (session odd_chunk)
              odd_chunk fresh_process fresh_locals)
    as (reads & _ & _ & H & _).
  - left. reflexivity.
  - left. reflexivity.
  - reflexivity.
  - reflexivity.
  - exists reads. split; exact H.
Defined.

(** ** The recognition step of an iteration *)

Section Recognition.

Context {M R : Type} `{V : Vosk M R}.
Variable env : Env.

Local Abbreviation Process := (@Process M R).

Lemma vosk_calls_app (t t' : list Event) :
  vosk_calls (t ++ t') = vosk_calls t ++ vosk_calls t'.
Proof. apply filter_app. Qed.

Lemma vosk_calls_writeToFile (filename content : string) (p : Process) :
  vosk_calls (trace (writeToFile env filename content p))
  = vosk_calls (trace p).
Proof.
  rewrite writeToFile_trace, vosk_calls_app.
  destruct (openable env filename); cbn; now rewrite app_nil_r.
Qed.

Lemma vosk_calls_writePartialText (text : string) (p : Process) :
  vosk_calls (trace (writePartialText env text p)) = vosk_calls (trace p).
Proof.
  unfold writePartialText. destruct (empty text); [reflexivity|].
  apply vosk_calls_writeToFile.
Qed.

Lemma vosk_calls_writeRecognizedText (text : string) (p : Process) :
  vosk_calls (trace (writeRecognizedText env text p)) = vosk_calls (trace p).
Proof.
  unfold writeRecognizedText. destruct (empty text); [reflexivity|].
  rewrite vosk_calls_writeToFile.
  destruct (negb (empty (accumulatedText (recorder p)))); reflexivity.
Qed.

(** C3 (recognition step).  In an iteration with a recognizer, after the
    samples are stored and the level is published, the loop asks for the
    partial result and publishes its text as partial text, feeds the
    chunk (the bytes kept from the read) to [accept_waveform], once, and,
    when that returns non-zero, asks for the result and publishes its
    text as final text.  The calls made to the recognizer are exactly
    these, whatever the recognizer answers. *)
Theorem recognition_step (bytes : list byte) (p : Process) (l : Locals)
  (r : R) :
  rec (recorder p) = Some r ->
  let samples := decode_samples bytes in
  let chunk := firstn (2 * (List.length bytes / 2)) bytes in
  let stored := update (fun a => set_audioData (audioData a ++ samples) a) p in
  let p0 := if Z.rem (int32 (updateCounter l + 1)) 2 =? 0
            then writeAudioLevel env (calculateAudioLevel samples) stored
            else stored in
  let '(r1, partialResult) := vosk_recognizer_partial_result r in
  let '(r2, accepted) := vosk_recognizer_accept_waveform r1 chunk in
  let '(r3, result) := vosk_recognizer_result r2 in
  let p1 := writePartialText env (text_of partialResult)
              (emit VoskPartialResult (update (set_rec (Some r1)) p0)) in
  let p2 := emit (VoskAcceptWaveform chunk) (update (set_rec (Some r2)) p1) in
  let p' := if accepted =? 0 then p2
            else writeRecognizedText env (text_of result)
                   (emit VoskResult (update (set_rec (Some r3)) p2)) in
  (exists l', iteration env bytes p l = Some (p', l'))
  /\ vosk_calls (trace p')
     = vosk_calls (trace p)
       ++ VoskPartialResult :: VoskAcceptWaveform chunk
          :: (if accepted =? 0 then [] else [VoskResult]).
Proof.
  intros Hr samples chunk stored p0.
  pose proof (iteration_unfold env bytes p l) as U. cbv zeta in U.
  fold samples in U. fold stored in U. fold p0 in U. fold chunk in U.
  assert (Hr0 : rec (recorder p0) = Some r).
  { unfold p0. destruct (Z.rem (int32 (updateCounter l + 1)) 2 =? 0);
      [unfold writeAudioLevel; rewrite writeToFile_recorder|]; exact Hr. }
  assert (Hc0 : vosk_calls (trace p0) = vosk_calls (trace p)).
  { unfold p0. destruct (Z.rem (int32 (updateCounter l + 1)) 2 =? 0);
      [unfold writeAudioLevel; rewrite vosk_calls_writeToFile|]; reflexivity. }
  pose proof (recognize_unfold env chunk p0 r Hr0) as Rec.
  destruct (vosk_recognizer_partial_result r) as [r1 partialResult].
  destruct (vosk_recognizer_accept_waveform r1 chunk) as [r2 accepted].
  destruct (vosk_recognizer_result r2) as [r3 result].
  cbv zeta in Rec. rewrite Rec in U. cbv zeta.
  split; [eexists; exact U|].
  destruct (accepted =? 0).
  - cbn [emit trace update set_recorder]. rewrite vosk_calls_app.
    rewrite vosk_calls_writePartialText. cbn [emit trace update set_recorder].
    rewrite vosk_calls_app, Hc0. cbn. now rewrite <- app_assoc.
  - rewrite vosk_calls_writeRecognizedText.
    cbn [emit trace update set_recorder]. rewrite !vosk_calls_app.
    rewrite vosk_calls_writePartialText. cbn [emit trace update set_recorder].
    rewrite vosk_calls_app, Hc0. cbn. now rewrite <- !app_assoc.
Qed.

End Recognition.

Lemma recognition_step_witness :
  exists p' l',
    @iteration unit nat scripted (session []) [x01; x00; x02; x00; xff]
      fresh_process fresh_locals
    = Some (p', l')
    /\ vosk_calls (trace p')
       = [VoskPartialResult; VoskAcceptWaveform [x01; x00; x02; x00]]
    /\ file_content (session []) p' OUTPUT_TEXT_FILE
       = Some ("hel" ++ endl)%string.
Proof.
  destruct (@recognition_step unit nat scripted (session [])
              [x01; x00; x02; x00; xff] fresh_process fresh_locals O eq_refl)
    as ((l' & Hit) & Hcalls).
  eexists _, l'. split; [exact Hit|]. split; [exact Hcalls | reflexivity].
Defined.

(** ** The loudness level file *)

Section Levels.

Context {M R : Type} `{V : Vosk M R}.
Variable env : Env.

Local Abbreviation Process := (@Process M R).

Lemma clearFiles_levels (p : Process) :
  levels_ok p -> levels_ok (clearFiles env p).
Proof.
  intros H. unfold clearFiles.
  apply writeToFile_levels; [apply writeText_levels; exact H|].
  intros _. exists 0. split; [lia | reflexivity].
Qed.

Lemma clearFiles_same (p : Process) : same_session p (clearFiles env p).
Proof.
  unfold clearFiles.
  eapply same_session_trans; [|apply writeToFile_same].
  eapply same_session_trans; [|apply writeToFile_same].
  repeat split.
Qed.

Lemma initialize_levels (p : Process) :
  levels_ok p -> levels_ok (snd (initialize env p)).
Proof.
  intros H. unfold initialize. cbv zeta.
  repeat match goal with
         | |- context [match ?x with _ => _ end] => destruct x
         end; cbn [snd]; try exact H; apply clearFiles_levels; exact H.
Qed.

Lemma initialize_same (p : Process) :
  same_session p (snd (initialize env p)).
Proof.
  unfold initialize. cbv zeta.
  repeat match goal with
         | |- context [match ?x with _ => _ end] => destruct x
         end; cbn [snd]; try (repeat split; fail);
    (eapply same_session_trans; [|apply clearFiles_same]); repeat split.
Qed.

Lemma saveWAVFile_levels (filename : string) (p : Process) :
  filename <> AUDIO_LEVEL_FILE -> levels_ok p ->
  levels_ok (saveWAVFile env filename p).
Proof.
  intros Hn H. unfold saveWAVFile. destruct (openable env filename);
    [|exact H].
  apply levels_ok_emit; [exact H | exact Hn].
Qed.

Lemma finish_levels (outputFilename : string) (p : Process) :
  outputFilename <> AUDIO_LEVEL_FILE -> levels_ok p ->
  levels_ok (outcome_process (finish env outputFilename p)).
Proof.
  intros Hn H. unfold finish.
  destruct (rec (recorder p)) as [r |].
  - destruct (vosk_recognizer_final_result r) as [r1 finalResult].
    rewrite extract_text_of, guarded_final. cbn [outcome_process].
    apply writeAudioLevel_levels; [lia|].
    assert (L : levels_ok (writeRecognizedText env (text_of finalResult)
                  (emit VoskFinalResult (update (set_rec (Some r1)) p)))).
    { apply writeRecognizedText_levels.
      apply levels_ok_emit; [exact H | exact I]. }
    destruct (audioData _); [exact L | now apply saveWAVFile_levels].
  - cbn [outcome_process]. apply writeAudioLevel_levels; [lia|].
    destruct (audioData _); [exact H | now apply saveWAVFile_levels].
Qed.

Lemma record_levels (mode : Z) (p : Process) :
  (forall command src, popen env command = Some src -> fits_buffer src) ->
  installed_by_program (on_sigint p) ->
  installed_by_program (on_sigterm p) ->
  levels_ok p ->
  levels_ok (outcome_process (record env mode p)).
Proof.
  intros Hfit Hint Hterm H. unfold record. cbv zeta.
  assert (Run : forall command outputFilename,
            outputFilename <> AUDIO_LEVEL_FILE ->
            levels_ok (outcome_process
              match popen env command with
              | None => Returned false p
              | Some src =>
                  match capture env src false p
                          (mkLocals (stack_buffer env) 0 0 []) with
                  | Returned _ p => finish env outputFilename p
                  | Killed sig p => Killed sig p
                  | Terminated p => Terminated p
                  end
              end)).
  { intros command outputFilename Hn.
    destruct (popen env command) as [src |] eqn:Hp; [|exact H].
    destruct (capture_invariant env src false p
                (mkLocals (stack_buffer env) 0 0 []) Hint Hterm)
      as (k & _ & _ & _ & L & _); [cbn; lia|].
    cbv zeta in L. specialize (L (Hfit _ _ Hp) H).
    destruct (capture env src false p (mkLocals (stack_buffer env) 0 0 []));
      cbn [outcome_process] in *; [|exact L | exact L].
    apply finish_levels; assumption. }
  destruct (mode =? 1); [apply Run; discriminate|].
  destruct (mode =? 2); [|exact H].
  destruct (empty (getSystemAudioMonitor env)); [exact H|].
  apply Run. discriminate.
Qed.

(** C10 (loudness level file).  When no [fread] returns more than the
    buffer holds, every write of a whole run of [main] to the level file
    is the decimal text of an integer between 0 and 10, and the WAV data
    never goes to that file.  The reset writes 0 and the last write of a
    session that returns from [record]'s loop is 0. *)
Theorem level_file_values :
  (forall command src, popen env command = Some src -> fits_buffer src) ->
  let written := trace (outcome_process (main env)) in
  (forall content, In (FileWrite AUDIO_LEVEL_FILE content) written ->
     exists level, 0 <= level <= 10
                   /\ content = (to_string level ++ endl)%string)
  /\ (forall bytes, ~ In (FileWriteBinary AUDIO_LEVEL_FILE bytes) written)
  /\ (forall p : Process,
        trace (clearFiles env p)
        = trace p
          ++ (if openable env OUTPUT_TEXT_FILE
              then [FileWrite OUTPUT_TEXT_FILE endl] else [])
          ++ (if openable env AUDIO_LEVEL_FILE
              then [FileWrite AUDIO_LEVEL_FILE (to_string 0 ++ endl)]
              else []))
  /\ (forall (outputFilename : string) (p p' : Process) (ok : bool),
        finish env outputFilename p = Returned ok p' ->
        exists before,
          trace p'
          = before
            ++ (if openable env AUDIO_LEVEL_FILE
                then [FileWrite AUDIO_LEVEL_FILE (to_string 0 ++ endl)]
                else [])).
Proof.
  intros Hfit written.
  assert (L : levels_ok (outcome_process (main env))).
  { unfold main. cbv zeta.
    set (p0 := mkProcess new_AudioRecorder [] SIG_DFL SIG_DFL).
    pose proof (initialize_levels p0 (Forall_nil _)) as L1.
    pose proof (initialize_same p0) as (_ & _ & S3 & S4).
    destruct (initialize env p0) as [ok p1]. cbn [snd] in *.
    pose proof (record_levels (choice env) p1 Hfit) as L2.
    rewrite S3, S4 in L2.
    specialize (L2 (or_introl eq_refl) (or_introl eq_refl) L1).
    destruct (record env (choice env) p1); exact L2. }
  unfold levels_ok in L. fold written in L. rewrite Forall_forall in L.
  split; [|split; [|split]].
  - intros content Hin. exact (L _ Hin eq_refl).
  - intros bytes Hin. exact (L _ Hin eq_refl).
  - intros p. unfold clearFiles. rewrite !writeToFile_trace.
    cbn [update set_recorder trace]. now rewrite <- app_assoc.
  - intros outputFilename p p' ok Hf. unfold finish in Hf.
    destruct (match rec (recorder p) with
              | Some r => _
              | None => Some p
              end) as [q |]; [|discriminate].
    injection Hf as _ <-. unfold writeAudioLevel.
    rewrite writeToFile_trace. eauto.
Qed.

End Levels.

Lemma level_file_values_witness :
  exists level,
    0 <= level <= 10 /\ ("0" ++ endl)%string = (to_string level ++ endl)%string.
Proof.
  assert (Hfit : forall command src,
            popen (session two_chunks) command = Some src -> fits_buffer src).
  { intros command src [= <-]. unfold fits_buffer.
    repeat constructor; cbn; lia. }
  apply (proj1 (@level_file_values unit nat scripted (session two_chunks)
                  Hfit) ("0" ++ endl)%string).
  vm_compute. right. left. reflexivity.
Defined.

(** ** The model of [double] against the Standard Library's *)

Example round_agrees_with_SpecFloat :
  forallb (fun '(a, b) =>
    SFeqb (to_spec_float (round a b))
      (SFdiv 53 1024 (binary_normalize 53 1024 a 0 false)
         (binary_normalize 53 1024 b 0 false)))
    [(32767, 10); (1, 3); (2, 3); (5242880, 160); (32768, 1); (98301, 30);
     (229369, 70); (294903, 90); (1, 65535); (2147483647, 65535);
     (7, 1); (9007199254740993, 1)]
  = true.
Proof. vm_compute. reflexivity. Qed.

Example div_agrees_with_SpecFloat :
  forallb (fun '(a, b) =>
    SFeqb (to_spec_float (div (round a b) lit_3276_7))
      (SFdiv 53 1024
         (SFdiv 53 1024 (binary_normalize 53 1024 a 0 false)
            (binary_normalize 53 1024 b 0 false))
         (SFdiv 53 1024 (binary_normalize 53 1024 32767 0 false)
            (binary_normalize 53 1024 10 0 false))))
    [(32767, 10); (1, 3); (2, 3); (5242880, 160); (32768, 1); (98301, 30);
     (229369, 70); (294903, 90); (1, 65535); (2147483647, 65535);
     (32767, 1); (65534, 10); (29490, 1); (29491, 1)]
  = true.
Proof. vm_compute. reflexivity. Qed.

(** ** Witnesses and counterexamples of the pure components *)

Lemma calculateAudioLevel_contract_witness :
  0 <= calculateAudioLevel [3277; -3277; 3276; -3277] <= 10
  /\ calculateAudioLevel [3277; -3277; 3276; -3277]
     = loudness_by_spec [3277; -3277; 3276; -3277].
Proof.
  assert (HF : Forall int16 [3277; -3277; 3276; -3277])
    by (repeat constructor; unfold int16; lia).
  assert (HN : Z.of_nat (List.length [3277; -3277; 3276; -3277]) <= 65535)
    by (cbn; lia).
  destruct (calculateAudioLevel_contract [3277; -3277; 3276; -3277] HF HN)
    as (Range & Spec & _).
  split; assumption.
Defined.

Lemma wav_file_contract_witness :
  field (wav_file [0; 1; -1; 32767; -32768]) 40 4 = 10
  /\ decode_samples (skipn 44 (wav_file [0; 1; -1; 32767; -32768]))
     = [0; 1; -1; 32767; -32768].
Proof.
  assert (HF : Forall int16 [0; 1; -1; 32767; -32768])
    by (repeat constructor; unfold int16; lia).
  assert (HN : Z.of_nat (List.length [0; 1; -1; 32767; -32768])
               <= 2147483629) by (cbn; lia).
  pose proof (wav_file_contract [0; 1; -1; 32767; -32768] HF HN) as C.
  cbv zeta in C.
  split; [apply C | apply C].
Defined.

Lemma Forall_repeat_int16 (n : nat) : Forall int16 (repeat 0 n).
Proof.
  induction n; [constructor | constructor; [unfold int16; lia | assumption]].
Qed.

(** C7 as stated fails on long sessions.  The size fields are 32 bits
    wide: for a buffer of 2^31 samples the data size that is written is
    0, not 2^32. *)
Lemma wav_data_size_wraps :
  Forall int16 long_silence
  /\ field (wav_file long_silence) 40 4 = 0
  /\ 2 * Z.of_nat (List.length long_silence) = 4294967296
  /\ field (wav_file long_silence) 40 4
     <> 2 * Z.of_nat (List.length long_silence).
Proof.
  assert (Len : Z.of_nat (List.length long_silence) = 2147483648).
  { unfold long_silence. rewrite repeat_length. apply Z2Nat.id. lia. }
  assert (F : field (wav_file long_silence) 40 4 = 0).
  { unfold wav_file. cbv zeta. rewrite Len.
    rewrite field_app by (rewrite length_header_bytes; [lia | reflexivity ..]).
    vm_compute. reflexivity. }
  split; [apply Forall_repeat_int16|].
  split; [exact F|]. rewrite F, Len. split; [reflexivity | discriminate].
Qed.

(** ** Where the code departs from the specification *)

(** C2 (stop signal), as the code behaves.  The lambdas of
    [setSignalHandler] change nothing, their [instance] being always null:
    with them installed a signal leaves [running] as it is.  [main] never
    calls [setSignalHandler]: the loop is entered with the default
    dispositions, under which a signal ends the process on the spot.
    (The flag itself works: found false, it ends the loop.)  In the
    session interrupted after its first chunk, the run ends killed,
    with no final result asked from the recognizer and no WAV file
    written, though two samples had been captured. *)
Theorem interrupt_is_not_handled :
  (forall (M R : Type) (a : @AudioRecorder M R), signal_lambda a = a)
  /\ (forall (M R : Type) (sig : Signal) (p : @Process M R),
        deliver sig (setSignalHandler p) = Some (setSignalHandler p))
  /\ (forall (M R : Type) (V : Vosk M R) (env : Env)
        (a : @AudioRecorder M R) (t : list Event) (l : Locals)
        (sig : Signal) (src : list SourceEvent),
        capture env (Deliver sig :: src) false
          (mkProcess (set_running true a) t SIG_DFL SIG_DFL) l
        = Killed sig (mkProcess (set_running true a) t SIG_DFL SIG_DFL))
  /\ (forall (M R : Type) (V : Vosk M R) (env : Env)
        (a : @AudioRecorder M R) (t : list Event) (l : Locals)
        (src : list SourceEvent),
        capture env src false
          (mkProcess (set_running false a) t SIG_DFL SIG_DFL) l
        = Returned l (mkProcess (set_running false a) t SIG_DFL SIG_DFL))
  /\ (exists p,
        @main unit nat scripted (session interrupted) = Killed SIGINT p
        /\ trace p
           = [FileWrite OUTPUT_TEXT_FILE endl;
              FileWrite AUDIO_LEVEL_FILE ("0" ++ endl);
              VoskPartialResult;
              FileWrite OUTPUT_TEXT_FILE ("hel" ++ endl);
              VoskAcceptWaveform [x01; x00; x02; x00]]
        /\ audioData (recorder p) = [1; 2]).
Proof.
  split; [reflexivity|].
  split; [intros M R sig p; destruct sig; reflexivity|].
  split; [intros M R V env a t l sig src; destruct sig; reflexivity|].
  split; [intros M R V env a t l src; destruct src; reflexivity|].
  eexists. split; [vm_compute; reflexivity|]. split; reflexivity.
Qed.

(** C8 (reset at session start), as the code behaves.  [initialize]
    resets the publisher only when it succeeds; when the model or the
    recognizer cannot be built it writes nothing.  With no model
    installed [main] still records: the session of two chunks returns 0,
    saves its four samples, and leaves in the text file the words of the
    earlier session; its first write to the level file is the one of the
    second iteration. *)
Theorem reset_skipped_without_recognizer :
  (forall (M R : Type) (V : Vosk M R) (env : Env) (p : @Process M R),
     let '(ok, p') := initialize env p in
     if ok
     then trace p'
          = trace p
            ++ (if openable env OUTPUT_TEXT_FILE
                then [FileWrite OUTPUT_TEXT_FILE endl] else [])
            ++ (if openable env AUDIO_LEVEL_FILE
                then [FileWrite AUDIO_LEVEL_FILE ("0" ++ endl)] else [])
     else trace p' = trace p)
  /\ (forall (env : Env) (p : @Process unit unit),
        fst (@initialize unit unit no_model env p) = false)
  /\ (exists p,
        @main unit unit no_model (session two_chunks) = Returned 0 p
        /\ audioData (recorder p) = [1; 2; 3; 4]
        /\ file_content (session two_chunks) p OUTPUT_TEXT_FILE
           = Some ("words of an earlier session" ++ endl)%string
        /\ hd_error (trace p)
           = Some (FileWrite AUDIO_LEVEL_FILE ("0" ++ endl))
        /\ List.length (trace p) = 3%nat).
Proof.
  split.
  - intros M R V env p. unfold initialize. cbv zeta.
    destruct (match vosk_model_new _ with Some _ => _ | None => _ end)
      as [m |]; [|reflexivity].
    destruct (vosk_recognizer_new m 16000); [|reflexivity].
    unfold clearFiles. rewrite !writeToFile_trace.
    cbn [update set_recorder trace]. now rewrite <- app_assoc.
  - split.
    + intros env p. unfold initialize. cbv zeta.
      cbn [vosk_model_new no_model]. destruct (negb _); reflexivity.
    + eexists. split; [vm_compute; reflexivity|].
      split; [reflexivity|]. split; [vm_compute; reflexivity|].
      split; reflexivity.
Qed.

(** C9 (transient chunks), as the code behaves.  [chunkBuffer] receives
    every sample the Sample Buffer receives and is never cleared: when
    the loop returns it holds a second copy of the whole session. *)
Theorem chunkBuffer_keeps_every_sample :
  (forall (M R : Type) (V : Vosk M R) (env : Env)
     (m : option M) (r : option R) (text : string) (t : list Event)
     (src : list SourceEvent),
     match capture env src false
             (mkProcess (mkAudioRecorder true [] m r text) t SIG_DFL SIG_DFL)
             (mkLocals (stack_buffer env) 0 0 []) with
     | Returned l' p' => chunkBuffer l' = audioData (recorder p')
     | _ => True
     end)
  /\ (exists l' p',
        @capture unit nat scripted (session two_chunks) two_chunks false
          fresh_process fresh_locals
        = Returned l' p'
        /\ chunkBuffer l' = [1; 2; 3; 4]
        /\ audioData (recorder p') = [1; 2; 3; 4]).
Proof.
  split.
  - intros M R V env m r text t src.
    destruct (capture_invariant env src false
                (mkProcess (mkAudioRecorder true [] m r text) t
                   SIG_DFL SIG_DFL)
                (mkLocals (stack_buffer env) 0 0 []))
      as (k & B1 & B2 & _);
      [left; reflexivity | left; reflexivity | cbn; lia |].
    cbv zeta in B1, B2.
    destruct (capture env src false _ _) as [l' p' | |]; [|exact I | exact I].
    destruct (B2 l' p' eq_refl) as [C _]. cbn in C, B1. congruence.
  - eexists _, _. split; [vm_compute; reflexivity|]. split; reflexivity.
Qed.

(** ** More on the Loudness Estimator *)

Lemma int32_add_l (a b : Z) : int32 (int32 a + b) = int32 (a + b).
Proof.
  unfold int32, wrap_signed.
  replace ((a + 2 ^ (32 - 1)) mod 2 ^ 32 - 2 ^ (32 - 1) + b + 2 ^ (32 - 1))
    with ((a + 2 ^ (32 - 1)) mod 2 ^ 32 + b) by lia.
  rewrite Zplus_mod_idemp_l. do 2 f_equal. lia.
Qed.

Lemma fold_abs_wrap (samples : list Z) : forall acc,
  fold_left (fun sum s => int32 (sum + Z.abs s)) samples (int32 acc)
  = int32 (acc + total_abs samples).
Proof.
  induction samples as [| s l IH]; intros acc.
  - cbn. f_equal. lia.
  - cbn [fold_left total_abs fold_right]. fold (total_abs l).
    rewrite int32_add_l, IH. f_equal. lia.
Qed.

Lemma sum_abs_wrap (samples : list Z) :
  sum_abs samples = int32 (total_abs samples).
Proof.
  unfold sum_abs. change 0 with (int32 0) at 1. apply fold_abs_wrap.
Qed.

Lemma total_abs_permutation (l l' : list Z) :
  Permutation l l' -> total_abs l = total_abs l'.
Proof.
  induction 1; cbn [total_abs fold_right]; fold total_abs in *;
    unfold total_abs in *; cbn [fold_right]; lia.
Qed.

Lemma total_abs_opp (l : list Z) : total_abs (map Z.opp l) = total_abs l.
Proof.
  induction l as [| s l IH]; [reflexivity|].
  cbn [map total_abs fold_right]. fold (total_abs (map Z.opp l)).
  fold (total_abs l). rewrite IH, Z.abs_opp. reflexivity.
Qed.

Lemma calculateAudioLevel_total (l l' : list Z) :
  List.length l = List.length l' -> total_abs l = total_abs l' ->
  calculateAudioLevel l = calculateAudioLevel l'.
Proof.
  intros HL HT. unfold calculateAudioLevel.
  rewrite !sum_abs_wrap, HL, HT. reflexivity.
Qed.

(** X1 (calculateAudioLevel, order and sign).  The level of a chunk does
    not depend on the order of its samples nor on their signs: a chunk,
    any rearrangement of it and its inversion get the same level.  This
    holds for every list of integers, whatever its length, also where
    the 32-bit sum wraps around. *)
Theorem calculateAudioLevel_order_and_sign (l l' : list Z) :
  Permutation l l' ->
  calculateAudioLevel l' = calculateAudioLevel l
  /\ calculateAudioLevel (rev l) = calculateAudioLevel l
  /\ calculateAudioLevel (map Z.opp l) = calculateAudioLevel l.
Proof.
  intros P. repeat split.
  - apply calculateAudioLevel_total.
    + symmetry. apply Permutation_length, P.
    + symmetry. apply total_abs_permutation, P.
  - apply calculateAudioLevel_total.
    + apply length_rev.
    + apply total_abs_permutation, Permutation_sym, Permutation_rev.
  - apply calculateAudioLevel_total.
    + apply length_map.
    + apply total_abs_opp.
Qed.

Lemma calculateAudioLevel_order_and_sign_witness :
  calculateAudioLevel [-200; 30000; 7] = calculateAudioLevel [7; -200; 30000]
  /\ calculateAudioLevel (rev [7; -200; 30000])
     = calculateAudioLevel [7; -200; 30000]
  /\ calculateAudioLevel (map Z.opp [7; -200; 30000])
     = calculateAudioLevel [7; -200; 30000].
Proof.
  apply (calculateAudioLevel_order_and_sign [7; -200; 30000]
           [-200; 30000; 7]).
  apply (Permutation_cons_app [-200; 30000] [] 7).
  apply Permutation_refl.
Defined.

(** X2 (calculateAudioLevel, thresholds).  For a non-empty chunk of at
    most 65535 signed 16-bit samples the level reaches [k] (from 0 to
    10) exactly when the mean magnitude reaches [k] tenths of 32767,
    that is when [10 * total >= k * 32767 * N].  So level 10 needs a
    mean magnitude of at least 32767: a chunk whose samples all have a
    magnitude below 32767 stays below 10. *)
Theorem calculateAudioLevel_threshold (samples : list Z) (k : Z) :
  Forall int16 samples ->
  samples <> [] ->
  Z.of_nat (List.length samples) <= 65535 ->
  0 <= k <= 10 ->
  (k <= calculateAudioLevel samples
   <-> k * 32767 * Z.of_nat (List.length samples)
       <= 10 * total_abs samples)
  /\ (Forall (fun s => Z.abs s < 32767) samples ->
      calculateAudioLevel samples < 10).
Proof.
  intros HF HE HN Hk.
  pose proof (total_abs_bounds samples HF) as B.
  assert (HP : 0 < Z.of_nat (List.length samples)).
  { destruct samples; [contradiction | cbn [List.length]; lia]. }
  rewrite calculateAudioLevel_eq by assumption.
  rewrite level_of_mean_exact by lia.
  assert (T : Forall (fun s => Z.abs s < 32767) samples ->
              total_abs samples
              <= 32766 * Z.of_nat (List.length samples)).
  { clear. induction 1 as [| s l Hs _ IH]; [cbn; lia|].
    cbn [total_abs fold_right List.length]. fold (total_abs l). lia. }
  set (N := Z.of_nat (List.length samples)) in *.
  set (t := total_abs samples) in *.
  assert (Hd : 0 < N * 32767) by lia.
  assert (Q : forall j, j <= t * 10 / (N * 32767) <-> j * 32767 * N <= 10 * t).
  { intros j. split; intros H.
    - pose proof (Z.mul_div_le (t * 10) (N * 32767) Hd).
      assert (N * 32767 * j <= N * 32767 * (t * 10 / (N * 32767)))
        by (apply Z.mul_le_mono_nonneg_l; lia).
      lia.
    - apply Z.div_le_lower_bound; lia. }
  split.
  - rewrite <- Q. lia.
  - intros HX. specialize (T HX).
    assert (~ 10 <= t * 10 / (N * 32767)); [|lia].
    rewrite Q. lia.
Qed.

Lemma calculateAudioLevel_threshold_witness :
  (10 <= calculateAudioLevel [32767; -32768]
   <-> 10 * 32767 * Z.of_nat (List.length [32767; -32768])
       <= 10 * total_abs [32767; -32768])
  /\ (Forall (fun s => Z.abs s < 32767) [32767; -32768] ->
      calculateAudioLevel [32767; -32768] < 10).
Proof.
  apply (calculateAudioLevel_threshold [32767; -32768] 10).
  - repeat constructor; unfold int16; lia.
  - discriminate.
  - cbn; lia.
  - lia.
Defined.

(** ** More on the WAV Encoder *)

Lemma byte_of_Z_mod (z : Z) : byte_of_Z (z mod 256) = byte_of_Z z.
Proof. unfold byte_of_Z. rewrite Z.mod_mod by lia. reflexivity. Qed.

Lemma uint16_wrap_signed (v : Z) :
  0 <= v < 65536 -> uint16 (wrap_signed 16 v) = v.
Proof.
  intros H. unfold uint16, wrap_unsigned, wrap_signed.
  change (2 ^ (16 - 1)) with 32768. change (2 ^ 16) with 65536.
  rewrite Zminus_mod_idemp_l.
  replace (v + 32768 - 32768) with v by lia. apply Z.mod_small, H.
Qed.

Lemma sample_bytes_of_bytes (lo hi : byte) :
  sample_bytes (int16_of_bytes lo hi) = [lo; hi].
Proof.
  pose proof (byte_val_range lo) as Hlo. pose proof (byte_val_range hi) as Hhi.
  unfold sample_bytes, int16_of_bytes.
  rewrite uint16_wrap_signed by (cbn [le_value]; lia).
  cbn [le_bytes le_value].
  replace (byte_val lo + 256 * (byte_val hi + 256 * 0))
    with (byte_val lo + byte_val hi * 256) by lia.
  rewrite <- (byte_of_Z_mod (byte_val lo + byte_val hi * 256)).
  rewrite Z.mod_add, Z.mod_small by lia.
  rewrite Z.div_add, Z.div_small by lia.
  cbn [Z.add]. rewrite !byte_of_Z_val. reflexivity.
Qed.

Lemma kept_cons2 (lo hi : byte) (rest : list byte) :
  kept (lo :: hi :: rest) = lo :: hi :: kept rest.
Proof.
  unfold kept. cbn [List.length].
  replace (S (S (List.length rest))) with (List.length rest + 1 * 2)%nat
    by lia.
  rewrite Nat.div_add by lia.
  replace (2 * (List.length rest / 2 + 1))%nat
    with (S (S (2 * (List.length rest / 2)))) by lia.
  reflexivity.
Qed.

Lemma data_bytes_decode : forall (n : nat) (bytes : list byte),
  (List.length bytes <= n)%nat ->
  data_bytes (decode_samples bytes) = kept bytes.
Proof.
  induction n as [| n IH]; intros bytes H.
  - destruct bytes; [reflexivity | simpl in H; lia].
  - destruct bytes as [| lo [| hi rest]]; [reflexivity | reflexivity |].
    cbn [decode_samples]. unfold data_bytes. cbn [flat_map].
    rewrite sample_bytes_of_bytes, kept_cons2.
    cbn [app]. do 2 f_equal. apply IH. simpl in H. lia.
Qed.

Lemma data_bytes_app (a b : list Z) :
  data_bytes (a ++ b) = data_bytes a ++ data_bytes b.
Proof. unfold data_bytes. apply flat_map_app. Qed.

Lemma data_bytes_reads (reads : list (list byte)) :
  data_bytes (flat_map decode_samples reads) = flat_map kept reads.
Proof.
  induction reads as [| bytes reads IH]; [reflexivity|].
  cbn [flat_map]. rewrite data_bytes_app, IH.
  rewrite (data_bytes_decode (List.length bytes) bytes (le_n _)).
  reflexivity.
Qed.

Lemma kept_even (bytes : list byte) :
  Nat.even (List.length bytes) = true -> kept bytes = bytes.
Proof.
  intros E. unfold kept.
  apply Nat.even_spec in E. destruct E as [k E]. rewrite E.
  replace (2 * k)%nat with (k * 2)%nat by lia.
  rewrite Nat.div_mul by lia.
  replace (2 * k)%nat with (List.length bytes) by lia.
  apply firstn_all.
Qed.

Lemma skipn_header (N : Z) (data : list byte) :
  skipn 44 (header_bytes (wav_header N) ++ data) = data.
Proof.
  rewrite skipn_app.
  rewrite length_header_bytes by reflexivity.
  rewrite skipn_all2 by (rewrite length_header_bytes by reflexivity; lia).
  reflexivity.
Qed.

(** X3 (saveWAVFile and the capture loop).  What the loop stores of a
    sequence of reads and [saveWAVFile] writes back is the bytes that
    were read: the in-memory bytes of the samples decoded from the reads
    are the reads themselves, each without its dangling byte if its size
    is odd, and that is the data section of the file while the sizes fit
    the 32-bit header.  A stream read in chunks of even size is saved
    byte for byte. *)
Theorem wav_data_is_captured_bytes (reads : list (list byte)) :
  let samples := flat_map decode_samples reads in
  data_bytes samples = flat_map kept reads
  /\ (Z.of_nat (List.length samples) <= 2147483629 ->
      skipn 44 (wav_file samples) = flat_map kept reads)
  /\ (Forall (fun bytes => Nat.even (List.length bytes) = true) reads ->
      flat_map kept reads = List.concat reads).
Proof.
  cbv zeta. split; [apply data_bytes_reads|]. split.
  - intros H. rewrite wav_file_split by assumption.
    rewrite skipn_header. apply data_bytes_reads.
  - induction 1 as [| bytes l E _ IH]; [reflexivity|].
    cbn [flat_map List.concat]. rewrite kept_even by assumption.
    now rewrite IH.
Qed.

Lemma wav_data_is_captured_bytes_witness :
  skipn 44 (wav_file (flat_map decode_samples
                        [[x01; x00; xff; x7f]; [x00; x80; x2a]]))
  = flat_map kept [[x01; x00; xff; x7f]; [x00; x80; x2a]]
  /\ flat_map kept [[x01; x00; xff; x7f]; [x00; x80]]
     = List.concat [[x01; x00; xff; x7f]; [x00; x80]].
Proof.
  split.
  - apply (wav_data_is_captured_bytes
             [[x01; x00; xff; x7f]; [x00; x80; x2a]]).
    vm_compute. discriminate.
  - apply (wav_data_is_captured_bytes [[x01; x00; xff; x7f]; [x00; x80]]).
    repeat constructor.
Defined.

(** X4 (saveWAVFile, any size).  For every sample buffer, of any length,
    the file is consistent with its own header: it is 44 bytes followed
    by as many bytes as the data size field declares, these bytes are an
    initial piece of the buffer's bytes, and the RIFF size field is the
    declared data size plus 36, in 32 bits.  The header never declares
    more data than the buffer holds. *)
Theorem wav_file_matches_its_header (samples : list Z) :
  let file := wav_file samples in
  let declared := field file 40 4 in
  Z.of_nat (List.length file) = 44 + declared
  /\ skipn 44 file = firstn (Z.to_nat declared) (data_bytes samples)
  /\ field file 4 4 = uint32 (36 + declared)
  /\ 0 <= declared <= 2 * Z.of_nat (List.length samples)
  /\ declared = 2 * Z.of_nat (List.length samples) mod 2 ^ 32.
Proof.
  cbv zeta. set (N := Z.of_nat (List.length samples)).
  set (d := uint32 (size_t (N * 2))).
  assert (Hd : 0 <= d < 2 ^ 32).
  { unfold d, uint32, wrap_unsigned. apply Z.mod_pos_bound. lia. }
  assert (Hd2 : d = 2 * N mod 2 ^ 32).
  { unfold d, uint32, size_t, wrap_unsigned.
    replace (N * 2) with (2 * N) by lia.
    apply Z.mod_mod_divide. exists (2 ^ 32). reflexivity. }
  assert (HdN : d <= 2 * N).
  { rewrite Hd2. apply Z.mod_le; lia. }
  assert (F40 : field (wav_file samples) 40 4 = d).
  { unfold wav_file. cbv zeta. fold N.
    rewrite field_app by (rewrite length_header_bytes; [lia | reflexivity ..]).
    unfold field, header_bytes, wav_header.
    cbn [chunkID format subchunk1ID subchunk1Size chunkSize subchunk2Size
         audioFormat numChannels sampleRate byteRate blockAlign bitsPerSample
         subchunk2ID chars list_ascii_of_string map app skipn
         firstn le_bytes].
    fold d. apply field_4; [reflexivity | assumption]. }
  assert (F4 : field (wav_file samples) 4 4 = uint32 (36 + d)).
  { unfold wav_file. cbv zeta. fold N.
    rewrite field_app by (rewrite length_header_bytes; [lia | reflexivity ..]).
    unfold field, header_bytes, wav_header.
    cbn [chunkID format subchunk1ID subchunk1Size chunkSize subchunk2Size
         audioFormat numChannels sampleRate byteRate blockAlign bitsPerSample
         subchunk2ID chars list_ascii_of_string map app skipn
         firstn le_bytes].
    fold d. apply field_4; [reflexivity|].
    unfold uint32, wrap_unsigned. apply Z.mod_pos_bound. lia. }
  rewrite F40, F4.
  assert (W : wav_file samples
              = header_bytes (wav_header N)
                ++ firstn (Z.to_nat d) (data_bytes samples)) by reflexivity.
  split; [| split; [| split; [reflexivity | split; [lia | assumption]]]].
  - rewrite W, length_app, length_header_bytes by reflexivity.
    rewrite length_firstn, length_data_bytes. unfold N in *. lia.
  - rewrite W. apply skipn_header.
Qed.

(** ** More on the Result Extractor *)

Section Extracted.

Local Open Scope string_scope.
Local Open Scope nat_scope.

(** X5 (extractTextFromJson, shape of the result).  Whatever the payload
    is, the text returned is a contiguous piece of it and contains no
    quotation mark: the extractor copies characters of the payload and
    stops a value at the first quotation mark, so of a value with a
    quotation mark inside, escaped or not, only the part before that
    mark is returned. *)
Theorem extracted_text_shape (jsonStr : string) :
  has_char dquote (text_of jsonStr) = false
  /\ (exists before after,
        jsonStr = before ++ text_of jsonStr ++ after)
  /\ (forall value rest,
        has_char dquote value = false ->
        text_of (payload "text" (value ++ quote ++ rest)) = value).
Proof.
  split; [| split].
  - unfold text_of, extractTextFromJson.
    destruct (find jsonStr text_key 0) as [textPos |]; [|reflexivity].
    destruct (find jsonStr ":" textPos) as [colonPos |]; [|reflexivity].
    destruct (find jsonStr quote colonPos) as [startQuote |] eqn:F;
      [|reflexivity].
    destruct (find jsonStr quote (startQuote + 1)) as [endQuote |] eqn:G;
      [|reflexivity].
    apply find_bound in F; [|discriminate].
    rewrite substr_in_range by lia.
    unfold find in G.
    destruct (Nat.leb_spec (startQuote + 1) (String.length jsonStr));
      [|discriminate].
    destruct (find_first quote (drop (startQuote + 1) jsonStr)) as [i |] eqn:E;
      [|discriminate].
    cbn [option_map] in G. injection G as <-.
    apply find_first_char_split in E. destruct E as (a & b & E & L & Hc).
    rewrite substring_drop, E.
    replace (startQuote + 1 + i - startQuote - 1) with (String.length a)
      by lia.
    rewrite substring_append. exact Hc.
  - unfold text_of, extractTextFromJson.
    destruct (find jsonStr text_key 0) as [textPos |];
      [|exists "", jsonStr; reflexivity].
    destruct (find jsonStr ":" textPos) as [colonPos |];
      [|exists "", jsonStr; reflexivity].
    destruct (find jsonStr quote colonPos) as [startQuote |] eqn:F;
      [|exists "", jsonStr; reflexivity].
    destruct (find jsonStr quote (startQuote + 1)) as [endQuote |] eqn:G;
      [|exists "", jsonStr; reflexivity].
    apply find_bound in F; [|discriminate].
    rewrite substr_in_range by lia.
    unfold find in G.
    destruct (Nat.leb_spec (startQuote + 1) (String.length jsonStr));
      [|discriminate].
    destruct (find_first quote (drop (startQuote + 1) jsonStr)) as [i |] eqn:E;
      [|discriminate].
    cbn [option_map] in G. injection G as <-.
    apply find_first_char_split in E. destruct E as (a & b & E & L & Hc).
    rewrite substring_drop, E.
    replace (startQuote + 1 + i - startQuote - 1) with (String.length a)
      by lia.
    rewrite substring_append.
    exists (substring 0 (startQuote + 1) jsonStr), (String dquote b).
    rewrite <- E. symmetry. apply take_drop.
  - intros value rest Hv. unfold text_of.
    replace (payload "text" (value ++ quote ++ rest))
      with ("{ " ++ text_key ++ " " ++ ":" ++ " " ++ quote ++ value ++ quote
            ++ (rest ++ quote ++ " }"))
      by (unfold payload, text_key; right_assoc; reflexivity).
    rewrite extract_value; [reflexivity | | reflexivity | reflexivity | exact Hv].
    intros j Hj. unfold occurs_at.
    destruct j as [| [| j]]; [discriminate | discriminate | simpl in Hj; lia].
Qed.

Lemma extracted_text_shape_witness :
  text_of (payload "text" ("say " ++ quote ++ "hi" ++ quote)) = "say ".
Proof.
  apply (extracted_text_shape "").
  reflexivity.
Defined.

End Extracted.

(** ** More on the State Publisher *)

Section Files.

Context {M R : Type}.
Variable env : Env.

Local Abbreviation Process := (@Process M R).

Local Open Scope string_scope.

Lemma file_content_other (f g content : string) (p : Process) :
  f <> g ->
  file_content env (writeToFile env f content p) g = file_content env p g.
Proof.
  intros N. unfold writeToFile. destruct (openable env f); [|reflexivity].
  unfold file_content, emit. cbn [trace]. rewrite file_after_app.
  cbn [file_after]. apply String.eqb_neq in N. now rewrite N.
Qed.

Lemma writePartialText_recorder (text : string) (p : Process) :
  recorder (writePartialText env text p) = recorder p.
Proof.
  unfold writePartialText. destruct (empty text); [reflexivity|].
  apply writeToFile_recorder.
Qed.

Lemma writeRecognizedText_after (text : string) (p q : Process) :
  recorder q = recorder p ->
  recorder (writeRecognizedText env text q)
  = recorder (writeRecognizedText env text p).
Proof.
  intros E. unfold writeRecognizedText. destruct (empty text); [exact E|].
  rewrite !writeToFile_recorder, E.
  destruct (negb (empty (accumulatedText (recorder p))));
    unfold update, set_recorder; cbn [recorder]; rewrite ?E; reflexivity.
Qed.

(** X6 (writePartialText).  A partial text replaces the content of the
    text file by itself alone: while it is shown the transcript is not
    in the file.  It changes nothing in the recorder and nothing in the
    level file, and the next recognised segment publishes the transcript
    exactly as if the partial text had never been shown. *)
Theorem partial_text_is_transient (partialText text : string) (p : Process) :
  openable env OUTPUT_TEXT_FILE = true ->
  partialText <> "" ->
  text <> "" ->
  let shown := writePartialText env partialText p in
  recorder shown = recorder p
  /\ file_content env shown OUTPUT_TEXT_FILE = Some (partialText ++ endl)
  /\ file_content env shown AUDIO_LEVEL_FILE
     = file_content env p AUDIO_LEVEL_FILE
  /\ recorder (writeRecognizedText env text shown)
     = recorder (writeRecognizedText env text p)
  /\ file_content env (writeRecognizedText env text shown) OUTPUT_TEXT_FILE
     = file_content env (writeRecognizedText env text p) OUTPUT_TEXT_FILE.
Proof.
  intros Hopen Hp Ht. cbv zeta.
  assert (E : empty partialText = false).
  { destruct partialText; [contradiction | reflexivity]. }
  split; [apply writePartialText_recorder|].
  split.
  { unfold writePartialText. rewrite E. now apply writeToFile_content. }
  split.
  { unfold writePartialText. rewrite E. apply file_content_other.
    discriminate. }
  split.
  { apply writeRecognizedText_after, writePartialText_recorder. }
  rewrite !writeRecognizedText_file by assumption.
  rewrite (writeRecognizedText_after text p (writePartialText env partialText p))
    by apply writePartialText_recorder.
  reflexivity.
Qed.

(** X7 (the two files of the State Publisher).  The text file and the
    level file are independent: a level update leaves the text file as
    it is, publishing a text leaves the level file as it is.  A level
    update that can open the file leaves [std::to_string(level)] and a
    line end in it; a file that cannot be opened keeps its content, and
    the failure goes unnoticed. *)
Theorem publisher_files_are_independent (text : string) (level : Z)
  (p : Process) :
  file_content env (writeAudioLevel env level p) OUTPUT_TEXT_FILE
  = file_content env p OUTPUT_TEXT_FILE
  /\ file_content env (writePartialText env text p) AUDIO_LEVEL_FILE
     = file_content env p AUDIO_LEVEL_FILE
  /\ file_content env (writeRecognizedText env text p) AUDIO_LEVEL_FILE
     = file_content env p AUDIO_LEVEL_FILE
  /\ recorder (writeAudioLevel env level p) = recorder p
  /\ (openable env AUDIO_LEVEL_FILE = true ->
      file_content env (writeAudioLevel env level p) AUDIO_LEVEL_FILE
      = Some (to_string level ++ endl))
  /\ (openable env AUDIO_LEVEL_FILE = false ->
      writeAudioLevel env level p = p)
  /\ (openable env OUTPUT_TEXT_FILE = false ->
      writePartialText env text p = p
      /\ trace (writeRecognizedText env text p) = trace p).
Proof.
  split; [apply file_content_other; discriminate|].
  split.
  { unfold writePartialText. destruct (empty text); [reflexivity|].
    apply file_content_other. discriminate. }
  split.
  { unfold writeRecognizedText. destruct (empty text); [reflexivity|].
    rewrite file_content_other by discriminate.
    destruct (negb (empty (accumulatedText (recorder p)))); reflexivity. }
  split; [apply writeToFile_recorder|].
  split; [intros H; now apply writeToFile_content|].
  split.
  { intros H. unfold writeAudioLevel, writeToFile. now rewrite H. }
  intros H. split.
  - unfold writePartialText, writeToFile. rewrite H.
    destruct (empty text); reflexivity.
  - unfold writeRecognizedText, writeToFile. rewrite H.
    destruct (empty text); [reflexivity|].
    destruct (negb (empty (accumulatedText (recorder p)))); reflexivity.
Qed.

End Files.

Lemma partial_text_is_transient_witness :
  file_content (session []) (writePartialText (session []) "hel" fresh_process)
    OUTPUT_TEXT_FILE = Some ("hel" ++ endl)%string
  /\ file_content (session [])
       (writeRecognizedText (session []) "hello"
          (writePartialText (session []) "hel" fresh_process))
       OUTPUT_TEXT_FILE
     = file_content (session [])
         (writeRecognizedText (session []) "hello" fresh_process)
         OUTPUT_TEXT_FILE.
Proof.
  assert (H1 : openable (session []) OUTPUT_TEXT_FILE = true) by reflexivity.
  assert (H2 : "hel"%string <> ""%string) by discriminate.
  assert (H3 : "hello"%string <> ""%string) by discriminate.
  pose proof (partial_text_is_transient (session []) "hel" "hello"
                fresh_process H1 H2 H3) as C.
  cbv zeta in C. split; apply C.
Defined.

Lemma publisher_files_are_independent_witness :
  file_content (session []) (writeAudioLevel (session []) 4 fresh_process)
    AUDIO_LEVEL_FILE = Some ("4" ++ endl)%string.
Proof.
  change "4"%string with (to_string 4).
  apply (publisher_files_are_independent (session []) "" 4 fresh_process).
  reflexivity.
Defined.

(** ** The monitor of the default sink *)

Section Monitor.

Variable env : Env.

Local Open Scope string_scope.

Lemma pop_newline_endl (s : string) : pop_newline (s ++ endl) = s.
Proof.
  induction s as [| c s IH]; [reflexivity|].
  cbn [append pop_newline]. rewrite IH.
  destruct s; reflexivity.
Qed.

Lemma pop_newline_other (s : string) (c : ascii) :
  c <> ascii_of_nat 10 ->
  pop_newline (s ++ String c "") = s ++ String c "".
Proof.
  intros N. induction s as [| x s IH].
  - cbn [append pop_newline]. apply Ascii.eqb_neq in N. now rewrite N.
  - cbn [append pop_newline]. rewrite IH.
    destruct s; reflexivity.
Qed.

(** X8 (getSystemAudioMonitor).  The result is empty exactly when no
    line could be read from the [pactl] pipeline.  A line that was read
    loses its final line feed, if it has one, and gets [.monitor]
    appended; so a line that is empty, or a line feed alone, gives the
    device name [.monitor], which is not empty. *)
Theorem getSystemAudioMonitor_contract :
  (empty (getSystemAudioMonitor env) = true
   <-> default_sink_line env = None)
  /\ (forall name,
        default_sink_line env = Some (name ++ endl) ->
        getSystemAudioMonitor env = name ++ ".monitor")
  /\ (forall name c,
        c <> ascii_of_nat 10 ->
        default_sink_line env = Some (name ++ String c "") ->
        getSystemAudioMonitor env = name ++ String c ".monitor")
  /\ (default_sink_line env = Some "" \/ default_sink_line env = Some endl ->
      getSystemAudioMonitor env = ".monitor").
Proof.
  unfold getSystemAudioMonitor.
  split; [| split; [| split]].
  - destruct (default_sink_line env) as [line |]; [|split; reflexivity].
    split; [|discriminate].
    intros H. apply empty_iff in H.
    destruct (pop_newline line); discriminate.
  - intros name ->. now rewrite pop_newline_endl.
  - intros name c N ->. rewrite pop_newline_other by assumption.
    rewrite append_assoc. reflexivity.
  - intros [-> | ->]; reflexivity.
Qed.

End Monitor.

Lemma getSystemAudioMonitor_contract_witness :
  getSystemAudioMonitor
    (system_session (Some ("alsa_output.pci.analog-stereo" ++ endl)%string) [])
  = ("alsa_output.pci.analog-stereo" ++ ".monitor")%string
  /\ getSystemAudioMonitor (system_session (Some endl) []) = ".monitor"%string.
Proof.
  split.
  - destruct (getSystemAudioMonitor_contract
                (system_session
                   (Some ("alsa_output.pci.analog-stereo" ++ endl)%string) []))
      as (_ & Line & _).
    apply Line. reflexivity.
  - destruct (getSystemAudioMonitor_contract (system_session (Some endl) []))
      as (_ & _ & _ & Empty).
    apply Empty. right. reflexivity.
Defined.

(** ** What a session adds *)

Section Continue.

Context {M R : Type} `{V : Vosk M R}.
Variable env : Env.

Local Abbreviation Process := (@Process M R).

Lemma since_app {A : Type} (t new : list A) :
  skipn (List.length t) (t ++ new) = new.
Proof.
  rewrite skipn_app, skipn_all, Nat.sub_diag. reflexivity.
Qed.

Lemma continues_intro (allowed : Event -> Prop) (p p' : Process)
  (new : list Event) (samples : list Z) (text : string) :
  trace p' = trace p ++ new ->
  audioData (recorder p') = audioData (recorder p) ++ samples ->
  accumulatedText (recorder p')
  = (accumulatedText (recorder p) ++ text)%string ->
  Forall allowed new ->
  model (recorder p') = model (recorder p) ->
  running (recorder p') = running (recorder p) ->
  on_sigint p' = on_sigint p ->
  on_sigterm p' = on_sigterm p ->
  (rec (recorder p) = None <-> rec (recorder p') = None) ->
  List.concat (accept_args new)
  = match rec (recorder p) with
    | Some _ => data_bytes samples
    | None => []
    end ->
  (rec (recorder p) = None -> text = ""%string /\ Forall quiet new) ->
  continues allowed p p'.
Proof.
  intros Ht Ha Hx Hall Hm Hr H1 H2 Hrec Hacc Hnone.
  assert (E : events_since p p' = new).
  { unfold events_since. rewrite Ht. apply since_app. }
  assert (S : samples_since p p' = samples).
  { unfold samples_since. rewrite Ha. apply since_app. }
  unfold continues. rewrite E, S.
  repeat (split; [assumption|]).
  split; [exists text; assumption|].
  repeat (split; [assumption|]).
  intros N. destruct (Hnone N) as [-> Q]. split; [|exact Q].
  rewrite Hx. clear. induction (accumulatedText (recorder p)) as [| c s IH];
    [reflexivity | cbn; now rewrite IH].
Qed.

Lemma continues_refl (allowed : Event -> Prop) (p : Process) :
  continues allowed p p.
Proof.
  apply (continues_intro allowed p p [] [] ""%string).
  - now rewrite app_nil_r.
  - now rewrite app_nil_r.
  - clear. induction (accumulatedText (recorder p)) as [| c s IH];
      [reflexivity | cbn; now rewrite <- IH].
  - constructor.
  - reflexivity.
  - reflexivity.
  - reflexivity.
  - reflexivity.
  - tauto.
  - destruct (rec (recorder p)); reflexivity.
  - intros _. split; [reflexivity | constructor].
Qed.

Lemma continues_trans (allowed : Event -> Prop) (p q r : Process) :
  continues allowed p q -> continues allowed q r -> continues allowed p r.
Proof.
  intros (T1 & A1 & D1 & (x1 & X1) & M1 & R1 & I1 & J1 & C1 & F1 & N1)
         (T2 & A2 & D2 & (x2 & X2) & M2 & R2 & I2 & J2 & C2 & F2 & N2).
  apply (continues_intro allowed p r
           (events_since p q ++ events_since q r)
           (samples_since p q ++ samples_since q r)
           (x1 ++ x2)%string).
  - rewrite T2, T1, app_assoc. reflexivity.
  - rewrite D2, D1, app_assoc. reflexivity.
  - rewrite X2, X1, append_assoc. reflexivity.
  - apply Forall_app. split; assumption.
  - congruence.
  - congruence.
  - congruence.
  - congruence.
  - tauto.
  - unfold accept_args in *. rewrite flat_map_app, concat_app, F1, F2.
    destruct (rec (recorder p)) as [r0 |] eqn:Ep.
    + destruct (rec (recorder q)) as [r1 |] eqn:Eq.
      * now rewrite data_bytes_app.
      * destruct C1 as [_ C1]. specialize (C1 eq_refl). discriminate.
    + destruct (rec (recorder q)) as [r1 |] eqn:Eq; [|reflexivity].
      destruct C1 as [C1 _]. specialize (C1 eq_refl). discriminate.
  - intros N. destruct (N1 N) as [Y1 Q1].
    assert (Nq : rec (recorder q) = None) by tauto.
    destruct (N2 Nq) as [Y2 Q2]. split.
    + assert (L : String.length (accumulatedText (recorder p) ++ x1 ++ x2)
                  = String.length (accumulatedText (recorder p))).
      { rewrite <- append_assoc, <- X1, <- X2. congruence. }
      rewrite !length_append in L.
      destruct x1; [|simpl in L; lia]. destruct x2; [|simpl in L; lia].
      reflexivity.
    + apply Forall_app. split; assumption.
Qed.

Lemma continues_weaken (A B : Event -> Prop) (p q : Process) :
  (forall e, A e -> B e) -> continues A p q -> continues B p q.
Proof.
  intros W (T1 & A1 & Rest). split; [exact T1|]. split; [|exact Rest].
  eapply Forall_impl; [exact W | exact A1].
Qed.

Lemma append_empty_r (s : string) : (s ++ "")%string = s.
Proof. induction s as [| c s IH]; [reflexivity | cbn; now rewrite IH]. Qed.

Ltac publish :=
  unfold writePartialText, writeRecognizedText, writeAudioLevel, writeToFile;
  repeat match goal with
         | |- context [if ?b then _ else _] => destruct b eqn:?
         end.

Lemma iteration_continues (bytes : list byte) (p p' : Process)
  (l l' : Locals) :
  iteration env bytes p l = Some (p', l') -> continues in_loop p p'.
Proof.
  pose proof (iteration_unfold env bytes p l) as U. cbv zeta in U.
  rewrite U. clear U.
  fold (kept bytes).
  pose proof (data_bytes_decode (List.length bytes) bytes (le_n _)) as K.
  set (samples := decode_samples bytes) in *.
  set (p1 := update (fun a => set_audioData (audioData a ++ samples) a) p).
  destruct (rec (recorder p)) as [r |] eqn:Hr.
  - assert (Hr2 : forall q, recorder q = recorder p1 -> rec (recorder q) = Some r).
    { intros q ->. destruct p as [[]]. exact Hr. }
    match goal with
    | |- match recognize env _ ?q with _ => _ end = _ -> _ => set (p2 := q)
    end.
    assert (H2 : rec (recorder p2) = Some r).
    { apply Hr2. unfold p2. destruct (Z.rem _ 2 =? 0); [|reflexivity].
      apply writeToFile_recorder. }
    pose proof (recognize_unfold env (kept bytes) p2 r H2) as U.
    destruct (vosk_recognizer_partial_result r) as [r1 partialResult].
    destruct (vosk_recognizer_accept_waveform r1 (kept bytes)) as [r2 accepted].
    destruct (vosk_recognizer_result r2) as [r3 result].
    cbv zeta in U. rewrite U. clear U. intros [= <- _].
    unfold p2, p1. clear p2 H2 Hr2 p1.
    destruct p as [[run data m r0 acc] t i1 i2]. cbn in Hr. subst r0.
    publish.
    all: cbn [trace recorder audioData emit update set_recorder set_rec
              set_audioData set_accumulatedText accumulatedText model rec
              running on_sigint on_sigterm].
    all: clearbody samples.
    all: eapply (continues_intro in_loop _ _ _ samples _);
      cbn [trace recorder audioData emit update set_recorder set_rec
           set_audioData set_accumulatedText accumulatedText model rec
           running on_sigint on_sigterm];
      [ rewrite <- ?app_assoc; reflexivity
      | reflexivity
      | first [ reflexivity | symmetry; apply append_empty_r
              | rewrite append_assoc; reflexivity ]
      | repeat constructor
      | reflexivity | reflexivity | reflexivity | reflexivity
      | split; discriminate
      | cbn; rewrite app_nil_r; symmetry; exact K
      | discriminate ].
  - unfold p1. clear p1.
    destruct p as [[run data m r0 acc] t i1 i2]. cbn in Hr. subst r0.
    clearbody samples.
    unfold recognize, writeAudioLevel, writeToFile.
    repeat match goal with
           | |- context [if ?b then _ else _] => destruct b eqn:?
           end.
    all: cbn [trace recorder audioData emit update set_recorder set_rec
              set_audioData set_accumulatedText accumulatedText model rec
              running on_sigint on_sigterm].
    all: intros [= <- _].
    all: eapply (continues_intro in_loop _ _ _ samples ""%string);
      cbn [trace recorder audioData emit update set_recorder set_rec
           set_audioData set_accumulatedText accumulatedText model rec
           running on_sigint on_sigterm];
      [ first [ reflexivity | symmetry; apply app_nil_r ]
      | reflexivity
      | symmetry; apply append_empty_r
      | repeat constructor
      | reflexivity | reflexivity | reflexivity | reflexivity
      | tauto
      | reflexivity
      | intros _; split; [reflexivity | repeat constructor] ].
Qed.

Lemma capture_cases (src : list SourceEvent) :
  forall (in_read : bool) (p : Process) (l : Locals),
  installed_by_program (on_sigint p) ->
  installed_by_program (on_sigterm p) ->
  (exists l' q, capture env src in_read p l = Returned l' q
                /\ continues in_loop p q)
  \/ (exists sig q, capture env src in_read p l = Killed sig q
                    /\ continues in_loop p q).
Proof.
  induction src as [| e src IH]; intros b p l Hi Ht; cbn [capture].
  - left. exists l, p.
    destruct (negb b && negb (running (recorder p)));
      (split; [reflexivity | apply continues_refl]).
  - destruct (negb b && negb (running (recorder p))).
    { left. exists l, p. split; [reflexivity | apply continues_refl]. }
    destruct e as [bytes | sig].
    + destruct (List.length bytes =? 0)%nat.
      { left. exists l, p. split; [reflexivity | apply continues_refl]. }
      destruct (iteration_spec env bytes p l)
        as (p' & E & _ & _ & S1 & S2 & _).
      rewrite E.
      pose proof (iteration_continues bytes p p' l _ E) as C.
      rewrite <- S1 in Hi. rewrite <- S2 in Ht.
      destruct (IH false p' (mkLocals (fread_into (buffer l) bytes)
                  (size_t (totalBytes l
                           + 2 * Z.of_nat (List.length bytes / 2)))
                  (int32 (updateCounter l + 1))
                  (chunkBuffer l ++ decode_samples bytes)) Hi Ht)
        as [(l2 & q & K & Q) | (sg & q & K & Q)]; rewrite K.
      * left. exists l2, q. split; [reflexivity|].
        eapply continues_trans; eassumption.
      * right. exists sg, q. split; [reflexivity|].
        eapply continues_trans; eassumption.
    + destruct (deliver_cases sig p Hi Ht) as [D | D]; rewrite D.
      * right. exists sig, p. split; [reflexivity | apply continues_refl].
      * apply IH; assumption.
Qed.

Lemma events_since_eq (p p' : Process) (new : list Event) :
  trace p' = trace p ++ new -> events_since p p' = new.
Proof. intros H. unfold events_since. rewrite H. apply since_app. Qed.

End Continue.

(** ** After the loop, and the whole of [record] *)

Section Record.

Context {M R : Type} `{V : Vosk M R}.
Variable env : Env.

Local Abbreviation Process := (@Process M R).

Ltac fields :=
  cbn [trace recorder audioData emit update set_recorder set_rec
       set_audioData set_accumulatedText accumulatedText model rec
       running on_sigint on_sigterm].

Lemma text_not_level :
  String.eqb OUTPUT_TEXT_FILE AUDIO_LEVEL_FILE = false.
Proof. reflexivity. Qed.

Ltac bools :=
  repeat match goal with
         | |- context [if ?b then _ else _] =>
             lazymatch type of b with bool => destruct b eqn:? end
         end.

Lemma finish_effect (outputFilename : string) (p : Process) :
  exists p',
    finish env outputFilename p = Returned true p'
    /\ continues (fun _ => True) p p'
    /\ samples_since p p' = []
    /\ binary_writes (events_since p p')
       = match audioData (recorder p) with
         | [] => []
         | _ :: _ =>
             if openable env outputFilename
             then [(outputFilename, wav_file (audioData (recorder p)))]
             else []
         end
    /\ vosk_calls (events_since p p')
       = match rec (recorder p) with
         | Some _ => [VoskFinalResult]
         | None => []
         end
    /\ level_writes (events_since p p')
       = (if openable env AUDIO_LEVEL_FILE
          then [(to_string 0 ++ endl)%string] else []).
Proof.
  unfold finish.
  destruct (rec (recorder p)) as [r |] eqn:Hr.
  - destruct (vosk_recognizer_final_result r) as [r1 finalResult].
    rewrite extract_text_of, guarded_final.
    eexists. split; [reflexivity|].
    destruct p as [[run data m r0 acc] t i1 i2]. cbn in Hr. subst r0.
    unfold writeRecognizedText, writeAudioLevel, saveWAVFile, writeToFile.
    destruct data as [| s data].
    all: bools.
    all: fields.
    all: bools.
    all: fields.
    all: split;
      [ eapply (continues_intro _ _ _ _ [] _); fields;
        [ rewrite <- ?app_assoc; reflexivity
        | symmetry; apply app_nil_r
        | first [ symmetry; apply append_empty_r
                | rewrite append_assoc; reflexivity
                | reflexivity ]
        | repeat constructor
        | reflexivity | reflexivity | reflexivity | reflexivity
        | split; discriminate
        | reflexivity
        | discriminate ]
      | split; [unfold samples_since; fields; apply skipn_all|] ].
    all: erewrite !events_since_eq
      by (fields; rewrite <- ?app_assoc; reflexivity).
    all: unfold binary_writes, vosk_calls, level_writes.
    all: cbn [flat_map filter app is_vosk_call].
    all: rewrite ?String.eqb_refl, ?text_not_level.
    all: cbn [app].
    all: repeat split.
  - eexists. split; [reflexivity|].
    destruct p as [[run data m r0 acc] t i1 i2]. cbn in Hr. subst r0.
    unfold writeAudioLevel, saveWAVFile, writeToFile.
    destruct data as [| s data].
    all: bools.
    all: fields.
    all: bools.
    all: fields.
    all: split;
      [ eapply (continues_intro _ _ _ _ [] ""%string); fields;
        [ first [ rewrite <- ?app_assoc; reflexivity
                | symmetry; apply app_nil_r ]
        | symmetry; apply app_nil_r
        | symmetry; apply append_empty_r
        | repeat constructor
        | reflexivity | reflexivity | reflexivity | reflexivity
        | tauto
        | reflexivity
        | intros _; split; [reflexivity | repeat constructor] ]
      | split; [unfold samples_since; fields; apply skipn_all|] ].
    all: erewrite !events_since_eq
      by (fields; first [ rewrite <- ?app_assoc; reflexivity
                        | symmetry; apply app_nil_r ]).
    all: unfold binary_writes, vosk_calls, level_writes.
    all: cbn [flat_map filter app is_vosk_call].
    all: rewrite ?String.eqb_refl, ?text_not_level.
    all: cbn [app].
    all: repeat split.
Qed.


Lemma finish_returns (outputFilename : string) (p p' : Process) (ok : bool) :
  finish env outputFilename p = Returned ok p' -> ok = true.
Proof.
  destruct (finish_effect outputFilename p) as (q & E & _).
  rewrite E. now intros [= <- _].
Qed.

Lemma record_cases (mode : Z) (p : Process) :
  installed_by_program (on_sigint p) ->
  installed_by_program (on_sigterm p) ->
  record env mode p = Returned false p
  \/ (exists sig q, record env mode p = Killed sig q
                    /\ continues in_loop p q)
  \/ (exists q p' outputFilename,
        record env mode p = Returned true p'
        /\ continues in_loop p q
        /\ finish env outputFilename q = Returned true p'
        /\ outputFilename
           = ((if (mode =? 1)%Z then "mikrofon_" else "sistem_sesi_")
              ++ timestamp env ++ ".wav")%string).
Proof.
  intros Hi Ht. unfold record. cbv zeta.
  assert (Run : forall command outputFilename,
    let o := match popen env command with
             | None => Returned false p
             | Some src =>
                 match capture env src false p
                         (mkLocals (stack_buffer env) 0 0 []) with
                 | Returned _ p => finish env outputFilename p
                 | Killed sig p => Killed sig p
                 | Terminated p => Terminated p
                 end
             end in
    o = Returned false p
    \/ (exists sig q, o = Killed sig q /\ continues in_loop p q)
    \/ (exists q p', o = Returned true p'
                     /\ continues in_loop p q
                     /\ finish env outputFilename q = Returned true p')).
  { intros command outputFilename. cbv zeta.
    destruct (popen env command) as [src |]; [|left; reflexivity].
    destruct (capture_cases env src false p
                (mkLocals (stack_buffer env) 0 0 []) Hi Ht)
      as [(l' & q & K & C) | (sig & q & K & C)]; rewrite K.
    - right. right. destruct (finish_effect outputFilename q) as (p' & E & _).
      exists q, p'. split; [exact E | split; [exact C | exact E]].
    - right. left. exists sig, q. split; [reflexivity | assumption]. }
  destruct (mode =? 1) eqn:E1.
  - destruct (Run parec ("mikrofon_" ++ timestamp env ++ ".wav")%string)
      as [F | [K | (q & p' & A & B & C)]]; [now left | now right; left |].
    right. right. exists q, p', ("mikrofon_" ++ timestamp env ++ ".wav")%string.
    split; [exact A | split; [exact B | split; [exact C | reflexivity]]].
  - destruct (mode =? 2); [|left; reflexivity].
    destruct (empty (getSystemAudioMonitor env)); [left; reflexivity|].
    destruct (Run (parec ++ " --device=" ++ getSystemAudioMonitor env)%string
                ("sistem_sesi_" ++ timestamp env ++ ".wav")%string)
      as [F | [K | (q & p' & A & B & C)]]; [now left | now right; left |].
    right. right.
    exists q, p', ("sistem_sesi_" ++ timestamp env ++ ".wav")%string.
    split; [exact A | split; [exact B | split; [exact C | reflexivity]]].
Qed.

Lemma record_continues (mode : Z) (p : Process) :
  installed_by_program (on_sigint p) ->
  installed_by_program (on_sigterm p) ->
  continues (fun _ => True) p (outcome_process (record env mode p)).
Proof.
  intros Hi Ht.
  destruct (record_cases mode p Hi Ht)
    as [E | [(sig & q & E & C) | (q & p' & name & E & C & F & _)]];
    rewrite E; cbn [outcome_process].
  - apply continues_refl.
  - eapply continues_weaken; [|exact C]. trivial.
  - destruct (finish_effect name q) as (p2 & F2 & C2 & _).
    rewrite F in F2. injection F2 as <-.
    eapply continues_trans; [|exact C2].
    eapply continues_weaken; [|exact C]. trivial.
Qed.

Lemma monitor_found :
  empty (getSystemAudioMonitor env) = true <-> default_sink_line env = None.
Proof.
  unfold getSystemAudioMonitor.
  destruct (default_sink_line env) as [line |]; [|split; reflexivity].
  split; [|discriminate].
  intros H. destruct (pop_newline line); discriminate H.
Qed.

(** [record] from the call of [popen] on. *)
Lemma started_false (command outputFilename : string) (p p' : Process) :
  match popen env command with
  | None => Returned false p
  | Some src =>
      match capture env src false p (mkLocals (stack_buffer env) 0 0 []) with
      | Returned _ p => finish env outputFilename p
      | Killed sig p => Killed sig p
      | Terminated p => Terminated p
      end
  end = Returned false p' ->
  popen env command = None /\ p' = p.
Proof.
  destruct (popen env command) as [src |] eqn:P.
  - destruct (capture env src false p _) as [l' q | sig q | q];
      [|discriminate | discriminate].
    intros F. apply finish_returns in F. discriminate.
  - intros [= <-]. split; reflexivity.
Qed.

Lemma record_false (mode : Z) (p p' : Process) :
  record env mode p = Returned false p' ->
  p' = p
  /\ ((mode <> 1 /\ mode <> 2)
      \/ (mode = 2 /\ default_sink_line env = None)
      \/ (mode = 1 /\ popen env parec = None)
      \/ (mode = 2 /\ default_sink_line env <> None
          /\ popen env
               (parec ++ " --device=" ++ getSystemAudioMonitor env)%string
             = None)).
Proof.
  unfold record. cbv zeta.
  destruct (Z.eqb_spec mode 1) as [-> | N1].
  - intros F. apply started_false in F. destruct F as [F ->].
    split; [reflexivity|]. right. right. left. split; [reflexivity | exact F].
  - destruct (Z.eqb_spec mode 2) as [-> | N2].
    2: { intros [= <-]. split; [reflexivity|]. left. split; assumption. }
    destruct (empty (getSystemAudioMonitor env)) eqn:E.
    + intros [= <-]. apply monitor_found in E.
      split; [reflexivity|]. right. left. split; [reflexivity | exact E].
    + intros F. apply started_false in F. destruct F as [F ->].
      split; [reflexivity|]. right. right. right.
      split; [reflexivity|]. split; [|exact F].
      intros D. apply monitor_found in D. rewrite D in E. discriminate.
Qed.

Lemma record_refused (mode : Z) (p : Process) :
  (mode <> 1 /\ mode <> 2)
  \/ (mode = 2 /\ default_sink_line env = None)
  \/ (mode = 1 /\ popen env parec = None)
  \/ (mode = 2 /\ default_sink_line env <> None
      /\ popen env
           (parec ++ " --device=" ++ getSystemAudioMonitor env)%string
         = None) ->
  record env mode p = Returned false p.
Proof.
  unfold record. cbv zeta.
  intros [[N1 N2] | [[-> D] | [[-> P] | (-> & D & P)]]].
  - destruct (Z.eqb_spec mode 1); [contradiction|].
    destruct (Z.eqb_spec mode 2); [contradiction | reflexivity].
  - cbn [Z.eqb Pos.eqb]. apply monitor_found in D. now rewrite D.
  - cbn [Z.eqb Pos.eqb]. now rewrite P.
  - cbn [Z.eqb Pos.eqb].
    destruct (empty (getSystemAudioMonitor env)); [reflexivity|].
    now rewrite P.
Qed.

(** X9 (record, refusal).  [record] returns false without having done
    anything: the recorder and the trace are as before.  It does so
    exactly in four cases: the mode is neither 1 nor 2; the mode is 2
    and no line could be read for the monitor; the mode is 1 and the
    command [parec ...] could not be started; the mode is 2 and the
    command [parec ... --device=<monitor>] could not be started.  Once
    the loop has run, [record] returns true, whatever happened to the
    recognizer or the files. *)
Theorem record_refusal (mode : Z) (p : Process) :
  (forall p', record env mode p = Returned false p' -> p' = p)
  /\ (record env mode p = Returned false p
      <-> (mode <> 1 /\ mode <> 2)
          \/ (mode = 2 /\ default_sink_line env = None)
          \/ (mode = 1 /\ popen env parec = None)
          \/ (mode = 2 /\ default_sink_line env <> None
              /\ popen env
                   (parec ++ " --device="
                    ++ getSystemAudioMonitor env)%string
                 = None))
  /\ (forall outputFilename q,
        exists q', finish env outputFilename q = Returned true q').
Proof.
  split; [| split].
  - intros p' F. apply (record_false mode p p' F).
  - split.
    + intros F. apply (record_false mode p p F).
    + apply record_refused.
  - intros name q. destruct (finish_effect name q) as (q' & E & _).
    now exists q'.
Qed.

(** X10 (record, what it adds).  Whatever the mode, the source and the
    recognizer do, a call of [record] only adds: the outcome continues
    the process it started from, in the sense of [continues].  The trace,
    the sample buffer and the transcript are extended, never cut or
    rewritten; the model, the stop flag and the signal dispositions are
    left alone; without a recognizer the transcript stays as it is and
    only the level file and the WAV file are written; with one, the
    chunks it was given are, concatenated, the bytes of the samples
    added to the buffer. *)
Theorem record_only_adds (mode : Z) (p : Process) :
  installed_by_program (on_sigint p) ->
  installed_by_program (on_sigterm p) ->
  continues (fun _ => True) p (outcome_process (record env mode p)).
Proof. apply record_continues. Qed.

End Record.

Lemma record_refusal_witness :
  record (V := scripted) (session two_chunks) 3 fresh_process
  = Returned false fresh_process.
Proof.
  destruct (record_refusal (V := scripted) (session two_chunks) 3
              fresh_process) as (_ & Iff & _).
  apply Iff. left. split; lia.
Defined.

Lemma record_only_adds_witness :
  continues (fun _ => True) fresh_process
    (outcome_process
       (record (V := scripted) (session two_chunks) 1 fresh_process)).
Proof.
  apply (record_only_adds (V := scripted) (session two_chunks) 1
           fresh_process); left; reflexivity.
Defined.

(** ** Initialization, and whole runs of [main] *)

Section Session.

Context {M R : Type} `{V : Vosk M R}.
Variable env : Env.

Local Abbreviation Process := (@Process M R).

Lemma initialize_effect (p : Process) :
  let p' := snd (initialize env p) in
  model (recorder p') = loaded_model env
  /\ (fst (initialize env p) = true ->
      exists m r,
        loaded_model env = Some m
        /\ vosk_recognizer_new m 16000 = Some r
        /\ rec (recorder p') = Some r
        /\ accumulatedText (recorder p') = ""%string
        /\ trace p'
           = trace p
             ++ (if openable env OUTPUT_TEXT_FILE
                 then [FileWrite OUTPUT_TEXT_FILE endl] else [])
             ++ (if openable env AUDIO_LEVEL_FILE
                 then [FileWrite AUDIO_LEVEL_FILE ("0" ++ endl)] else []))
  /\ (fst (initialize env p) = false ->
      trace p' = trace p
      /\ accumulatedText (recorder p') = accumulatedText (recorder p)
      /\ (loaded_model env = None -> rec (recorder p') = rec (recorder p))
      /\ (forall m, loaded_model env = Some m ->
            vosk_recognizer_new m 16000 = None
            /\ rec (recorder p') = None)).
Proof.
  cbv zeta. unfold initialize, loaded_model. cbv zeta.
  destruct p as [[run data m0 r0 acc] t i1 i2].
  set (path := if empty (readCurrentModelPath env) then MODEL_PATH
               else readCurrentModelPath env).
  assert (Sel : match vosk_model_new path with
                | Some _ => vosk_model_new path
                | None => if negb (String.eqb path MODEL_PATH)
                          then vosk_model_new MODEL_PATH else None
                end
                = match vosk_model_new path with
                  | Some m => Some m
                  | None => if negb (String.eqb path MODEL_PATH)
                            then vosk_model_new MODEL_PATH else None
                  end).
  { destruct (vosk_model_new path); reflexivity. }
  rewrite Sel. clear Sel.
  destruct (match vosk_model_new path with
            | Some m => Some m
            | None => if negb (String.eqb path MODEL_PATH)
                      then vosk_model_new MODEL_PATH else None
            end) as [m |].
  - destruct (vosk_recognizer_new m 16000) as [r |] eqn:N.
    + cbn [fst snd]. split; [|split; [|discriminate]].
      * unfold clearFiles, writeToFile.
        destruct (openable env OUTPUT_TEXT_FILE),
                 (openable env AUDIO_LEVEL_FILE); reflexivity.
      * intros _. exists m, r. split; [reflexivity|]. split; [exact N|].
        unfold clearFiles, writeToFile.
        destruct (openable env OUTPUT_TEXT_FILE),
                 (openable env AUDIO_LEVEL_FILE); cbn;
          rewrite <- ?app_assoc, ?app_nil_r; repeat split.
    + cbn [fst snd]. split; [reflexivity|]. split; [discriminate|].
      intros _. split; [reflexivity|]. split; [reflexivity|].
      split; [discriminate|].
      intros m1 [= <-]. split; [exact N | reflexivity].
  - cbn [fst snd]. split; [reflexivity|]. split; [discriminate|].
    intros _. split; [reflexivity|]. split; [reflexivity|].
    split; [reflexivity | discriminate].
Qed.


Lemma main_unfold :
  main env
  = match record env (choice env)
            (snd (initialize env
                    (mkProcess new_AudioRecorder [] SIG_DFL SIG_DFL))) with
    | Returned ok p => Returned (if ok then 0 else 1) p
    | Killed sig p => Killed sig p
    | Terminated p => Terminated p
    end.
Proof.
  unfold main. destruct (initialize env _). reflexivity.
Qed.

Lemma initialized_dispositions :
  let p := snd (initialize env
                  (mkProcess new_AudioRecorder [] SIG_DFL SIG_DFL)) in
  installed_by_program (on_sigint p)
  /\ installed_by_program (on_sigterm p)
  /\ audioData (recorder p) = []
  /\ running (recorder p) = true.
Proof.
  cbv zeta.
  destruct (initialize_same env
              (mkProcess new_AudioRecorder [] SIG_DFL SIG_DFL))
    as (A & B & C & D).
  rewrite A, B, C, D. repeat split; left; reflexivity.
Qed.

(** The outcomes of [main], with [p0] the process after [initialize]. *)
Lemma main_cases :
  let p0 := snd (initialize env
                   (mkProcess new_AudioRecorder [] SIG_DFL SIG_DFL)) in
  main env = Returned 1 p0
  \/ (exists sig q, main env = Killed sig q /\ continues in_loop p0 q)
  \/ (exists q p' outputFilename,
        main env = Returned 0 p'
        /\ continues in_loop p0 q
        /\ finish env outputFilename q = Returned true p'
        /\ outputFilename
           = ((if (choice env =? 1)%Z then "mikrofon_" else "sistem_sesi_")
              ++ timestamp env ++ ".wav")%string).
Proof.
  cbv zeta. rewrite main_unfold.
  destruct initialized_dispositions as (Hi & Ht & _).
  destruct (record_cases env (choice env) _ Hi Ht)
    as [E | [(sig & q & E & C) | (q & p' & name & E & C & F & N)]];
    rewrite E.
  - left. reflexivity.
  - right. left. exists sig, q. split; [reflexivity | exact C].
  - right. right. exists q, p', name.
    split; [reflexivity|]. split; [exact C|]. split; [exact F | exact N].
Qed.


Lemma binary_writes_app (a b : list Event) :
  binary_writes (a ++ b) = binary_writes a ++ binary_writes b.
Proof. apply flat_map_app. Qed.

Lemma accept_args_app (a b : list Event) :
  accept_args (a ++ b) = accept_args a ++ accept_args b.
Proof. apply flat_map_app. Qed.

Lemma in_loop_events (new : list Event) :
  Forall in_loop new ->
  binary_writes new = [] /\ ~ In VoskFinalResult new.
Proof.
  induction 1 as [| e l He _ [IH1 IH2]]; [split; [reflexivity | intros []]|].
  destruct e; cbn in He; try contradiction;
    (split; [exact IH1 | intros [D | D]; [discriminate | contradiction]]).
Qed.

Lemma initialized_trace :
  let p0 := snd (initialize env
                   (mkProcess new_AudioRecorder [] SIG_DFL SIG_DFL)) in
  binary_writes (trace p0) = []
  /\ vosk_calls (trace p0) = []
  /\ accept_args (trace p0) = [].
Proof.
  cbv zeta.
  destruct (initialize_effect (mkProcess new_AudioRecorder [] SIG_DFL SIG_DFL))
    as (_ & Ok & Ko).
  cbv zeta in Ok, Ko.
  destruct (fst (initialize env _)).
  - destruct (Ok eq_refl) as (m & r & _ & _ & _ & _ & T). rewrite T.
    destruct (openable env OUTPUT_TEXT_FILE),
             (openable env AUDIO_LEVEL_FILE); repeat split.
  - destruct (Ko eq_refl) as (T & _). rewrite T. repeat split.
Qed.

Lemma record_needs_mode (mode : Z) (p : Process) :
  mode <> 1 -> mode <> 2 -> record env mode p = Returned false p.
Proof.
  intros N1 N2. unfold record. cbv zeta.
  destruct (Z.eqb_spec mode 1); [contradiction|].
  destruct (Z.eqb_spec mode 2); [contradiction | reflexivity].
Qed.

(** X11 (main, exit status).  [main] returns 0 or 1.  It returns 1
    exactly when [record] refuses to start: the choice is neither 1 nor
    2; or it is 2 and no monitor line could be read; or it is 1 and the
    command [parec ...] could not be started; or it is 2 and the command
    [parec ... --device=<monitor>] could not be started.  Then nothing
    happened after [initialize]: no sample was stored, no recognizer
    call was made and no WAV file was written.  A return of 0 needs a
    choice of 1 or 2. *)
Theorem main_exit_code :
  let p0 := snd (initialize env
                   (mkProcess new_AudioRecorder [] SIG_DFL SIG_DFL)) in
  (forall code p, main env = Returned code p -> code = 0 \/ code = 1)
  /\ ((exists p, main env = Returned 1 p)
      <-> (choice env <> 1 /\ choice env <> 2)
          \/ (choice env = 2 /\ default_sink_line env = None)
          \/ (choice env = 1 /\ popen env parec = None)
          \/ (choice env = 2 /\ default_sink_line env <> None
              /\ popen env
                   (parec ++ " --device="
                    ++ getSystemAudioMonitor env)%string
                 = None))
  /\ (forall p, main env = Returned 1 p ->
        p = p0
        /\ audioData (recorder p) = []
        /\ binary_writes (trace p) = []
        /\ vosk_calls (trace p) = [])
  /\ (forall p, main env = Returned 0 p ->
        choice env = 1 \/ choice env = 2).
Proof.
  cbv zeta. rewrite main_unfold.
  destruct initialized_dispositions as (_ & _ & A & _).
  destruct initialized_trace as (B & C & _).
  set (p0 := snd (initialize env _)) in *.
  assert (One : forall p,
            match record env (choice env) p0 with
            | Returned ok q => Returned (if ok then 0 else 1) q
            | Killed sig q => Killed sig q
            | Terminated q => Terminated q
            end = Returned 1 p ->
            record env (choice env) p0 = Returned false p0 /\ p = p0).
  { intros p.
    destruct (record env (choice env) p0) as [ok q | sig q | q] eqn:E;
      [|discriminate | discriminate].
    destruct ok; [discriminate|]. intros [= <-].
    destruct (record_false env _ _ _ E) as [-> _]. split; reflexivity. }
  split; [| split; [| split]].
  - intros code p.
    destruct (record env (choice env) p0) as [ok q | sig q | q];
      [|discriminate | discriminate].
    intros [= <- _]. destruct ok; [left | right]; reflexivity.
  - split.
    + intros [p H]. destruct (One p H) as [F _].
      apply (record_false env _ _ _ F).
    + intros Cause. exists p0.
      rewrite (record_refused env _ p0 Cause). reflexivity.
  - intros p H. destruct (One p H) as [_ ->].
    split; [reflexivity|]. split; [exact A|]. split; [exact B | exact C].
  - intros p.
    destruct (record env (choice env) p0) as [ok q | sig q | q] eqn:E;
      [|discriminate | discriminate].
    destruct ok; [|discriminate]. intros _.
    destruct (Z.eq_dec (choice env) 1) as [|N1]; [now left|].
    destruct (Z.eq_dec (choice env) 2) as [|N2]; [now right|].
    rewrite record_needs_mode in E by assumption. discriminate.
Qed.

Lemma main_returned_writes (code : Z) (q : Process) :
  main env = Returned code q ->
  let outputFilename :=
    ((if (choice env =? 1)%Z then "mikrofon_" else "sistem_sesi_")
     ++ timestamp env ++ ".wav")%string in
  binary_writes (trace q)
  = (if code =? 0 then
       match audioData (recorder q) with
       | [] => []
       | _ :: _ =>
           if openable env outputFilename
           then [(outputFilename, wav_file (audioData (recorder q)))]
           else []
       end
     else []).
Proof.
  intros H. cbv zeta. destruct initialized_trace as (B & _).
  destruct main_cases
    as [E | [(sig & q0 & E & C) | (q0 & p' & name & E & C & F & N)]];
    rewrite E in H; [|discriminate|]; injection H as <- <-; cbn [Z.eqb].
  - exact B.
  - destruct (finish_effect env name q0) as (p2 & F2 & C2 & S2 & W2 & _).
    rewrite F in F2. injection F2 as <-.
    assert (BQ : binary_writes (trace q0) = []).
    { destruct C as (T & A & _). rewrite T, binary_writes_app, B.
      apply in_loop_events in A. now destruct A as [-> _]. }
    destruct C2 as (T2 & _ & D2 & _).
    rewrite T2, binary_writes_app, BQ, W2.
    rewrite D2, S2, app_nil_r, <- N. reflexivity.
Qed.

(** X12 (main, the WAV file).  A run of [main] that returns has written
    at most one binary file.  If it returns 1, recording could not
    start and it has written none.  If it returns 0 it has written the
    whole sample buffer once, as [wav_file] lays it out, to
    [mikrofon_<timestamp>.wav] in mode 1 and to
    [sistem_sesi_<timestamp>.wav] in mode 2, provided the buffer is not
    empty and the file can be created; failing to create it does not
    change the exit status. *)
Theorem main_saves_one_wav (code : Z) (q : Process) :
  main env = Returned code q ->
  let outputFilename :=
    ((if (choice env =? 1)%Z then "mikrofon_" else "sistem_sesi_")
     ++ timestamp env ++ ".wav")%string in
  binary_writes (trace q)
  = (if code =? 0 then
       match audioData (recorder q) with
       | [] => []
       | _ :: _ =>
           if openable env outputFilename
           then [(outputFilename, wav_file (audioData (recorder q)))]
           else []
       end
     else []).
Proof. exact (main_returned_writes code q). Qed.

End Session.

Lemma main_exit_code_witness :
  exists p, main (V := scripted) (system_session None two_chunks)
            = Returned 1 p.
Proof.
  destruct (main_exit_code (V := scripted) (system_session None two_chunks))
    as (_ & Iff & _).
  apply Iff. right. left. split; reflexivity.
Defined.

Lemma main_saves_one_wav_witness :
  binary_writes
    (trace (outcome_process (main (V := scripted) (session two_chunks))))
  = [("mikrofon_20240101_120000.wav"%string, wav_file [1; 2; 3; 4])].
Proof.
  assert (E : main (V := scripted) (session two_chunks)
              = Returned 0
                  (outcome_process
                     (main (V := scripted) (session two_chunks))))
    by (vm_compute; reflexivity).
  rewrite (main_saves_one_wav (V := scripted) (session two_chunks) 0 _ E).
  vm_compute. reflexivity.
Defined.

(** ** The recognizer over a whole run *)

Section Recognizer.

Context {M R : Type} `{V : Vosk M R}.
Variable env : Env.

Local Abbreviation Process := (@Process M R).

Lemma main_process :
  outcome_process (main env)
  = outcome_process
      (record env (choice env)
         (snd (initialize env
                 (mkProcess new_AudioRecorder [] SIG_DFL SIG_DFL)))).
Proof.
  rewrite main_unfold. destruct (record env (choice env) _); reflexivity.
Qed.

Lemma main_continues :
  continues (fun _ => True)
    (snd (initialize env (mkProcess new_AudioRecorder [] SIG_DFL SIG_DFL)))
    (outcome_process (main env)).
Proof.
  rewrite main_process.
  destruct (initialized_dispositions env) as (Hi & Ht & _).
  apply record_continues; assumption.
Qed.

Lemma quiet_events (new : list Event) :
  Forall quiet new ->
  vosk_calls new = []
  /\ forall content, ~ In (FileWrite OUTPUT_TEXT_FILE content) new.
Proof.
  induction 1 as [| e l He _ [IH1 IH2]];
    [split; [reflexivity | intros ? []]|].
  destruct e; cbn in He; try contradiction.
  - split; [exact IH1|]. intros c [D | D].
    + injection D as D _. rewrite He in D. discriminate.
    + exact (IH2 c D).
  - split; [exact IH1|]. intros c [D | D];
      [discriminate | exact (IH2 c D)].
Qed.

(** X13 (main, recognition disabled).  When [initialize] fails the
    session goes on without a recognizer, and stays without one: over
    the whole run no call is made to the recognizer, the transcript
    stays empty, and nothing is ever written to the text file; the only
    events are level updates and the WAV file. *)
Theorem session_without_recognizer :
  fst (initialize env (mkProcess new_AudioRecorder [] SIG_DFL SIG_DFL))
  = false ->
  let p := outcome_process (main env) in
  rec (recorder p) = None
  /\ vosk_calls (trace p) = []
  /\ accumulatedText (recorder p) = ""%string
  /\ (forall content, ~ In (FileWrite OUTPUT_TEXT_FILE content) (trace p))
  /\ Forall quiet (trace p).
Proof.
  intros Hf. cbv zeta.
  destruct (initialize_effect env
              (mkProcess new_AudioRecorder [] SIG_DFL SIG_DFL))
    as (_ & _ & Ko).
  cbv zeta in Ko. destruct (Ko Hf) as (T0 & A0 & R0 & R1).
  set (p0 := snd (initialize env _)) in *.
  assert (N0 : rec (recorder p0) = None).
  { destruct (loaded_model env) as [m |].
    - apply (R1 m eq_refl).
    - rewrite R0; reflexivity. }
  destruct main_continues as (T & _ & _ & _ & _ & _ & _ & _ & C & _ & Q).
  fold p0 in T, C, Q.
  destruct (Q N0) as [A Qu].
  assert (Tp : trace (outcome_process (main env))
               = events_since p0 (outcome_process (main env))).
  { rewrite T at 1. rewrite T0. reflexivity. }
  rewrite Tp. destruct (quiet_events _ Qu) as [Vc Tx].
  split; [now apply C|]. split; [exact Vc|].
  split; [rewrite A, A0; reflexivity|]. split; [exact Tx | exact Qu].
Qed.


Lemma fed_is_stored :
  fst (initialize env (mkProcess new_AudioRecorder [] SIG_DFL SIG_DFL))
  = true ->
  let p := outcome_process (main env) in
  List.concat (accept_args (trace p)) = data_bytes (audioData (recorder p)).
Proof.
  intros Ht. cbv zeta.
  destruct (initialize_effect env
              (mkProcess new_AudioRecorder [] SIG_DFL SIG_DFL))
    as (_ & Ok & _).
  cbv zeta in Ok. destruct (Ok Ht) as (m & r & _ & _ & R0 & _).
  destruct (initialized_dispositions env) as (_ & _ & A0 & _).
  destruct (initialized_trace env) as (_ & _ & F0).
  destruct main_continues as (T & _ & D & _ & _ & _ & _ & _ & _ & F & _).
  set (p0 := snd (initialize env _)) in *.
  rewrite R0 in F.
  assert (Fp : accept_args (trace (outcome_process (main env)))
               = accept_args (events_since p0 (outcome_process (main env)))).
  { rewrite T at 1. rewrite accept_args_app, F0. reflexivity. }
  rewrite Fp, F. f_equal.
  transitivity (audioData (recorder p0)
                ++ samples_since p0 (outcome_process (main env)));
    [rewrite A0; reflexivity | symmetry; exact D].
Qed.

(** X14 (main, what the recognizer hears).  In a session with a
    recognizer that runs to its end, so that [main] returns, the chunks
    given to [vosk_recognizer_accept_waveform] are, put end to end,
    exactly the bytes of the sample buffer: every stored sample was
    given to the recognizer once, in order, and nothing else was.  So
    the data section of the WAV file, when one is written and the sizes
    fit its header, is the audio the recognizer heard. *)
Theorem recognizer_hears_what_is_saved (code : Z) (p : Process) :
  fst (initialize env (mkProcess new_AudioRecorder [] SIG_DFL SIG_DFL))
  = true ->
  main env = Returned code p ->
  List.concat (accept_args (trace p)) = data_bytes (audioData (recorder p))
  /\ (forall name bytes,
        In (name, bytes) (binary_writes (trace p)) ->
        Z.of_nat (List.length (audioData (recorder p))) <= 2147483629 ->
        skipn 44 bytes = List.concat (accept_args (trace p))).
Proof.
  intros Ht E. pose proof (fed_is_stored Ht) as F. cbv zeta in F.
  rewrite E in F. cbn [outcome_process] in F.
  split; [exact F|].
  intros name bytes Hin Hlen. rewrite F.
  pose proof (main_returned_writes env code p E) as W. cbv zeta in W.
  rewrite W in Hin. clear W.
  destruct (code =? 0); [|contradiction].
  destruct (audioData (recorder p)) as [| s data] eqn:D; [contradiction|].
  destruct (openable env _); [|contradiction].
  destruct Hin as [[= _ <-] | []].
  rewrite wav_file_split by assumption. apply skipn_header.
Qed.

(** X15 (main, the final result).  In a session with a recognizer that
    runs to its end and returns 0, the final result is asked for exactly
    once, and it is the last call made to the recognizer: the loop never
    asks for it. *)
Theorem final_result_once (q : Process) :
  fst (initialize env (mkProcess new_AudioRecorder [] SIG_DFL SIG_DFL))
  = true ->
  main env = Returned 0 q ->
  exists calls,
    vosk_calls (trace q) = calls ++ [VoskFinalResult]
    /\ ~ In VoskFinalResult calls.
Proof.
  intros Ht H.
  destruct (initialize_effect env
              (mkProcess new_AudioRecorder [] SIG_DFL SIG_DFL))
    as (_ & Ok & _).
  cbv zeta in Ok. destruct (Ok Ht) as (m & r & _ & _ & R0 & _).
  destruct (initialized_trace env) as (_ & V0 & _).
  set (p0 := snd (initialize env _)) in *.
  assert (N0 : ~ In VoskFinalResult (trace p0)).
  { intros I0. assert (I1 : In VoskFinalResult (vosk_calls (trace p0)))
      by (apply filter_In; split; [exact I0 | reflexivity]).
    rewrite V0 in I1. contradiction. }
  destruct (main_cases env)
    as [E | [(sig & q0 & E & C) | (q0 & p' & name & E & C & F & _)]];
    fold p0 in E; rewrite E in H; try discriminate.
  injection H as <-.
  destruct (finish_effect env name q0) as (p2 & F2 & C2 & _ & _ & V2 & _).
  rewrite F in F2. injection F2 as <-.
  destruct C as (T & A & _ & _ & _ & _ & _ & _ & Rq & _).
  fold p0 in T, Rq.
  assert (NF : ~ In VoskFinalResult (trace q0)).
  { rewrite T. intros I0. apply in_app_or in I0.
    destruct I0 as [I0 | I0]; [exact (N0 I0)|].
    apply in_loop_events in A. destruct A as [_ A]. exact (A I0). }
  destruct (rec (recorder q0)) as [r1 |] eqn:Er.
  - destruct C2 as (T2 & _).
    exists (vosk_calls (trace q0)). split.
    + rewrite T2, vosk_calls_app, V2. reflexivity.
    + intros I0. apply filter_In in I0. destruct I0 as [I0 _].
      exact (NF I0).
  - destruct Rq as [_ Rq]. rewrite (Rq eq_refl) in R0. discriminate.
Qed.

Lemma cleanup_frees (a : @AudioRecorder M R) :
  fst (cleanup a)
  = match rec a with Some r => [FreeRecognizer r] | None => [] end
    ++ match model a with Some m => [FreeModel m] | None => [] end.
Proof. destruct a as [run data [m |] [r |] acc]; reflexivity. Qed.

(** X16 (the handles of the model and the recognizer).  Over a run of
    [main] that returns: when no model could be loaded nothing is
    released; when the session has a recognizer, the recognizer and then
    the model are released once each, by the destructor; but when the
    model was loaded and the recognizer could not be created,
    [initialize] releases the model and leaves the pointer in place,
    and the destructor releases the same model a second time. *)
Theorem main_frees_the_handles (code : Z) (p : Process) :
  main env = Returned code p ->
  (loaded_model env = None -> main_frees env = [])
  /\ (forall m,
        loaded_model env = Some m ->
        vosk_recognizer_new m 16000 = None ->
        main_frees env = [FreeModel m; FreeModel m])
  /\ (forall m r0,
        loaded_model env = Some m ->
        vosk_recognizer_new m 16000 = Some r0 ->
        exists r,
          rec (recorder p) = Some r
          /\ main_frees env = [FreeRecognizer r; FreeModel m]).
Proof.
  intros E.
  destruct (initialize_effect env
              (mkProcess new_AudioRecorder [] SIG_DFL SIG_DFL))
    as (M0 & Ok & Ko).
  cbv zeta in M0, Ok, Ko.
  pose proof main_continues as C. rewrite E in C. cbn [outcome_process] in C.
  destruct C as (_ & _ & _ & _ & Mp & _ & _ & _ & Rp & _).
  set (p0 := snd (initialize env _)) in *.
  rewrite M0 in Mp.
  unfold main_frees, initialize_frees. rewrite E, cleanup_frees, Mp.
  split; [| split].
  - intros L. rewrite L in *.
    destruct (fst (initialize env _)).
    + destruct (Ok eq_refl) as (m & r & Lm & _). discriminate.
    + destruct (Ko eq_refl) as (_ & _ & R0 & _).
      assert (N : rec (recorder p) = None)
        by (apply Rp; rewrite R0; reflexivity).
      rewrite N. reflexivity.
  - intros m L N. rewrite L, N.
    destruct (fst (initialize env _)).
    + destruct (Ok eq_refl) as (m1 & r & Lm & Nr & _).
      rewrite L in Lm. injection Lm as <-. rewrite N in Nr. discriminate.
    + destruct (Ko eq_refl) as (_ & _ & _ & R1).
      destruct (R1 m L) as [_ R0].
      assert (Np : rec (recorder p) = None) by (apply Rp; exact R0).
      rewrite Np. reflexivity.
  - intros m r0 L N. rewrite L, N.
    destruct (fst (initialize env _)).
    + destruct (Ok eq_refl) as (m1 & r & _ & _ & R0 & _).
      destruct (rec (recorder p)) as [r1 |] eqn:Er.
      * exists r1. split; reflexivity.
      * destruct Rp as [_ Rp]. rewrite Rp in R0 by reflexivity.
        discriminate.
    + destruct (Ko eq_refl) as (_ & _ & _ & R1).
      destruct (R1 m L) as [N1 _]. rewrite N in N1. discriminate.
Qed.

End Recognizer.

Lemma session_without_recognizer_witness :
  vosk_calls
    (trace (outcome_process (main (V := no_model) (session two_chunks))))
  = [].
Proof.
  destruct (session_without_recognizer (V := no_model) (session two_chunks)
              eq_refl) as (_ & Calls & _).
  exact Calls.
Defined.

Lemma recognizer_hears_what_is_saved_witness :
  List.concat
    (accept_args
       (trace (outcome_process (main (V := scripted) (session odd_chunk)))))
  = data_bytes
      (audioData
         (recorder
            (outcome_process (main (V := scripted) (session odd_chunk))))).
Proof.
  assert (E : main (V := scripted) (session odd_chunk)
              = Returned 0
                  (outcome_process
                     (main (V := scripted) (session odd_chunk))))
    by (vm_compute; reflexivity).
  destruct (recognizer_hears_what_is_saved (V := scripted)
              (session odd_chunk) 0 _ eq_refl E) as (Fed & _).
  exact Fed.
Defined.

Lemma final_result_once_witness :
  exists calls,
    vosk_calls
      (trace (outcome_process (main (V := scripted) (session two_chunks))))
    = calls ++ [VoskFinalResult]
    /\ ~ In VoskFinalResult calls.
Proof.
  assert (E : main (V := scripted) (session two_chunks)
              = Returned 0
                  (outcome_process
                     (main (V := scripted) (session two_chunks))))
    by (vm_compute; reflexivity).
  exact (final_result_once (V := scripted) (session two_chunks) _ eq_refl E).
Defined.

Lemma main_frees_the_handles_witness :
  main_frees (V := no_recognizer) (session two_chunks)
  = [FreeModel tt; FreeModel tt].
Proof.
  assert (E : main (V := no_recognizer) (session two_chunks)
              = Returned 0
                  (outcome_process
                     (main (V := no_recognizer) (session two_chunks))))
    by (vm_compute; reflexivity).
  destruct (main_frees_the_handles (V := no_recognizer) (session two_chunks)
              0 _ E) as (_ & Twice & _).
  apply Twice; reflexivity.
Defined.

(** ** The level file over the loop, and [initialize] *)

Section Cadence.

Context {M R : Type} `{V : Vosk M R}.
Variable env : Env.

Local Abbreviation Process := (@Process M R).

Ltac fields :=
  cbn [trace recorder audioData emit update set_recorder set_rec
       set_audioData set_accumulatedText accumulatedText model rec
       running on_sigint on_sigterm].

Ltac bools :=
  repeat match goal with
         | |- context [if ?b then _ else _] =>
             lazymatch type of b with bool => destruct b eqn:? end
         end.

Lemma level_writes_app (a b : list Event) :
  level_writes (a ++ b) = level_writes a ++ level_writes b.
Proof. apply flat_map_app. Qed.

Lemma iteration_levels (bytes : list byte) (p p' : Process)
  (l l' : Locals) :
  iteration env bytes p l = Some (p', l') ->
  level_writes (events_since p p')
  = (if (Z.rem (int32 (updateCounter l + 1)) 2 =? 0)
        && openable env AUDIO_LEVEL_FILE
     then [level_line bytes] else []).
Proof.
  pose proof (iteration_unfold env bytes p l) as U. cbv zeta in U.
  rewrite U. clear U. unfold level_line.
  set (samples := decode_samples bytes).
  set (p1 := update (fun a => set_audioData (audioData a ++ samples) a) p).
  set (chunk := firstn (2 * (List.length bytes / 2)) bytes).
  destruct (rec (recorder p)) as [r |] eqn:Hr.
  - match goal with
    | |- match recognize env _ ?q with _ => _ end = _ -> _ => set (p2 := q)
    end.
    assert (H2 : rec (recorder p2) = Some r).
    { unfold p2. destruct (Z.rem _ 2 =? 0).
      - unfold writeAudioLevel. rewrite writeToFile_recorder.
        destruct p as [[]]. exact Hr.
      - destruct p as [[]]. exact Hr. }
    pose proof (recognize_unfold env chunk p2 r H2) as U.
    destruct (vosk_recognizer_partial_result r) as [r1 partialResult].
    destruct (vosk_recognizer_accept_waveform r1 chunk) as [r2 accepted].
    destruct (vosk_recognizer_result r2) as [r3 result].
    cbv zeta in U. rewrite U. clear U. intros [= <- _].
    unfold p2, p1. clear p2 H2 p1.
    destruct p as [[run data m r0 acc] t i1 i2]. cbn in Hr. subst r0.
    clearbody samples chunk.
    unfold writePartialText, writeRecognizedText, writeAudioLevel,
      writeToFile.
    bools.
    all: fields.
    all: erewrite events_since_eq
      by (fields; rewrite <- ?app_assoc; reflexivity).
    all: unfold level_writes; cbn [flat_map app andb].
    all: rewrite ?String.eqb_refl, ?text_not_level.
    all: first [reflexivity | discriminate].
  - unfold p1. clear p1.
    destruct p as [[run data m r0 acc] t i1 i2]. cbn in Hr. subst r0.
    clearbody samples chunk.
    unfold recognize, writeAudioLevel, writeToFile.
    bools.
    all: fields.
    all: intros [= <- _].
    all: erewrite events_since_eq
      by (fields; first [ rewrite <- ?app_assoc; reflexivity
                        | symmetry; apply app_nil_r ]).
    all: unfold level_writes; cbn [flat_map app andb].
    all: rewrite ?String.eqb_refl.
    all: first [reflexivity | discriminate].
Qed.


Lemma even_counter (c : Z) :
  0 <= c -> (Z.rem (c + 1) 2 =? 0) = Z.odd c.
Proof.
  intros H. rewrite Z.rem_mod_nonneg by lia.
  rewrite Zmod_odd. change (c + 1) with (Z.succ c).
  rewrite Z.odd_succ, <- Z.negb_odd.
  destruct (Z.odd c); reflexivity.
Qed.

Lemma capture_levels (src : list SourceEvent) :
  forall (p : Process) (l : Locals),
  uninterrupted src ->
  running (recorder p) = true ->
  0 <= updateCounter l ->
  updateCounter l + Z.of_nat (List.length src) < 2 ^ 31 ->
  exists l' p',
    capture env src false p l = Returned l' p'
    /\ trace p' = trace p ++ events_since p p'
    /\ level_writes (events_since p p')
       = (if openable env AUDIO_LEVEL_FILE
          then map level_line
                 (alternate (Z.odd (updateCounter l)) (freads src))
          else []).
Proof.
  induction src as [| e src IH]; intros p l Hu Hr H0 Hn.
  - exists l, p. cbn [capture]. rewrite Hr. cbn [negb andb].
    split; [reflexivity|].
    assert (E : events_since p p = []) by (apply events_since_eq;
                                           now rewrite app_nil_r).
    rewrite E, app_nil_r. split; [reflexivity|].
    destruct (openable env AUDIO_LEVEL_FILE); reflexivity.
  - inversion Hu as [| ? ? He Hu']; subst.
    destruct e as [bytes | sig]; [|contradiction].
    cbn [capture]. rewrite Hr. cbn [negb andb].
    destruct bytes as [| b bytes]; [contradiction|].
    cbn [List.length Nat.eqb].
    destruct (iteration_spec env (b :: bytes) p l)
      as (p1 & E & _ & R1 & _).
    pose proof (iteration_continues env _ _ _ _ _ E) as (T1 & _).
    pose proof (iteration_levels _ _ _ _ _ E) as L1.
    cbn [List.length] in E. rewrite E.
    cbn [List.length] in Hn.
    assert (C1 : int32 (updateCounter l + 1) = updateCounter l + 1)
      by (apply int32_small; lia).
    rewrite C1 in L1. rewrite even_counter in L1 by assumption.
    match type of E with
    | _ = Some (_, ?l1) => destruct (IH p1 l1) as (l' & p' & K & T2 & L2)
    end.
    + assumption.
    + now rewrite R1.
    + cbn [updateCounter]. lia.
    + cbn [updateCounter]. lia.
    + cbn [updateCounter] in L2. rewrite C1 in L2.
      exists l', p'. split; [exact K|].
      assert (S : events_since p p'
                  = events_since p p1 ++ events_since p1 p').
      { apply events_since_eq. rewrite T2, T1 at 1.
        now rewrite app_assoc. }
      rewrite S. split; [rewrite T2, T1 at 1; now rewrite app_assoc|].
      rewrite level_writes_app, L1, L2.
      change (updateCounter l + 1) with (Z.succ (updateCounter l)).
      rewrite Z.odd_succ, <- Z.negb_odd.
      cbn [freads alternate].
      destruct (Z.odd (updateCounter l)),
               (openable env AUDIO_LEVEL_FILE); reflexivity.
Qed.

(** X17 (the level file during the loop).  Over a source that delivers
    audio without interruption the level file is updated after every
    second chunk only: the loop writes, in order, the level of the
    second chunk, of the fourth, and so on, each computed from that
    chunk alone; the levels of the first, the third, ... chunk are never
    published.  A level file that cannot be opened gets nothing. *)
Theorem level_of_every_second_chunk (src : list SourceEvent)
  (p : Process) (l : Locals) :
  uninterrupted src ->
  running (recorder p) = true ->
  updateCounter l = 0 ->
  Z.of_nat (List.length src) < 2 ^ 31 ->
  exists l' p',
    capture env src false p l = Returned l' p'
    /\ level_writes (events_since p p')
       = (if openable env AUDIO_LEVEL_FILE
          then map level_line (alternate false (freads src))
          else []).
Proof.
  intros Hu Hr H0 Hn.
  destruct (capture_levels src p l Hu Hr) as (l' & p' & K & _ & L);
    [lia | lia |].
  rewrite H0 in L. exists l', p'. split; [exact K | exact L].
Qed.

End Cadence.

Lemma level_of_every_second_chunk_witness :
  exists l' p',
    capture (V := scripted) (session two_chunks) two_chunks false
      fresh_process fresh_locals
    = Returned l' p'
    /\ level_writes (events_since fresh_process p')
       = map level_line (alternate false (freads two_chunks)).
Proof.
  apply (level_of_every_second_chunk (V := scripted) (session two_chunks)
           two_chunks fresh_process fresh_locals).
  - repeat constructor; discriminate.
  - reflexivity.
  - reflexivity.
  - cbn. lia.
Defined.

(** ** AudioRecorder::initialize *)

Section Initialize.

Context {M R : Type} `{V : Vosk M R}.
Variable env : Env.

Local Abbreviation Process := (@Process M R).

Lemma loaded_model_configured (path : string) (m : M) :
  config_line env = Some path ->
  path <> ""%string ->
  model_conf_exists env path = true ->
  vosk_model_new path = Some m ->
  loaded_model env = Some m.
Proof.
  intros C N X L. unfold loaded_model, readCurrentModelPath. cbv zeta.
  rewrite C.
  assert (E : empty path = false) by (destruct path; [contradiction | reflexivity]).
  rewrite E, X. cbn [negb andb]. rewrite E, L. reflexivity.
Qed.

Lemma loaded_model_fallback (m : M) :
  vosk_model_new MODEL_PATH = Some m ->
  exists m', loaded_model env = Some m'.
Proof.
  intros L. unfold loaded_model. cbv zeta.
  set (path := if empty (readCurrentModelPath env) then MODEL_PATH
               else readCurrentModelPath env).
  destruct (vosk_model_new path) as [m1 |] eqn:E; [now exists m1|].
  destruct (String.eqb_spec path MODEL_PATH) as [P | P].
  - rewrite P, L in E. discriminate.
  - cbn [negb]. now exists m.
Qed.

(** X18 (initialize).  [initialize] succeeds exactly when a model loads
    and a recognizer can be created for it.  The model is the configured
    one when the configuration file names a directory that holds
    [conf/model.conf] and loads; whenever the default model loads, some
    model is loaded, whatever the configuration file says.  After a
    success the recorder has a recognizer and an empty transcript, and
    the text file and the level file, where they can be opened, hold an
    empty line and [0].  After a failure nothing was written and the
    transcript is as before.  The sample buffer, the stop flag and the
    signal dispositions are never touched. *)
Theorem initialize_contract (p : Process) :
  let ok := fst (initialize env p) in
  let p' := snd (initialize env p) in
  (ok = true <->
   exists m r, loaded_model env = Some m
               /\ vosk_recognizer_new m 16000 = Some r)
  /\ model (recorder p') = loaded_model env
  /\ (forall path m,
        config_line env = Some path -> path <> ""%string ->
        model_conf_exists env path = true ->
        vosk_model_new path = Some m ->
        model (recorder p') = Some m)
  /\ (forall m, vosk_model_new MODEL_PATH = Some m ->
        model (recorder p') <> None)
  /\ (ok = true ->
      rec (recorder p') <> None
      /\ accumulatedText (recorder p') = ""%string
      /\ (openable env OUTPUT_TEXT_FILE = true ->
          file_content env p' OUTPUT_TEXT_FILE = Some endl)
      /\ (openable env AUDIO_LEVEL_FILE = true ->
          file_content env p' AUDIO_LEVEL_FILE = Some ("0" ++ endl)%string))
  /\ (ok = false ->
      trace p' = trace p
      /\ accumulatedText (recorder p') = accumulatedText (recorder p))
  /\ same_session p p'.
Proof.
  cbv zeta.
  destruct (initialize_effect env p) as (M0 & Ok & Ko). cbv zeta in M0, Ok, Ko.
  split; [| split; [exact M0 | split; [| split; [| split; [| split]]]]].
  - split.
    + intros H. destruct (Ok H) as (m & r & L & N & _). now exists m, r.
    + intros (m & r & L & N).
      destruct (fst (initialize env p)); [reflexivity|].
      destruct (Ko eq_refl) as (_ & _ & _ & R1).
      destruct (R1 m L) as [N1 _]. rewrite N in N1. discriminate.
  - intros path m C N X L. rewrite M0.
    now apply (loaded_model_configured path m).
  - intros m L. rewrite M0.
    destruct (loaded_model_fallback m L) as [m' ->]. discriminate.
  - intros H. destruct (Ok H) as (m & r & _ & _ & R0 & A0 & T).
    split; [rewrite R0; discriminate|]. split; [exact A0|].
    unfold file_content. rewrite T, !file_after_app.
    split; intros O; rewrite O.
    + destruct (openable env AUDIO_LEVEL_FILE); reflexivity.
    + destruct (openable env OUTPUT_TEXT_FILE); reflexivity.
  - intros H. destruct (Ko H) as (T & A & _). split; assumption.
  - apply initialize_same.
Qed.

End Initialize.

Lemma initialize_contract_witness :
  fst (initialize (V := scripted) (session two_chunks) fresh_process) = true
  /\ file_content (session two_chunks)
       (snd (initialize (V := scripted) (session two_chunks) fresh_process))
       AUDIO_LEVEL_FILE
     = Some ("0" ++ endl)%string.
Proof.
  destruct (initialize_contract (V := scripted) (session two_chunks)
              fresh_process) as (Iff & _ & _ & _ & Ok & _).
  cbv zeta in Iff, Ok.
  assert (H : fst (initialize (V := scripted) (session two_chunks)
                     fresh_process) = true).
  { apply Iff. exists tt, O. split; reflexivity. }
  split; [exact H|]. apply (Ok H). reflexivity.
Defined.

(** ** The transcript of several segments, and installed handlers *)

Section Transcript.

Context {M R : Type}.
Variable env : Env.

Local Abbreviation Process := (@Process M R).

Local Open Scope string_scope.

Lemma concat_joined (a t : string) (rest : list string) :
  String.concat " " ((a ++ " " ++ t) :: rest)
  = a ++ " " ++ String.concat " " (t :: rest).
Proof.
  destruct rest as [| f rest]; cbn [String.concat]; [reflexivity|].
  now rewrite !append_assoc.
Qed.

Lemma transcript_fold (texts : list string) : forall p : Process,
  accumulatedText
    (recorder (fold_left (fun q t => writeRecognizedText env t q) texts p))
  = String.concat " "
      (filter (fun t => negb (empty t))
         (accumulatedText (recorder p) :: texts)).
Proof.
  induction texts as [| t texts IH]; intros p.
  - cbn [fold_left filter].
    destruct (accumulatedText (recorder p)); reflexivity.
  - cbn [fold_left]. rewrite IH. cbn [filter].
    destruct t as [| c t].
    + reflexivity.
    + rewrite writeRecognizedText_recorder by discriminate.
      cbn [accumulatedText set_accumulatedText].
      destruct (accumulatedText (recorder p)) as [| a acc].
      * reflexivity.
      * cbn [empty negb]. apply concat_joined.
Qed.

Lemma file_fold (texts : list string) : forall p : Process,
  openable env OUTPUT_TEXT_FILE = true ->
  file_content env p OUTPUT_TEXT_FILE
  = Some (accumulatedText (recorder p) ++ endl)
  \/ filter (fun t => negb (empty t)) texts <> [] ->
  file_content env
    (fold_left (fun q t => writeRecognizedText env t q) texts p)
    OUTPUT_TEXT_FILE
  = Some (accumulatedText
            (recorder
               (fold_left (fun q t => writeRecognizedText env t q) texts p))
          ++ endl).
Proof.
  induction texts as [| t texts IH]; intros p Ho H.
  - destruct H as [H | H]; [exact H | contradiction].
  - cbn [fold_left]. apply IH; [exact Ho|].
    destruct t as [| c t].
    + exact H.
    + left. apply writeRecognizedText_file; [discriminate | exact Ho].
Qed.

(** X19 (writeRecognizedText, several segments).  Starting from an empty
    transcript, publishing a sequence of recognised segments leaves as
    transcript the non-empty segments joined by single spaces, in order:
    an empty segment leaves no trace, and no space is put at the start
    or at the end.  If one segment at least is not empty and the text
    file can be opened, the file holds that transcript and a line
    end. *)
Theorem transcript_is_joined_segments (texts : list string) (p : Process) :
  accumulatedText (recorder p) = "" ->
  let p' := fold_left (fun q t => writeRecognizedText env t q) texts p in
  let segments := filter (fun t => negb (empty t)) texts in
  accumulatedText (recorder p') = String.concat " " segments
  /\ (segments <> [] -> openable env OUTPUT_TEXT_FILE = true ->
      file_content env p' OUTPUT_TEXT_FILE
      = Some (String.concat " " segments ++ endl)).
Proof.
  intros H0. cbv zeta.
  assert (A : accumulatedText
                (recorder
                   (fold_left (fun q t => writeRecognizedText env t q)
                      texts p))
              = String.concat " " (filter (fun t => negb (empty t)) texts)).
  { rewrite transcript_fold, H0. reflexivity. }
  split; [exact A|].
  intros Hs Ho. rewrite <- A. apply file_fold; [exact Ho | right; exact Hs].
Qed.

End Transcript.

Section Handlers.

Context {M R : Type} `{V : Vosk M R}.
Variable env : Env.

Local Abbreviation Process := (@Process M R).

Lemma capture_with_handlers (src : list SourceEvent) :
  forall (in_read : bool) (p : Process) (l : Locals),
  running (recorder p) = true ->
  on_sigint p = Handler signal_lambda ->
  on_sigterm p = Handler signal_lambda ->
  capture env src in_read p l
  = capture env (map Fread (freads src)) false p l.
Proof.
  induction src as [| e src IH]; intros b p l Hr Hi Ht.
  - cbn [capture freads map]. rewrite Hr.
    destruct b; reflexivity.
  - destruct e as [bytes | sig].
    + cbn [capture freads map]. rewrite Hr.
      replace (negb b && negb true) with false by (destruct b; reflexivity).
      cbn [negb andb].
      destruct (List.length bytes =? 0)%nat; [reflexivity|].
      destruct (iteration_spec env bytes p l)
        as (p' & E & _ & R1 & S1 & S2 & _).
      rewrite E. apply IH; congruence.
    + cbn [capture freads]. rewrite Hr.
      replace (negb b && negb true) with false by (destruct b; reflexivity).
      assert (D : deliver sig p = Some p).
      { unfold deliver. destruct sig; rewrite ?Hi, ?Ht;
          destruct p as [[]]; reflexivity. }
      rewrite D. apply IH; assumption.
Qed.

(** X20 (setSignalHandler).  Were [setSignalHandler] called, the program
    could not be stopped by a signal at all: with its two handlers
    installed, SIGINT and SIGTERM change nothing, and the loop runs as
    if the signals had not been sent, until the source ends.  The
    handlers keep the process from being killed and never clear
    [running]. *)
Theorem installed_handlers_ignore_signals (src : list SourceEvent)
  (in_read : bool) (p : Process) (l : Locals) :
  running (recorder p) = true ->
  capture env src in_read (setSignalHandler p) l
  = capture env (map Fread (freads src)) false (setSignalHandler p) l
  /\ (forall sig q,
        capture env src in_read (setSignalHandler p) l <> Killed sig q)
  /\ running (recorder
                (outcome_process
                   (capture env src in_read (setSignalHandler p) l)))
     = true.
Proof.
  intros Hr.
  split; [apply capture_with_handlers; [exact Hr | reflexivity ..]|].
  assert (G : forall (s : list SourceEvent) (q : Process) (k : Locals),
    running (recorder q) = true ->
    on_sigint q = Handler signal_lambda ->
    on_sigterm q = Handler signal_lambda ->
    exists k' q', capture env (map Fread (freads s)) false q k
                  = Returned k' q'
                  /\ running (recorder q') = true).
  { induction s as [| e s IH]; intros q k Rq Iq Tq.
    - exists k, q.
      split; [cbn [capture freads map]; rewrite Rq; reflexivity | exact Rq].
    - destruct e as [bytes | sig]; [|apply IH; assumption].
      cbn [capture freads map]. rewrite Rq. cbn [negb andb].
      destruct (List.length bytes =? 0)%nat;
        [exists k, q; split; [reflexivity | exact Rq]|].
      destruct (iteration_spec env bytes q k)
        as (q' & E & _ & R1 & S1 & S2 & _).
      rewrite E. apply IH; congruence. }
  rewrite capture_with_handlers by (exact Hr || reflexivity).
  destruct (G src (setSignalHandler p) l Hr eq_refl eq_refl)
    as (k' & q' & K & Rq).
  rewrite K. split; [discriminate | exact Rq].
Qed.

End Handlers.

Lemma transcript_is_joined_segments_witness :
  accumulatedText
    (recorder
       (fold_left (fun q t => writeRecognizedText (session []) t q)
          ["hello"; ""; "big"; "world"]%string fresh_process))
  = "hello big world"%string.
Proof.
  apply (transcript_is_joined_segments (session [])
           ["hello"; ""; "big"; "world"]%string fresh_process).
  reflexivity.
Defined.

Lemma installed_handlers_ignore_signals_witness :
  capture (V := scripted) (session interrupted) interrupted false
    (setSignalHandler fresh_process) fresh_locals
  = capture (V := scripted) (session interrupted) two_chunks false
      (setSignalHandler fresh_process) fresh_locals.
Proof.
  apply (installed_handlers_ignore_signals (V := scripted)
           (session interrupted) interrupted false fresh_process
           fresh_locals).
  reflexivity.
Defined.
